(** * ml_resize: KITTI label codec and box-preserving image resizing

    A shallow embedding of [resize/transform.py] and [resize/kitti.py].

    - Python values are a small tagged union ([value]); a record is a
      [dict] with string keys, here a [gmap string value].
    - Python [float] is IEEE-754 binary64, here Rocq's primitive [float];
      Python [int] is [Z].
    - Exceptions are an explicit [result]; the process-wide logger is a
      list of entries threaded through every call (monad [M]).
    - [cv2] and [numpy] are outside the repository: the array type and the
      three calls the code makes are the class [Imaging]. *)

From Stdlib Require Import ZArith Floats Lia Bool List Ascii.
From stdpp Require Import base option list gmap strings sorting.

Open Scope Z_scope.

(** ** Exceptions, results and the logger *)

Inductive exn : Type :=
| ValueError
| TypeError
| OverflowError
| ZeroDivisionError
| IndexError
| KeyError
| FileNotFoundError
| FileExistsError
| NotADirectoryError
| IsADirectoryError
| PermissionError
| CvError.

Inductive result (A : Type) : Type :=
| Ok (a : A)
| Raise (e : exn).
Arguments Ok {A} a.
Arguments Raise {A} e.

Definition is_ok {A} (r : result A) : bool :=
  match r with Ok _ => true | Raise _ => false end.

(** ** IEEE-754 binary64 helpers

    A finite double is [±m·2^e] with [e >= -1074]; [units] is its value
    counted in units of [2^-1074], an integer. *)

Definition sf_units (x : spec_float) : option Z :=
  match x with
  | S754_zero _ => Some 0
  | S754_finite s m e => Some (cond_Zopp s (Zpos m * 2 ^ (e + 1074)))
  | _ => None
  end.


(** [a / b] rounded to the nearest integer, ties to even ([b > 0]). *)
Definition div_half_even (a b : Z) : Z :=
  let q := a / b in
  let r := a mod b in
  match 2 * r ?= b with
  | Lt => q
  | Gt => q + 1
  | Eq => if Z.even q then q else q + 1
  end.

(** The exponent at which [n/d] is rounded, counted from [-1074]: the
    quotient [n·2^1074 / (d·2^E)] then has 53 bits, or fewer at [E = 0],
    the exponent of the subnormal doubles. *)
Definition ratio_exponent (n d : positive) : Z :=
  let E0 := Z.max (Z.log2 (Zpos n) + 1021 - Z.log2 (Zpos d)) 0 in
  if 2 ^ 53 * (Zpos d * 2 ^ E0) <=? Zpos n * 2 ^ 1074 then E0 + 1 else E0.

(** Correct rounding (to nearest, ties to even) of the positive rational
    [n/d] to binary64, as mantissa and exponent; mantissa [0] on underflow. *)
Definition round_ratio (n d : positive) : Z * Z :=
  let E := ratio_exponent n d in
  let q := div_half_even (Zpos n * 2 ^ 1074) (Zpos d * 2 ^ E) in
  if q =? 2 ^ 53 then (2 ^ 52, E + 1 - 1074) else (q, E - 1074).

(** The double nearest to [±n/d]; an infinity when the rounded value is
    beyond the largest double. *)
Definition nearest_sf (s : bool) (n d : positive) : spec_float :=
  let '(q, e) := round_ratio n d in
  match q with
  | Zpos m => if e <=? 971 then S754_finite s m e else S754_infinity s
  | _ => S754_zero s
  end.

Definition nearest_double (n : Z) (d : positive) : spec_float :=
  match n with
  | Z0 => S754_zero false
  | Zpos p => nearest_sf false p d
  | Zneg p => nearest_sf true p d
  end.

Definition sf_is_infinity (x : spec_float) : bool :=
  match x with S754_infinity _ => true | _ => false end.

(** [float(z)] for an [int]: correctly rounded,
    [OverflowError: int too large to convert to float] otherwise. *)
Definition float_of_int (z : Z) : result float :=
  let r := nearest_double z 1 in
  if sf_is_infinity r then Raise OverflowError else Ok (SF2Prim r).

(** [a / b] on two [int]s: the correctly rounded quotient. *)
Definition int_truediv (a b : Z) : result float :=
  match b with
  | Z0 => Raise ZeroDivisionError
  | Zpos d =>
      let r := nearest_double a d in
      if sf_is_infinity r then Raise OverflowError else Ok (SF2Prim r)
  | Zneg d =>
      let r := nearest_double (- a) d in
      if sf_is_infinity r then Raise OverflowError else Ok (SF2Prim r)
  end.

(** [int(x)] for a [float]: truncation toward zero. *)
Definition int_of_float (x : float) : result Z :=
  match Prim2SF x with
  | S754_zero _ => Ok 0
  | S754_finite s m e =>
      Ok (cond_Zopp s (if 0 <=? e then Zpos m * 2 ^ e else Zpos m / 2 ^ (- e)))
  | S754_infinity _ => Raise OverflowError
  | S754_nan => Raise ValueError
  end.

(** [math.floor(x)], used to state the plan the way the specification does. *)
Definition floor_of_float (x : float) : result Z :=
  match Prim2SF x with
  | S754_zero _ => Ok 0
  | S754_finite s m e =>
      Ok (if 0 <=? e then cond_Zopp s (Zpos m * 2 ^ e)
          else (cond_Zopp s (Zpos m)) / 2 ^ (- e))
  | S754_infinity _ => Raise OverflowError
  | S754_nan => Raise ValueError
  end.

(** ** Python strings

    A [str] is a sequence of code points; the model keeps the code points
    below 256 (Rocq's [string]). *)

Definition code (c : ascii) : Z := Z.of_N (Ascii.N_of_ascii c).

(** [str.isspace] on one code point: what [str.split()] and [str.strip()]
    treat as white space. *)
Definition is_space (c : ascii) : bool :=
  let n := code c in
  ((9 <=? n) && (n <=? 13)) || ((28 <=? n) && (n <=? 32)) || (n =? 133) || (n =? 160).

(** Line boundaries of [str.splitlines()]. *)
Definition is_linebreak (c : ascii) : bool :=
  let n := code c in
  ((10 <=? n) && (n <=? 13)) || ((28 <=? n) && (n <=? 30)) || (n =? 133).

(** White space that [float()] and [int()] strip around a numeral. *)
Definition is_numeric_space (c : ascii) : bool :=
  let n := code c in
  ((9 <=? n) && (n <=? 13)) || (n =? 32) || (n =? 133) || (n =? 160).

Definition is_empty (s : string) : bool :=
  match s with EmptyString => true | String _ _ => false end.

Fixpoint lstrip_with (sp : ascii -> bool) (s : string) : string :=
  match s with
  | String c r => if sp c then lstrip_with sp r else s
  | EmptyString => EmptyString
  end.

Fixpoint rstrip_with (sp : ascii -> bool) (s : string) : string :=
  match s with
  | String c r =>
      let r' := rstrip_with sp r in
      if is_empty r' && sp c then EmptyString else String c r'
  | EmptyString => EmptyString
  end.

Definition strip_with (sp : ascii -> bool) (s : string) : string :=
  rstrip_with sp (lstrip_with sp s).

(** [s.strip()] *)
Definition strip (s : string) : string := strip_with is_space s.

(** [s.split()]: the maximal runs of non-space characters. [cur] is the
    token being read. *)
Fixpoint split_from (cur : string) (s : string) : list string :=
  match s with
  | String c r =>
      if is_space c
      then (if is_empty cur then split_from "" r else cur :: split_from "" r)
      else split_from (cur +:+ String c "") r
  | EmptyString => if is_empty cur then [] else [cur]
  end.

Definition split (s : string) : list string := split_from "" s.

(** [s.splitlines()]: a carriage return followed by a line feed is one
    boundary; no empty line is reported after a final boundary. *)
Fixpoint splitlines_from (cur : string) (s : string) : list string :=
  match s with
  | String c r =>
      if is_linebreak c then
        match r with
        | String c' r' =>
            if (code c =? 13) && (code c' =? 10)
            then cur :: splitlines_from "" r'
            else cur :: splitlines_from "" r
        | EmptyString => [cur]
        end
      else splitlines_from (cur +:+ String c "") r
  | EmptyString => if is_empty cur then [] else [cur]
  end.

Definition splitlines (s : string) : list string := splitlines_from "" s.

(** [sep.join(parts)] *)
Fixpoint join (sep : string) (parts : list string) : string :=
  match parts with
  | [] => ""
  | [p] => p
  | p :: ps => p +:+ sep +:+ join sep ps
  end.

(** *** Decimal numerals *)

Definition digit_val (c : ascii) : option Z :=
  let n := code c in
  if (48 <=? n) && (n <=? 57) then Some (n - 48) else None.

Definition digit_char (d : Z) : ascii := Ascii.ascii_of_N (Z.to_N (48 + d)).

(** The digits of [n >= 0], most significant first, in front of [acc]. *)
Fixpoint dec_digits (fuel : nat) (n : Z) (acc : string) : string :=
  let acc' := String (digit_char (n mod 10)) acc in
  match fuel with
  | O => acc'
  | S f => if n <? 10 then acc' else dec_digits f (n / 10) acc'
  end.

Definition str_of_nat (n : Z) : string :=
  dec_digits (Z.to_nat (Z.log2 n)) n "".

(** [str(z)] for an [int]. (The interpreter's configurable cap on the
    number of digits is not modelled.) *)
Definition str_of_int (z : Z) : string :=
  if z <? 0 then String "-" (str_of_nat (- z)) else str_of_nat z.

(** Exactly [p] digits of [n], most significant first. *)
Fixpoint fixed_digits (p : nat) (n : Z) : string :=
  match p with
  | O => ""
  | S p' => fixed_digits p' (n / 10) +:+ String (digit_char (n mod 10)) ""
  end.

(** The grammar [digit (["_"] digit)*], once its first digit is read:
    value so far, digits so far, and what is left unread. *)
Fixpoint digits_tail (acc : Z) (cnt : nat) (s : string) : Z * nat * string :=
  match s with
  | String c r =>
      match digit_val c with
      | Some d => digits_tail (10 * acc + d) (S cnt) r
      | None =>
          if code c =? 95 then
            match r with
            | String c' r' =>
                match digit_val c' with
                | Some d => digits_tail (10 * acc + d) (S cnt) r'
                | None => (acc, cnt, s)
                end
            | EmptyString => (acc, cnt, s)
            end
          else (acc, cnt, s)
      end
  | EmptyString => (acc, cnt, s)
  end.

Definition digitpart (s : string) : option (Z * nat * string) :=
  match s with
  | String c r =>
      match digit_val c with
      | Some d => Some (digits_tail d 1 r)
      | None => None
      end
  | EmptyString => None
  end.

(** An optional sign: [true] for "-". *)
Definition read_sign (s : string) : bool * string :=
  match s with
  | String c r =>
      if code c =? 45 then (true, r)
      else if code c =? 43 then (false, r)
      else (false, s)
  | EmptyString => (false, s)
  end.

(** [int(s)] for a [str], base ten. *)
Definition int_of_string (s : string) : result Z :=
  let '(neg, r) := read_sign (strip_with is_numeric_space s) in
  match digitpart r with
  | Some (n, _, EmptyString) => Ok (if neg then - n else n)
  | _ => Raise ValueError
  end.

Definition lower (c : ascii) : ascii :=
  let n := code c in
  if (65 <=? n) && (n <=? 90) then Ascii.ascii_of_N (Z.to_N (n + 32)) else c.

Fixpoint lowercase (s : string) : string :=
  match s with
  | String c r => String (lower c) (lowercase r)
  | EmptyString => EmptyString
  end.

(** The double written [±n·10^e10]. *)
Definition decimal_to_sf (neg : bool) (n : Z) (e10 : Z) : spec_float :=
  match n with
  | Zpos p =>
      if 0 <=? e10
      then nearest_sf neg (p * Z.to_pos (10 ^ e10)) 1
      else nearest_sf neg p (Z.to_pos (10 ^ (- e10)))
  | _ => S754_zero neg
  end.

(** [exponent ::= ("e" | "E") [sign] digitpart], then the end of the text. *)
Definition read_exponent (s : string) : option Z :=
  match s with
  | EmptyString => Some 0
  | String c r =>
      if (code c =? 101) || (code c =? 69) then
        let '(neg, r') := read_sign r in
        match digitpart r' with
        | Some (e, _, EmptyString) => Some (if neg then - e else e)
        | _ => None
        end
      else None
  end.

(** [number ::= [digitpart] "." digitpart | digitpart ["."]] followed by
    the exponent: the integer [n] of all digits and the power of ten. *)
Definition read_number (s : string) : option (Z * Z) :=
  match digitpart s with
  | Some (i, _, r1) =>
      match r1 with
      | String c r2 =>
          if code c =? 46 then
            match digitpart r2 with
            | Some (f, cnt, r3) =>
                match read_exponent r3 with
                | Some e => Some (i * 10 ^ Z.of_nat cnt + f, e - Z.of_nat cnt)
                | None => None
                end
            | None =>
                match read_exponent r2 with
                | Some e => Some (i, e)
                | None => None
                end
            end
          else
            match read_exponent r1 with
            | Some e => Some (i, e)
            | None => None
            end
      | EmptyString => Some (i, 0)
      end
  | None =>
      match s with
      | String c r2 =>
          if code c =? 46 then
            match digitpart r2 with
            | Some (f, cnt, r3) =>
                match read_exponent r3 with
                | Some e => Some (f, e - Z.of_nat cnt)
                | None => None
                end
            | None => None
            end
          else None
      | EmptyString => None
      end
  end.

(** [float(s)] for a [str]. *)
Definition sf_of_string (s : string) : result spec_float :=
  let '(neg, r) := read_sign (strip_with is_numeric_space s) in
  let l := lowercase r in
  if String.eqb l "inf" || String.eqb l "infinity" then Ok (S754_infinity neg)
  else if String.eqb l "nan" then Ok S754_nan
  else
    match read_number r with
    | Some (n, e10) => Ok (decimal_to_sf neg n e10)
    | None => Raise ValueError
    end.

Definition float_of_string (s : string) : result float :=
  match sf_of_string s with
  | Ok x => Ok (SF2Prim x)
  | Raise e => Raise e
  end.

(** [format(x, ".<p>f")] for a [float]: the exact binary value rounded to
    [p] decimals, ties to even. *)
Definition scaled_round (p : nat) (m : positive) (e : Z) : Z :=
  if 0 <=? e then Zpos m * 2 ^ e * 10 ^ Z.of_nat p
  else div_half_even (Zpos m * 10 ^ Z.of_nat p) (2 ^ (- e)).

Definition fixed_text (neg : bool) (p : nat) (n : Z) : string :=
  (if neg then "-" else "") +:+ str_of_nat (n / 10 ^ Z.of_nat p)
  +:+ (match p with O => "" | S _ => "." +:+ fixed_digits p (n mod 10 ^ Z.of_nat p) end).

Definition format_sf (p : nat) (x : spec_float) : string :=
  match x with
  | S754_nan => "nan"
  | S754_infinity s => if s then "-inf" else "inf"
  | S754_zero s => fixed_text s p 0
  | S754_finite s m e => fixed_text s p (scaled_round p m e)
  end.

Definition format_float (p : nat) (x : float) : string := format_sf p (Prim2SF x).

Definition nl : string := String (Ascii.ascii_of_N 10) "".
Definition ch (n : N) : string := String (Ascii.ascii_of_N n) "".

(** ** Python values *)

#[warnings="-register-all"]
Inductive value : Type :=
| VNone
| VInt (z : Z)
| VFloat (f : float)
| VStr (s : string)
| VList (l : list value).

(** An annotation record: a [dict] with string keys. *)
Abbreviation record := (gmap string value).

(** An argument that is a Python number. *)
Inductive number : Type :=
| NInt (z : Z)
| NFloat (f : float).

(** The two printers of the interpreter that the model leaves open:
    [repr] of a [float] (shortest text that reads back) and of a [str]
    (quoted and escaped). *)
Class Repr := {
  float_repr : float -> string;
  str_repr : string -> string;
}.

Fixpoint py_repr `{Repr} (v : value) : string :=
  match v with
  | VNone => "None"
  | VInt z => str_of_int z
  | VFloat f => float_repr f
  | VStr s => str_repr s
  | VList l => "[" +:+ join ", " (map py_repr l) +:+ "]"
  end.

(** [str(v)] *)
Definition py_str `{Repr} (v : value) : string :=
  match v with
  | VStr s => s
  | _ => py_repr v
  end.

(** [len(v)] *)
Definition py_len (v : value) : result nat :=
  match v with
  | VStr s => Ok (String.length s)
  | VList l => Ok (length l)
  | _ => Raise TypeError
  end.

Fixpoint chars (s : string) : list value :=
  match s with
  | String c r => VStr (String c "") :: chars r
  | EmptyString => []
  end.

(** [v[i]] for a non-negative index. *)
Definition py_getitem (v : value) (i : nat) : result value :=
  match v with
  | VList l => match l !! i with Some x => Ok x | None => Raise IndexError end
  | VStr s => match chars s !! i with Some x => Ok x | None => Raise IndexError end
  | _ => Raise TypeError
  end.

(** [a, b, c, d = v] *)
Definition unpack4 (v : value) : result (value * value * value * value) :=
  match v with
  | VList l =>
      match l with
      | [a; b; c; d] => Ok (a, b, c, d)
      | _ => Raise ValueError
      end
  | VStr s =>
      match chars s with
      | [a; b; c; d] => Ok (a, b, c, d)
      | _ => Raise ValueError
      end
  | _ => Raise TypeError
  end.

(** [x * s] for a [float] [s]. *)
Definition mul_float (x : value) (s : float) : result float :=
  match x with
  | VFloat f => Ok (f * s)%float
  | VInt z =>
      match float_of_int z with
      | Ok f => Ok (f * s)%float
      | Raise e => Raise e
      end
  | _ => Raise TypeError
  end.

(** [f + o] for a [float] [f] and a number [o]. *)
Definition add_number (f : float) (o : number) : result float :=
  match o with
  | NFloat g => Ok (f + g)%float
  | NInt z =>
      match float_of_int z with
      | Ok g => Ok (f + g)%float
      | Raise e => Raise e
      end
  end.

(** [x * scale + offset] *)
Definition affine (x : value) (scale : float) (offset : number) : result float :=
  match mul_float x scale with
  | Ok m => add_number m offset
  | Raise e => Raise e
  end.

(** [min(a, b)] on floats: the first of the smallest. *)
Definition float_min (a b : float) : float := if (b <? a)%float then b else a.

(** [format(v, ".<p>f")] *)
Definition format_value (p : nat) (v : value) : result string :=
  match v with
  | VFloat f => Ok (format_float p f)
  | VInt z =>
      match float_of_int z with
      | Ok f => Ok (format_float p f)
      | Raise e => Raise e
      end
  | VStr _ => Raise ValueError
  | VNone | VList _ => Raise TypeError
  end.

(** ** The file system seen through [pathlib] *)

Abbreviation path := (list string).

Inductive node : Type :=
| Dir (writable : bool)
| File (readable writable : bool) (text : string).

Abbreviation filesystem := (gmap (list string) node).

Definition parent (p : path) : path := removelast p.

Definition path_exists (fs : filesystem) (p : path) : bool :=
  match fs !! p with Some _ => true | None => false end.

Definition is_dir (fs : filesystem) (p : path) : bool :=
  match fs !! p with Some (Dir _) => true | _ => false end.

(** [p.read_text()] *)
Definition read_text (fs : filesystem) (p : path) : result string :=
  match fs !! p with
  | Some (File true _ t) => Ok t
  | Some (File false _ _) => Raise PermissionError
  | Some (Dir _) => Raise IsADirectoryError
  | None => Raise FileNotFoundError
  end.

(** [os.mkdir(d)] *)
Definition os_mkdir (fs : filesystem) (d : path) : result filesystem :=
  match fs !! d with
  | Some _ => Raise FileExistsError
  | None =>
      match fs !! parent d with
      | None => Raise FileNotFoundError
      | Some (File _ _ _) => Raise NotADirectoryError
      | Some (Dir false) => Raise PermissionError
      | Some (Dir true) => Ok (<[d := Dir true]> fs)
      end
  end.

(** [d.mkdir(parents=False, exist_ok=True)] *)
Definition mkdir_exist_ok (fs : filesystem) (d : path) : result filesystem :=
  match os_mkdir fs d with
  | Ok fs' => Ok fs'
  | Raise e => if is_dir fs d then Ok fs else Raise e
  end.

(** [d.mkdir(parents=True, exist_ok=True)]; [fuel] bounds the climb to
    the root. *)
Fixpoint mkdir_parents (fuel : nat) (fs : filesystem) (d : path) : result filesystem :=
  match os_mkdir fs d with
  | Ok fs' => Ok fs'
  | Raise FileNotFoundError =>
      match fuel with
      | O => Raise FileNotFoundError
      | S n =>
          match mkdir_parents n fs (parent d) with
          | Ok fs' => mkdir_exist_ok fs' d
          | Raise e => Raise e
          end
      end
  | Raise e => if is_dir fs d then Ok fs else Raise e
  end.

(** [p.open("w")]: the file is created or truncated. *)
Definition open_w (fs : filesystem) (p : path) : result filesystem :=
  match fs !! p with
  | Some (Dir _) => Raise IsADirectoryError
  | Some (File _ false _) => Raise PermissionError
  | Some (File r true _) => Ok (<[p := File r true ""]> fs)
  | None =>
      match fs !! parent p with
      | Some (Dir true) => Ok (<[p := File true true ""]> fs)
      | Some (Dir false) => Raise PermissionError
      | Some (File _ _ _) => Raise NotADirectoryError
      | None => Raise FileNotFoundError
      end
  end.

(** [f.write(s)] on the file opened at [p]. *)
Definition append_text (fs : filesystem) (p : path) (s : string) : filesystem :=
  match fs !! p with
  | Some (File r w t) => <[p := File r w (t +:+ s)]> fs
  | _ => fs
  end.

(** ** The logger and the monad of effects *)

Inductive level : Type := DEBUG | INFO | WARNING | ERROR.

(** One constructor per logging call of the two modules. *)
Inductive message : Type :=
| InvalidScaleFactors (scale_x scale_y : float)
| ObjectMissingBoundingBox (i : nat)
| ErrorScalingObject (i : nat) (e : exn)
| InvalidInputImage
| ErrorDuringStretching (e : exn)
| ErrorDuringLetterboxing (e : exn)
| LoadingLabels (p : path)
| FileNotFound (p : path)
| FoundLines (n : nat)
| LineTooShort (line_num : nat) (fields : nat)
| ErrorParsingLine (line_num : nat) (e : exn)
| ErrorReadingFile (e : exn)
| LoadedObjects (n : nat)
| WritingObjects (n : nat) (p : path)
| ObjectMissingFields (i : nat) (missing : list string)
| BoundingBoxSize (i : nat)
| DimensionsSize (i : nat)
| LocationSize (i : nat)
| InvalidDataStructure (i : nat)
| ErrorWritingObject (i : nat) (e : exn)
| WroteObjects (n : nat)
| ErrorWritingFile (e : exn).

Record world : Type := World {
  logs : list (level * message);
  disk : filesystem;
}.

Definition M (A : Type) : Type := world -> result A * world.

Definition ret {A} (a : A) : M A := fun w => (Ok a, w).

Definition raise {A} (e : exn) : M A := fun w => (Raise e, w).

Definition bind {A B} (m : M A) (k : A -> M B) : M B :=
  fun w =>
    match m w with
    | (Ok a, w') => k a w'
    | (Raise e, w') => (Raise e, w')
    end.

Notation "x <- m ;; k" := (bind m (fun x => k))
  (at level 100, m at next level, right associativity).
Notation "m ;;; k" := (bind m (fun _ => k))
  (at level 100, right associativity).

Definition lift {A} (r : result A) : M A := fun w => (r, w).

Definition logging (l : level) (m : message) : M unit :=
  fun w => (Ok tt, World (logs w ++ [(l, m)]) (disk w)).

(** [try: body except <handles>: handler] *)
Definition try_except {A} (body : M A) (handles : exn -> bool) (handler : exn -> M A) : M A :=
  fun w =>
    match body w with
    | (Ok a, w') => (Ok a, w')
    | (Raise e, w') => if handles e then handler e w' else (Raise e, w')
    end.

(** [for i, x in enumerate(l, start): s = body i x s] *)
Fixpoint for_enumerate {A S} (body : nat -> A -> S -> M S) (start : nat) (l : list A) (s : S) : M S :=
  match l with
  | [] => ret s
  | x :: r => s' <- body start x s ;; for_enumerate body (Datatypes.S start) r s'
  end.

Definition get_disk : M filesystem := fun w => (Ok (disk w), w).

Definition set_disk (fs : filesystem) : M unit := fun w => (Ok tt, World (logs w) fs).

(** ** Results and dictionaries *)

Definition rbind {A B} (r : result A) (k : A -> result B) : result B :=
  match r with
  | Ok a => k a
  | Raise e => Raise e
  end.

Notation "x <~ r ;; k" := (rbind r (fun x => k))
  (at level 100, r at next level, right associativity).

Definition has_key (obj : record) (k : string) : bool :=
  match obj !! k with Some _ => true | None => false end.

(** [obj[k]] *)
Definition item (obj : record) (k : string) : result value :=
  match obj !! k with
  | Some v => Ok v
  | None => Raise KeyError
  end.

(** ** [resize/transform.py] *)

Definition bounding_box : string := "bounding_box".

(** The statements of the [try] block of [scale_objects] that can raise:
    copy the object, unpack its box, transform it, store it. *)
Definition scale_one (obj : record) (scale_x scale_y : float) (offset_x offset_y : number)
    : result record :=
  let scaled_obj := obj in
  bb <~ item obj bounding_box ;;
  xyxy <~ unpack4 bb ;;
  let '(x1, y1, x2, y2) := xyxy in
  nx1 <~ affine x1 scale_x offset_x ;;
  ny1 <~ affine y1 scale_y offset_y ;;
  nx2 <~ affine x2 scale_x offset_x ;;
  ny2 <~ affine y2 scale_y offset_y ;;
  Ok (<[bounding_box := VList [VFloat nx1; VFloat ny1; VFloat nx2; VFloat ny2]]> scaled_obj).

(** The body of the [for] loop of [scale_objects]. *)
Definition scale_step (scale_x scale_y : float) (offset_x offset_y : number)
    (i : nat) (obj : record) (scaled_objects : list record) : M (list record) :=
  if negb (has_key obj bounding_box) then
    logging WARNING (ObjectMissingBoundingBox i) ;;;
    ret scaled_objects
  else
    try_except
      (scaled_obj <- lift (scale_one obj scale_x scale_y offset_x offset_y) ;;
       ret (scaled_objects ++ [scaled_obj]))
      (fun e => match e with ValueError | TypeError => true | _ => false end)
      (fun e => logging WARNING (ErrorScalingObject i e) ;;; ret scaled_objects).

Definition scale_objects (objects : list record) (scale_x scale_y : float)
    (offset_x offset_y : number) : M (list record) :=
  if (scale_x <=? 0)%float || (scale_y <=? 0)%float then
    logging WARNING (InvalidScaleFactors scale_x scale_y) ;;;
    ret objects
  else
    for_enumerate (scale_step scale_x scale_y offset_x offset_y) 0 objects [].

(** What the code asks of [numpy] and [cv2]. An image is an [ndarray] or
    [None]. *)
Class Imaging := {
  ndarray : Type;
  (** [img.shape] *)
  shape : ndarray -> list Z;
  (** [cv2.resize(img, (width, height), interpolation=...)] *)
  cv2_resize : ndarray -> Z -> Z -> Z -> result ndarray;
  (** [np.full(shape, fill, dtype=np.uint8)] *)
  np_full : list Z -> list Z -> result ndarray;
  (** [canvas[y0:y1, x0:x1] = src] *)
  set_region : ndarray -> Z -> Z -> Z -> Z -> ndarray -> result ndarray;
}.

(** [img.size]: the number of elements. *)
Definition size `{Imaging} (img : ndarray) : Z := fold_right Z.mul 1 (shape img).

(** [h, w = img.shape[:2]] *)
Definition height_width `{Imaging} (img : ndarray) : result (Z * Z) :=
  match shape img with
  | h :: w :: _ => Ok (h, w)
  | _ => Raise ValueError
  end.

Definition invalid_image `{Imaging} (img : option ndarray) : bool :=
  match img with
  | None => true
  | Some a => size a =? 0
  end.

Definition INTER_LINEAR : Z := 1.

Definition apply_stretch `{Imaging} (img : option ndarray) (objects : list record)
    (new_w new_h : Z) (interpolation : Z) : M (option ndarray * list record) :=
  match img with
  | None => logging ERROR InvalidInputImage ;;; ret (img, objects)
  | Some a =>
      if size a =? 0 then logging ERROR InvalidInputImage ;;; ret (img, objects)
      else
        hw <- lift (height_width a) ;;
        let '(h, w) := hw in
        scale_x <- lift (int_truediv new_w w) ;;
        scale_y <- lift (int_truediv new_h h) ;;
        try_except
          (resized_img <- lift (cv2_resize a new_w new_h interpolation) ;;
           scaled_objects <- scale_objects objects scale_x scale_y (NFloat 0) (NFloat 0) ;;
           ret (Some resized_img, scaled_objects))
          (fun _ => true)
          (fun e => logging ERROR (ErrorDuringStretching e) ;;; ret (img, objects))
  end.

(** [int(w * scale)] with [w] an [int] and [scale] a [float]. *)
Definition scaled_size (w : Z) (scale : float) : result Z :=
  match float_of_int w with
  | Ok fw => int_of_float (fw * scale)%float
  | Raise e => Raise e
  end.

Definition default_color : Z * Z * Z := (114, 114, 114).

Definition apply_letterbox `{Imaging} (img : option ndarray) (objects : list record)
    (new_w new_h : Z) (color : Z * Z * Z) (interpolation : Z)
    : M (option ndarray * list record) :=
  match img with
  | None => logging ERROR InvalidInputImage ;;; ret (img, objects)
  | Some a =>
      if size a =? 0 then logging ERROR InvalidInputImage ;;; ret (img, objects)
      else
        hw <- lift (height_width a) ;;
        let '(h, w) := hw in
        rx <- lift (int_truediv new_w w) ;;
        ry <- lift (int_truediv new_h h) ;;
        let scale := float_min rx ry in
        scaled_w <- lift (scaled_size w scale) ;;
        scaled_h <- lift (scaled_size h scale) ;;
        let pad_x := (new_w - scaled_w) / 2 in
        let pad_y := (new_h - scaled_h) / 2 in
        try_except
          (img_resized <- lift (cv2_resize a scaled_w scaled_h interpolation) ;;
           canvas <- lift (if (length (shape a) =? 3)%nat
                           then np_full [new_h; new_w; 3] [color.1.1; color.1.2; color.2]
                           else np_full [new_h; new_w] [color.1.1]) ;;
           canvas <- lift (set_region canvas pad_y (pad_y + scaled_h) pad_x (pad_x + scaled_w)
                             img_resized) ;;
           scaled_objects <- scale_objects objects scale scale (NInt pad_x) (NInt pad_y) ;;
           ret (Some canvas, scaled_objects))
          (fun _ => true)
          (fun e => logging ERROR (ErrorDuringLetterboxing e) ;;; ret (img, objects))
  end.

(** ** [resize/kitti.py] *)

(** [parts[i]] *)
Definition part (parts : list string) (i : nat) : result string :=
  match parts !! i with
  | Some s => Ok s
  | None => Raise IndexError
  end.

(** [float(parts[i])] *)
Definition float_part (parts : list string) (i : nat) : result value :=
  s <~ part parts i ;;
  f <~ float_of_string s ;;
  Ok (VFloat f).

(** [int(parts[i])] *)
Definition int_part (parts : list string) (i : nat) : result value :=
  s <~ part parts i ;;
  z <~ int_of_string s ;;
  Ok (VInt z).

(** [float(parts[15]) if len(parts) > 15 else None] *)
Definition score_part (parts : list string) : result value :=
  if (15 <? length parts)%nat then float_part parts 15 else Ok VNone.

(** The dictionary display of [load_kitti_labels], its entries evaluated
    in the order they are written. *)
Definition parse_parts (parts : list string) : result record :=
  class_name <~ part parts 0 ;;
  truncation <~ float_part parts 1 ;;
  occlusion <~ int_part parts 2 ;;
  alpha <~ float_part parts 3 ;;
  bb0 <~ float_part parts 4 ;;
  bb1 <~ float_part parts 5 ;;
  bb2 <~ float_part parts 6 ;;
  bb3 <~ float_part parts 7 ;;
  d0 <~ float_part parts 8 ;;
  d1 <~ float_part parts 9 ;;
  d2 <~ float_part parts 10 ;;
  l0 <~ float_part parts 11 ;;
  l1 <~ float_part parts 12 ;;
  l2 <~ float_part parts 13 ;;
  rotation_y <~ float_part parts 14 ;;
  score <~ score_part parts ;;
  Ok (<["class_name" := VStr class_name]>
      (<["truncation" := truncation]>
      (<["occlusion" := occlusion]>
      (<["alpha" := alpha]>
      (<["bounding_box" := VList [bb0; bb1; bb2; bb3]]>
      (<["3d_dimensions" := VList [d0; d1; d2]]>
      (<["location" := VList [l0; l1; l2]]>
      (<["rotation_y" := rotation_y]>
      (<["score" := score]> (∅ : record)))))))))).

(** The body of the loop over the lines; [line_num] counts from 1. *)
Definition load_step (line_num : nat) (line : string) (objects : list record)
    : M (list record) :=
  let line := strip line in
  if is_empty line then ret objects
  else
    let parts := split line in
    if (length parts <? 15)%nat then
      logging WARNING (LineTooShort line_num (length parts)) ;;;
      ret objects
    else
      try_except
        (obj <- lift (parse_parts parts) ;;
         ret (objects ++ [obj]))
        (fun e => match e with ValueError | IndexError => true | _ => false end)
        (fun e => logging WARNING (ErrorParsingLine line_num e) ;;; ret objects).

(** The [try] block of [load_kitti_labels]; [None] stands for the
    [return []] of its handler. *)
Definition load_lines (label_path : path) : M (option (list record)) :=
  try_except
    (fs <- get_disk ;;
     text <- lift (read_text fs label_path) ;;
     let lines := splitlines text in
     logging DEBUG (FoundLines (length lines)) ;;;
     objects <- for_enumerate load_step 1 lines [] ;;
     ret (Some objects))
    (fun _ => true)
    (fun e => logging ERROR (ErrorReadingFile e) ;;; ret None).

Definition load_kitti_labels (label_path : path) : M (list record) :=
  logging DEBUG (LoadingLabels label_path) ;;;
  fs <- get_disk ;;
  if negb (path_exists fs label_path) then
    logging DEBUG (FileNotFound label_path) ;;;
    ret []
  else
    r <- load_lines label_path ;;
    match r with
    | None => ret []
    | Some objects =>
        logging DEBUG (LoadedObjects (length objects)) ;;;
        ret objects
    end.

Definition required_fields : list string :=
  ["class_name"; "truncation"; "occlusion"; "alpha"; "bounding_box";
   "3d_dimensions"; "location"; "rotation_y"].

(** The three length tests, in order: the warning of the first that
    fails, if any. *)
Definition check_sizes (obj : record) : result (option (nat -> message)) :=
  bb <~ item obj "bounding_box" ;;
  n <~ py_len bb ;;
  if negb (n =? 4)%nat then Ok (Some BoundingBoxSize)
  else
    dims <~ item obj "3d_dimensions" ;;
    n <~ py_len dims ;;
    if negb (n =? 3)%nat then Ok (Some DimensionsSize)
    else
      loc <~ item obj "location" ;;
      n <~ py_len loc ;;
      if negb (n =? 3)%nat then Ok (Some LocationSize)
      else Ok None.

(** [f"{obj[k][i]:.<p>f}"] *)
Definition format_item (obj : record) (k : string) (i : nat) (p : nat) : result string :=
  v <~ item obj k ;;
  x <~ py_getitem v i ;;
  format_value p x.

(** [f"{obj[k]:.<p>f}"] *)
Definition format_field (obj : record) (k : string) (p : nat) : result string :=
  v <~ item obj k ;;
  format_value p v.

(** [str(obj[k])] *)
Definition str_field `{Repr} (obj : record) (k : string) : result string :=
  v <~ item obj k ;;
  Ok (py_str v).

(** The text of one record: [line_parts], the optional score, the join. *)
Definition build_line `{Repr} (obj : record) : result string :=
  p0 <~ str_field obj "class_name" ;;
  p1 <~ format_field obj "truncation" 2 ;;
  p2 <~ str_field obj "occlusion" ;;
  p3 <~ format_field obj "alpha" 6 ;;
  p4 <~ format_item obj "bounding_box" 0 2 ;;
  p5 <~ format_item obj "bounding_box" 1 2 ;;
  p6 <~ format_item obj "bounding_box" 2 2 ;;
  p7 <~ format_item obj "bounding_box" 3 2 ;;
  p8 <~ format_item obj "3d_dimensions" 0 2 ;;
  p9 <~ format_item obj "3d_dimensions" 1 2 ;;
  p10 <~ format_item obj "3d_dimensions" 2 2 ;;
  p11 <~ format_item obj "location" 0 2 ;;
  p12 <~ format_item obj "location" 1 2 ;;
  p13 <~ format_item obj "location" 2 2 ;;
  p14 <~ format_field obj "rotation_y" 6 ;;
  let line_parts := [p0; p1; p2; p3; p4; p5; p6; p7; p8; p9; p10; p11; p12; p13; p14] in
  line_parts <~ (match obj !! "score" with
                 | None | Some VNone => Ok line_parts
                 | Some _ => s <~ format_field obj "score" 4 ;; Ok (line_parts ++ [s])
                 end) ;;
  Ok (join " " line_parts +:+ nl).

(** The body of the loop of [write_kitti_labels]; the state is
    [written_objects]. *)
Definition write_step `{Repr} (label_path : path) (i : nat) (obj : record)
    (written_objects : nat) : M nat :=
  let missing_fields := List.filter (fun field => negb (has_key obj field)) required_fields in
  if negb (length missing_fields =? 0)%nat then
    logging WARNING (ObjectMissingFields i missing_fields) ;;;
    ret written_objects
  else
    sized <- try_except
      (c <- lift (check_sizes obj) ;;
       match c with
       | Some warning => logging WARNING (warning i) ;;; ret false
       | None => ret true
       end)
      (fun e => match e with TypeError | KeyError => true | _ => false end)
      (fun _ => logging WARNING (InvalidDataStructure i) ;;; ret false) ;;
    if negb sized then ret written_objects
    else
      try_except
        (line <- lift (build_line obj) ;;
         fs <- get_disk ;;
         set_disk (append_text fs label_path line) ;;;
         ret (S written_objects))
        (fun _ => true)
        (fun e => logging WARNING (ErrorWritingObject i e) ;;; ret written_objects).

Definition write_kitti_labels `{Repr} (label_path : path) (objects : list record) : M bool :=
  logging DEBUG (WritingObjects (length objects) label_path) ;;;
  fs <- get_disk ;;
  fs <- lift (mkdir_parents (length (parent label_path)) fs (parent label_path)) ;;
  set_disk fs ;;;
  try_except
    (fs <- get_disk ;;
     fs <- lift (open_w fs label_path) ;;
     set_disk fs ;;;
     written_objects <- for_enumerate (write_step label_path) 0 objects 0%nat ;;
     logging DEBUG (WroteObjects written_objects) ;;;
     ret true)
    (fun _ => true)
    (fun e => logging ERROR (ErrorWritingFile e) ;;; ret false).

(** ** [resize/cli.py]

    [main] as a function of the parsed arguments ([get_args] is
    [argparse]). Its log is the one stream of the process: the entries of
    the library functions it calls and its own, in the order they are
    made. [tqdm] only draws a progress bar around the list it is given and
    [perf_counter] only feeds the duration written in one message; neither
    is modelled. *)

(** The keys of [MODES]. *)
Inductive transform_mode : Type := stretch | letterbox.

(** The namespace [get_args] returns; [--size] takes exactly two [int]s
    and [--mode] one of the keys of [MODES]. *)
Record namespace : Type := Namespace {
  in_img : path;
  in_lbl : path;
  out : path;
  args_size : Z * Z;
  mode : transform_mode;
  img_ext : string;
}.

(** One constructor per logging call of [main]. *)
Inductive cli_message : Type :=
| StartingProcess
| ImagesDirectoryNotFound (p : path)
| LabelsDirectoryNotFound (p : path)
| UsingMode (m : transform_mode) (new_w new_h : Z)
| NoImagesFound (ext : string)
| FoundImages (n : nat)
| CreatedOutputDirectories (p : path)
| CouldNotLoadImage (name : string)
| LoadedObjectsFrom (n : nat) (name : string)
| FailedToSaveImage (name : string)
| FailedToSaveLabels (stem : string)
| SuccessfullyProcessed (name : string)
| ErrorProcessing (name : string) (e : exn)
| ProcessingCompleted
| ProcessedImages (processed total : nat)
| EncounteredErrors (errors : nat)
| AllImagesProcessed.

Inductive entry : Type :=
| Library (l : level) (m : message)
| Script (l : level) (m : cli_message).

Record session : Type := Session {
  journal : list entry;
  files : filesystem;
}.

Definition C (A : Type) : Type := session -> result A * session.

Definition cret {A} (a : A) : C A := fun s => (Ok a, s).

Definition cbind {A B} (m : C A) (k : A -> C B) : C B :=
  fun s =>
    match m s with
    | (Ok a, s') => k a s'
    | (Raise e, s') => (Raise e, s')
    end.

Declare Scope cli_scope.
Delimit Scope cli_scope with cli.
Notation "x <- m ;; k" := (cbind m (fun x => k))
  (at level 100, m at next level, right associativity) : cli_scope.
Notation "m ;;; k" := (cbind m (fun _ => k))
  (at level 100, right associativity) : cli_scope.

Definition clift {A} (r : result A) : C A := fun s => (r, s).

(** [logging.<level>(...)] in [main]. *)
Definition say (l : level) (m : cli_message) : C unit :=
  fun s => (Ok tt, Session (journal s ++ [Script l m]) (files s)).

(** A call of a library function: it works on the disk of the session,
    and what it logs goes to the journal. *)
Definition library {A} (m : M A) : C A :=
  fun s =>
    let '(r, w) := m (World [] (files s)) in
    (r, Session (journal s ++ map (fun e => Library e.1 e.2) (logs w)) (disk w)).

Definition ctry {A} (body : C A) (handles : exn -> bool) (handler : exn -> C A) : C A :=
  fun s =>
    match body s with
    | (Ok a, s') => (Ok a, s')
    | (Raise e, s') => if handles e then handler e s' else (Raise e, s')
    end.

(** [for x in l: st = body x st] *)
Fixpoint for_each {A S} (body : A -> S -> C S) (l : list A) (st : S) : C S :=
  match l with
  | [] => cret st
  | x :: r => cbind (body x st) (for_each body r)
  end.

Definition get_files : C filesystem := fun s => (Ok (files s), s).

Definition set_files (fs : filesystem) : C unit := fun s => (Ok tt, Session (journal s) fs).

(** What [main] asks of [pathlib.Path.glob], [str.upper] and [cv2]'s
    file functions. *)
Class Platform `{Imaging} := {
  (** [list(d.glob(pattern))] *)
  glob : filesystem -> path -> string -> result (list path);
  (** [s.upper()] *)
  str_upper : string -> string;
  (** [cv2.imread(str(p))]: an array, or [None] when the file does not
      decode *)
  imread : filesystem -> path -> result (option ndarray);
  (** [cv2.imwrite(str(p), img)]: whether the file was written, and the
      disk afterwards *)
  imwrite : filesystem -> path -> ndarray -> result (bool * filesystem);
}.

(** [p.name]: the last component. *)
Definition name (p : path) : string := List.last p "".

(** [s.rfind(".")], counted from [i]. *)
Fixpoint rfind_dot (s : string) (i : nat) : option nat :=
  match s with
  | String c r =>
      match rfind_dot r (S i) with
      | Some j => Some j
      | None => if code c =? 46 then Some i else None
      end
  | EmptyString => None
  end.

(** [p.stem] on the name of [p]: the name without its last suffix, a
    leading or a final dot not counting as the start of a suffix. *)
Definition stem (nm : string) : string :=
  match rfind_dot nm 0 with
  | Some i =>
      if (0 <? i)%nat && (i <? String.length nm - 1)%nat then String.substring 0 i nm else nm
  | None => nm
  end.

(** The order of paths: component by component, each by code points. *)
Fixpoint path_compare (p q : path) : comparison :=
  match p, q with
  | [], [] => Eq
  | [], _ :: _ => Lt
  | _ :: _, [] => Gt
  | a :: p', b :: q' =>
      match String.compare a b with
      | Eq => path_compare p' q'
      | c => c
      end
  end.

Definition path_le (p q : path) : Prop := path_compare p q <> Gt.

#[export] Instance path_le_dec (p q : path) : Decision (path_le p q) :=
  not_dec (decide (path_compare p q = Gt)).

(** [sorted(set(l))] *)
Definition sorted_set (l : list path) : list path := merge_sort path_le (remove_dups l).

(** [MODES[args.mode]] applied with its default arguments. *)
Definition transform_fn `{Imaging} (m : transform_mode) (img : option ndarray)
    (objects : list record) (new_w new_h : Z) : M (option ndarray * list record) :=
  match m with
  | stretch => apply_stretch img objects new_w new_h INTER_LINEAR
  | letterbox => apply_letterbox img objects new_w new_h default_color INTER_LINEAR
  end.

Section Main.
Context `{Platform} `{Repr}.
Local Open Scope cli_scope.

(** The body of the loop over the images; the state is
    [(processed, errors)]. *)
Definition process (args : namespace) (out_imgs out_lbls : path) (img_path : path)
    (counts : nat * nat) : C (nat * nat) :=
  let '(processed, errors) := counts in
  let '(new_w, new_h) := args_size args in
  ctry
    (fs <- get_files ;;
     img <- clift (imread fs img_path) ;;
     match img with
     | None =>
         say WARNING (CouldNotLoadImage (name img_path)) ;;;
         cret (processed, S errors)
     | Some _ =>
         let label_path := in_lbl args ++ [stem (name img_path) +:+ ".txt"] in
         objects <- library (load_kitti_labels label_path) ;;
         say DEBUG (LoadedObjectsFrom (length objects) (name label_path)) ;;;
         r <- library (transform_fn (mode args) img objects new_w new_h) ;;
         let '(img_resized, objects_resized) := r in
         let out_img_path := out_imgs ++ [name img_path] in
         fs <- get_files ;;
         wr <- clift (match img_resized with
                      | Some a => imwrite fs out_img_path a
                      | None => Raise CvError
                      end) ;;
         let '(success, fs') := wr in
         set_files fs' ;;;
         if negb success then
           say WARNING (FailedToSaveImage (name img_path)) ;;;
           cret (processed, S errors)
         else
           let out_lbl_path := out_lbls ++ [stem (name img_path) +:+ ".txt"] in
           ok <- library (write_kitti_labels out_lbl_path objects_resized) ;;
           if negb ok then
             say WARNING (FailedToSaveLabels (stem (name img_path))) ;;;
             cret (processed, S errors)
           else
             say DEBUG (SuccessfullyProcessed (name img_path)) ;;;
             cret (S processed, errors)
     end)
    (fun _ => true)
    (fun e =>
       say ERROR (ErrorProcessing (name img_path) e) ;;;
       cret (processed, S errors)).

(** The images [main] works on: both patterns, without duplicates, in
    order. *)
Definition find_images (args : namespace) (fs : filesystem) : result (list path) :=
  images <~ glob fs (in_img args) ("*." +:+ img_ext args) ;;
  more <~ glob fs (in_img args) ("*." +:+ str_upper (img_ext args)) ;;
  Ok (sorted_set (images ++ more)).

(** [main()], after [get_args()]; the value is the exit code. *)
Definition main (args : namespace) : C Z :=
  say INFO StartingProcess ;;;
  fs <- get_files ;;
  if negb (path_exists fs (in_img args)) then
    say ERROR (ImagesDirectoryNotFound (in_img args)) ;;;
    cret 1
  else if negb (path_exists fs (in_lbl args)) then
    say ERROR (LabelsDirectoryNotFound (in_lbl args)) ;;;
    cret 1
  else
    let out_imgs := out args ++ ["images"] in
    let out_lbls := out args ++ ["labels"] in
    say INFO (UsingMode (mode args) (args_size args).1 (args_size args).2) ;;;
    images <- clift (find_images args fs) ;;
    if (length images =? 0)%nat then
      say ERROR (NoImagesFound (img_ext args)) ;;;
      cret 1
    else
      say INFO (FoundImages (length images)) ;;;
      fs <- clift (mkdir_parents (length out_imgs) fs out_imgs) ;;
      set_files fs ;;;
      fs <- clift (mkdir_parents (length out_lbls) fs out_lbls) ;;
      set_files fs ;;;
      say INFO (CreatedOutputDirectories (out args)) ;;;
      counts <- for_each (process args out_imgs out_lbls) images (0%nat, 0%nat) ;;
      let '(processed, errors) := counts in
      say INFO ProcessingCompleted ;;;
      say INFO (ProcessedImages processed (length images)) ;;;
      if (0 <? errors)%nat then
        say WARNING (EncounteredErrors errors) ;;;
        cret 1
      else
        say INFO AllImagesProcessed ;;;
        cret 0.

End Main.

(** ** The specification's vocabulary *)

(** A coordinate the affine map accepts: a [float], or an [int] that
    converts to one. *)
Definition is_number (v : value) : bool :=
  match v with
  | VFloat _ => true
  | VInt z => is_ok (float_of_int z)
  | _ => false
  end.

Definition number_ok (o : number) : bool :=
  match o with
  | NFloat _ => true
  | NInt z => is_ok (float_of_int z)
  end.

(** A bounding box of exactly four numbers. *)
Definition numeric_box (v : value) : bool :=
  match v with
  | VList [a; b; c; d] => is_number a && is_number b && is_number c && is_number d
  | _ => false
  end.

(** A record is well formed when its box, if it has one, is numeric. *)
Definition well_formed (obj : record) : bool :=
  match obj !! bounding_box with
  | Some bb => numeric_box bb
  | None => true
  end.

(** BoxTransform of the specification on one box:
    [[x1*scale_x+offset_x, y1*scale_y+offset_y, x2*scale_x+offset_x,
    y2*scale_y+offset_y]]. *)
Definition box_transform (scale_x scale_y : float) (offset_x offset_y : number)
    (bb : value) : option value :=
  match bb with
  | VList [x1; y1; x2; y2] =>
      match affine x1 scale_x offset_x, affine y1 scale_y offset_y,
            affine x2 scale_x offset_x, affine y2 scale_y offset_y with
      | Ok a, Ok b, Ok c, Ok d => Some (VList [VFloat a; VFloat b; VFloat c; VFloat d])
      | _, _, _, _ => None
      end
  | _ => None
  end.

(** BoxTransform on a record list: the records that have a box, each with
    its box transformed and nothing else changed. *)
Definition transform_record (scale_x scale_y : float) (offset_x offset_y : number)
    (obj : record) : option record :=
  match obj !! bounding_box with
  | Some bb =>
      match box_transform scale_x scale_y offset_x offset_y bb with
      | Some bb' => Some (<[bounding_box := bb']> obj)
      | None => None
      end
  | None => None
  end.

Definition transform_records (scale_x scale_y : float) (offset_x offset_y : number)
    (objects : list record) : list record :=
  omap (transform_record scale_x scale_y offset_x offset_y) objects.

(** The warnings [scale_objects] logs for the records without a box;
    [i] is the index of the first record. *)
Fixpoint missing_box_warnings (i : nat) (objects : list record) : list (level * message) :=
  match objects with
  | [] => []
  | obj :: rest =>
      (if has_key obj bounding_box then [] else [(WARNING, ObjectMissingBoundingBox i)])
      ++ missing_box_warnings (S i) rest
  end.

Definition log_also (w : world) (entries : list (level * message)) : world :=
  World (logs w ++ entries) (disk w).

(** The letterbox plan in the words of the specification: one scale
    [min(new_w/w, new_h/h)], sizes [floor(w*scale)] and [floor(h*scale)],
    paddings [floor((new_w - scaled_w)/2)] and [floor((new_h - scaled_h)/2)]. *)
Record plan : Type := Plan {
  plan_scale : float;
  plan_scaled_w : Z;
  plan_scaled_h : Z;
  plan_pad_x : Z;
  plan_pad_y : Z;
}.

Definition letterbox_plan (w h new_w new_h : Z) : result plan :=
  rx <~ int_truediv new_w w ;;
  ry <~ int_truediv new_h h ;;
  let scale := float_min rx ry in
  fw <~ float_of_int w ;;
  scaled_w <~ floor_of_float (fw * scale)%float ;;
  fh <~ float_of_int h ;;
  scaled_h <~ floor_of_float (fh * scale)%float ;;
  Ok (Plan scale scaled_w scaled_h ((new_w - scaled_w) / 2) ((new_h - scaled_h) / 2)).

(** [np.full] as [apply_letterbox] calls it: three channels for a
    three-dimensional image, one otherwise. *)
Definition letterbox_canvas `{Imaging} (a : ndarray) (new_w new_h : Z) (color : Z * Z * Z)
    : result ndarray :=
  if (length (shape a) =? 3)%nat
  then np_full [new_h; new_w; 3] [color.1.1; color.1.2; color.2]
  else np_full [new_h; new_w] [color.1.1].

(** A finite double below zero. *)
Definition sf_negative (x : spec_float) : bool :=
  match x with
  | S754_finite true _ _ => true
  | _ => false
  end.






(** What one line of the file contributes: its record, or nothing when
    the line is blank, has fewer than 15 tokens, or holds a token that does
    not read as its number. *)
Definition line_record (line : string) : option record :=
  let parts := split (strip line) in
  if (length parts <? 15)%nat then None
  else
    match parse_parts parts with
    | Ok obj => Some obj
    | Raise _ => None
    end.



(** [obj[k]] is there and has [n] elements. *)
Definition has_len (obj : record) (k : string) (n : nat) : bool :=
  match obj !! k with
  | Some v =>
      match py_len v with
      | Ok m => (m =? n)%nat
      | Raise _ => false
      end
  | None => false
  end.

(** The validation of the serializer: all required fields, a box of four
    elements, dimensions and location of three. *)
Definition valid_record (obj : record) : bool :=
  forallb (has_key obj) required_fields
  && has_len obj "bounding_box" 4
  && has_len obj "3d_dimensions" 3
  && has_len obj "location" 3.

(** The line a record is written as; none when the record fails the
    validation or one of its fields cannot be formatted. *)
Definition record_line `{Repr} (obj : record) : option string :=
  if valid_record obj then
    match build_line obj with
    | Ok line => Some line
    | Raise _ => None
    end
  else None.

Fixpoint concat_lines (lines : list string) : string :=
  match lines with
  | [] => ""
  | l :: rest => l +:+ concat_lines rest
  end.

Definition is_warning (entry : level * message) : bool :=
  match entry.1 with WARNING => true | _ => false end.


Definition is_digit (c : ascii) : bool := (48 <=? code c) && (code c <=? 57).





(** The records of the data model: [class_name] a token, [occlusion] an
    [int], every other required field a [float] or a list of floats of
    its size, and a score that is absent, [None] or a [float]. *)
Definition is_float (v : value) : bool :=
  match v with VFloat _ => true | _ => false end.

Definition float_list (n : nat) (v : value) : bool :=
  match v with
  | VList l => (length l =? n)%nat && forallb is_float l
  | _ => false
  end.

Definition field_is (P : value -> bool) (obj : record) (k : string) : bool :=
  match obj !! k with Some v => P v | None => false end.


Definition no_score (obj : record) : bool :=
  match obj !! "score" with None | Some VNone => true | Some _ => false end.




Definition field (R : value -> value -> Prop) (k : string) (obj obj' : record) : Prop :=
  exists v v', obj !! k = Some v /\ obj' !! k = Some v' /\ R v v'.






(** A disk that has grown toward [d]: every entry is kept as it was, and
    a new entry is a directory on the way to [d]. *)
Definition grown (d : path) (fs fs' : filesystem) : Prop :=
  forall q,
    match fs !! q with
    | Some n => fs' !! q = Some n
    | None => fs' !! q = None \/ (fs' !! q = Some (Dir true) /\ q `prefix_of` d)
    end.

(** An [int] too large for a [float], in a box or as an offset: the one
    thing [scale_objects] does not catch. *)
Definition huge_int (v : value) : bool :=
  match v with
  | VInt z => negb (is_ok (float_of_int z))
  | _ => false
  end.

Definition box_has_huge (obj : record) : bool :=
  match obj !! bounding_box with
  | Some (VList l) => existsb huge_int l
  | _ => false
  end.


(** A line that is not blank. *)
Definition nonblank (line : string) : bool := negb (is_empty (strip line)).

(** The two output directories of [main] can be made. *)
Definition outputs_ready (fs : filesystem) (out_dir : path) : bool :=
  match mkdir_parents (length (out_dir ++ ["images"])) fs (out_dir ++ ["images"]) with
  | Ok fs1 => is_ok (mkdir_parents (length (out_dir ++ ["labels"])) fs1 (out_dir ++ ["labels"]))
  | Raise _ => false
  end.

(** A computation of the library that leaves the disk as it is. *)
Definition keeps_disk {A} (m : M A) : Prop := forall w, disk (m w).2 = disk w.

(** A computation that keeps the entry [n] at [q], whatever it returns
    or raises. *)
Definition keeps_entry {A} (q : path) (n : node) (m : M A) : Prop :=
  forall w, disk w !! q = Some n -> disk (m w).2 !! q = Some n.

(** The same for a computation of [main]. *)
Definition ckeeps_entry {A} (q : path) (n : node) (m : C A) : Prop :=
  forall s, files s !! q = Some n -> files (m s).2 !! q = Some n.

(** [cv2.imwrite] writes its destination and nothing else. *)
Definition imwrite_local `{Platform} : Prop :=
  forall fs p a ok fs',
    imwrite fs p a = Ok (ok, fs') -> forall q, q <> p -> fs' !! q = fs !! q.

(** The magnitude of a finite number: the position of its leading bit. *)
Definition magnitude (x : spec_float) : Z :=
  match x with
  | S754_finite _ m e => Zpos (digits2_pos m) + e
  | _ => -1074
  end.

Definition sf_finite (x : spec_float) : bool :=
  match x with
  | S754_zero _ | S754_finite _ _ _ => true
  | _ => false
  end.

(** ** Sample data *)

(** A stand-in for [numpy] and [cv2] that tracks shapes only: a resize
    needs positive sizes, an assignment needs matching shapes. *)
#[export] Instance shape_only : Imaging := {|
  ndarray := list Z;
  shape := fun a => a;
  cv2_resize := fun a w h _ =>
    if (0 <? w) && (0 <? h) then Ok (h :: w :: drop 2 a) else Raise CvError;
  np_full := fun sh _ =>
    if forallb (fun d => 0 <=? d) sh then Ok sh else Raise ValueError;
  set_region := fun canvas y0 y1 x0 x1 src =>
    match canvas, src with
    | ch :: cw :: crest, sh :: sw :: srest =>
        if (0 <=? y0) && (y1 <=? ch) && (0 <=? x0) && (x1 <=? cw)
           && (y1 - y0 =? sh) && (x1 - x0 =? sw) && bool_decide (crest = srest)
        then Ok canvas else Raise ValueError
    | _, _ => Raise ValueError
    end
|}.

#[export] Instance plain_repr : Repr := {|
  float_repr := fun _ => "<float>";
  str_repr := fun s => "'" +:+ s +:+ "'"
|}.

Definition empty_world : world := World [] ∅.

Definition boxed (a b c d : value) : record :=
  <[bounding_box := VList [a; b; c; d]]> (<["class_name" := VStr "Car"]> ∅).

Definition sample_box : record := boxed (VInt 10) (VInt 10) (VInt 20) (VInt 20).
Definition sample_no_box : record := <["class_name" := VStr "Car"]> ∅.
Definition sample_short_box : record := <[bounding_box := VList [VInt 1; VInt 2; VInt 3]]> ∅.

(** A label file of twenty lines: line 5 has ten tokens, line 12 has a
    word where alpha is expected, the others are well formed. *)
Definition good_line : string :=
  "Car 0.00 0 -1.57 10.5 20.25 30.125 40 1.5 1.6 3.9 1.0 2.0 10.0 1.57".
Definition short_line : string := "Car 0.00 0 -1.57 10.5 20.25 30.125 40 1.5 1.6".
Definition bad_alpha_line : string :=
  "Car 0.00 0 north 10.5 20.25 30.125 40 1.5 1.6 3.9 1.0 2.0 10.0 1.57".

Definition twenty_lines : list string :=
  repeat good_line 4 ++ [short_line] ++ repeat good_line 6 ++ [bad_alpha_line]
  ++ repeat good_line 8.

Definition twenty_text : string := join nl twenty_lines +:+ nl.

Definition labels_path : path := ["data"; "labels"; "000001.txt"].

Definition twenty_disk : filesystem :=
  <[labels_path := File true true twenty_text]>
    (<[["data"; "labels"] := Dir true]> (<[["data"] := Dir true]> (<[[] := Dir true]> ∅))).

(** A complete annotation, and the same with its box given as text. *)
Definition sample_record : record :=
  <["class_name" := VStr "Car"]>
  (<["truncation" := VFloat 0.5]>
  (<["occlusion" := VInt 2]>
  (<["alpha" := VFloat (-1.5)]>
  (<["bounding_box" := VList [VFloat 10.5; VFloat 20.25; VFloat 30.125; VFloat 40]]>
  (<["3d_dimensions" := VList [VFloat 1.5; VFloat 1.625; VFloat 3.75]]>
  (<["location" := VList [VFloat 1; VFloat (-2); VFloat 10]]>
  (<["rotation_y" := VFloat 1.5]> ∅))))))).


Definition sample_two_words : record :=
  <["class_name" := VStr "Traffic Light"]> sample_record.

Definition out_path : path := ["out"; "labels"; "000001.txt"].

(** A disk with nothing but its root, and a file name in the root. *)
Definition root_disk : filesystem := <[[] := Dir true]> ∅.
Definition root_world : world := World [] root_disk.
Definition root_file : path := ["000001.txt"].


Definition sample_huge_box : record := boxed (VInt (2 ^ 1024)) (VInt 10) (VInt 20) (VInt 20).

(** A label file of four lines: a good one, a short one, a blank one and
    one with a score and a column after it. *)
Definition four_text : string :=
  good_line +:+ nl +:+ short_line +:+ nl +:+ "   " +:+ nl
  +:+ good_line +:+ " 0.875 extra" +:+ nl.
Definition four_file : path := ["labels.txt"].
Definition four_disk : filesystem := <[four_file := File true true four_text]> root_disk.
Definition four_world : world := World [] four_disk.

(** A stand-in for the platform: [glob] lists the entries of a directory
    whose name ends like the pattern after its star, [upper] works on
    ASCII letters, a readable file that is not empty decodes to an image of
    2 by 4 pixels, and an image is written wherever the directory exists. *)
Definition ends_with (suffix s : string) : bool :=
  String.eqb (String.substring (String.length s - String.length suffix)
                (String.length suffix) s) suffix.

Definition ascii_upper (c : ascii) : ascii :=
  if (97 <=? code c) && (code c <=? 122) then Ascii.ascii_of_N (Z.to_N (code c - 32)) else c.

Fixpoint uppercase (s : string) : string :=
  match s with
  | String c r => String (ascii_upper c) (uppercase r)
  | EmptyString => EmptyString
  end.

#[export] Instance sample_platform : Platform (H := shape_only) := {|
  glob := fun fs d pattern =>
    Ok (List.filter
          (fun p => bool_decide (parent p = d /\ p <> [])
                    && ends_with (String.substring 1 (String.length pattern - 1) pattern)
                         (name p))
          (map fst (map_to_list fs)));
  str_upper := uppercase;
  imread := fun fs p =>
    match fs !! p with
    | Some (File true _ t) => Ok (if is_empty t then None else Some [2; 4; 3])
    | _ => Ok None
    end;
  imwrite := fun fs p a =>
    if is_dir fs (parent p) then Ok (true, <[p := File true true "image"]> fs)
    else Ok (false, fs)
|}.

(** Two images, one of them damaged, and the labels of the first. *)
Definition photo_disk : filesystem :=
  <[["in"; "a.jpg"] := File true true "pixels"]>
  (<[["in"; "b.JPG"] := File true true ""]>
  (<[["in"] := Dir true]>
  (<[["lbl"; "a.txt"] := File true true (good_line +:+ nl)]>
  (<[["lbl"] := Dir true]> root_disk)))).

Definition photo_session : session := Session [] photo_disk.

Definition photo_args : namespace :=
  Namespace ["in"] ["lbl"] ["out"] (8, 8) letterbox "jpg".

(** * Properties *)

(** Closed goals are settled by evaluating the model. *)
Ltac by_computation :=
  repeat match goal with |- _ /\ _ => split end; vm_compute; reflexivity.

Ltac forall_by_computation :=
  repeat (apply List.Forall_cons; [vm_compute; reflexivity|]); apply List.Forall_nil.

Ltac run := unfold bind, ret, lift, logging, try_except, raise, get_disk, set_disk.

(** ** The guards of [transform.py] *)

(** C7: when [scale_x <= 0] or [scale_y <= 0], [scale_objects] returns the
    whole input list as it is, nothing scaled and nothing dropped, and logs
    one warning. *)
Theorem scale_objects_invalid_scale (objects : list record) (scale_x scale_y : float)
    (offset_x offset_y : number) (w : world) :
  (scale_x <=? 0)%float = true \/ (scale_y <=? 0)%float = true ->
  scale_objects objects scale_x scale_y offset_x offset_y w
  = (Ok objects, log_also w [(WARNING, InvalidScaleFactors scale_x scale_y)]).
Proof.
  intros Hguard. unfold scale_objects.
  assert (Hor : (scale_x <=? 0)%float || (scale_y <=? 0)%float = true).
  { destruct Hguard as [-> | ->]; [reflexivity | apply orb_true_r]. }
  rewrite Hor. reflexivity.
Qed.

Lemma scale_objects_invalid_scale_witness :
  scale_objects [sample_box; sample_no_box] 0 2 (NFloat 0) (NFloat 0) empty_world
  = (Ok [sample_box; sample_no_box],
     log_also empty_world [(WARNING, InvalidScaleFactors 0 2)]).
Proof.
  apply (scale_objects_invalid_scale [sample_box; sample_no_box] 0 2).
  left. reflexivity.
Defined.

(** C8: given a null or empty image, [apply_letterbox] and [apply_stretch]
    return that image and the record list they were given, and raise
    nothing; each logs one error. *)
Theorem invalid_image_passthrough `{Imaging} (img : option ndarray) (objects : list record)
    (new_w new_h : Z) (color : Z * Z * Z) (interpolation : Z) (w : world) :
  invalid_image img = true ->
  apply_letterbox img objects new_w new_h color interpolation w
  = (Ok (img, objects), log_also w [(ERROR, InvalidInputImage)])
  /\ apply_stretch img objects new_w new_h interpolation w
  = (Ok (img, objects), log_also w [(ERROR, InvalidInputImage)]).
Proof.
  intros Hinv. unfold apply_letterbox, apply_stretch.
  destruct img as [a|]; simpl in Hinv.
  - rewrite Hinv. split; reflexivity.
  - split; reflexivity.
Qed.

Lemma invalid_image_passthrough_witness :
  apply_letterbox (H := shape_only) (Some [0; 100; 3]) [sample_box] 200 200
    default_color INTER_LINEAR empty_world
  = (Ok (Some [0; 100; 3], [sample_box]), log_also empty_world [(ERROR, InvalidInputImage)])
  /\ apply_stretch (H := shape_only) (Some [0; 100; 3]) [sample_box] 200 200
       INTER_LINEAR empty_world
  = (Ok (Some [0; 100; 3], [sample_box]), log_also empty_world [(ERROR, InvalidInputImage)]).
Proof.
  apply (invalid_image_passthrough (H := shape_only) (Some [0; 100; 3]) [sample_box] 200 200
           default_color INTER_LINEAR empty_world).
  reflexivity.
Defined.

(** ** Facts about binary64 comparisons *)

Lemma Prim2SF_zero : Prim2SF 0%float = S754_zero false.
Proof. reflexivity. Qed.

Lemma float_pos_not_le0 (x : float) :
  (0 <? x)%float = true -> (x <=? 0)%float = false.
Proof.
  rewrite ltb_spec, leb_spec, Prim2SF_zero.
  destruct (Prim2SF x) as [s | s | | s m e]; unfold SFltb, SFleb; simpl;
    try destruct s; simpl; congruence.
Qed.

(** ** The loop of [scale_objects] *)

Definition caught_scaling (e : exn) : bool :=
  match e with ValueError | TypeError => true | _ => false end.

(** What one turn of the loop does to the list being built. *)
Definition step_result (scale_x scale_y : float) (offset_x offset_y : number)
    (obj : record) (acc : list record) : result (list record) :=
  if negb (has_key obj bounding_box) then Ok acc
  else
    match scale_one obj scale_x scale_y offset_x offset_y with
    | Ok r => Ok (acc ++ [r])
    | Raise e => if caught_scaling e then Ok acc else Raise e
    end.

Fixpoint loop_result (scale_x scale_y : float) (offset_x offset_y : number)
    (objects : list record) (acc : list record) : result (list record) :=
  match objects with
  | [] => Ok acc
  | obj :: rest =>
      match step_result scale_x scale_y offset_x offset_y obj acc with
      | Ok acc' => loop_result scale_x scale_y offset_x offset_y rest acc'
      | Raise e => Raise e
      end
  end.

Lemma log_also_nil (w : world) : log_also w [] = w.
Proof. destruct w. unfold log_also. simpl. rewrite app_nil_r. reflexivity. Qed.

Lemma log_also_app (w : world) (a b : list (level * message)) :
  log_also (log_also w a) b = log_also w (a ++ b).
Proof. unfold log_also. simpl. rewrite app_assoc. reflexivity. Qed.

Lemma for_enumerate_cons {A S} (body : nat -> A -> S -> M S) (i : nat) (x : A)
    (r : list A) (s : S) (w : world) :
  for_enumerate body i (x :: r) s w
  = match body i x s w with
    | (Ok s', w') => for_enumerate body (Datatypes.S i) r s' w'
    | (Raise e, w') => (Raise e, w')
    end.
Proof. reflexivity. Qed.

Lemma for_enumerate_nil {A S} (body : nat -> A -> S -> M S) (i : nat) (s : S) (w : world) :
  for_enumerate body i [] s w = (Ok s, w).
Proof. reflexivity. Qed.

Section ScaleLoop.
Variables (scale_x scale_y : float) (offset_x offset_y : number).

Lemma scale_step_missing (i : nat) (obj : record) (acc : list record) (w : world) :
  has_key obj bounding_box = false ->
  scale_step scale_x scale_y offset_x offset_y i obj acc w
  = (Ok acc, log_also w [(WARNING, ObjectMissingBoundingBox i)]).
Proof. intros Hk. unfold scale_step. rewrite Hk. reflexivity. Qed.

Lemma scale_step_kept (i : nat) (obj r : record) (acc : list record) (w : world) :
  has_key obj bounding_box = true ->
  scale_one obj scale_x scale_y offset_x offset_y = Ok r ->
  scale_step scale_x scale_y offset_x offset_y i obj acc w = (Ok (acc ++ [r]), w).
Proof.
  intros Hk Hone. unfold scale_step. rewrite Hk. simpl. run. rewrite Hone. reflexivity.
Qed.

Lemma scale_step_dropped (i : nat) (obj : record) (e : exn) (acc : list record) (w : world) :
  has_key obj bounding_box = true ->
  scale_one obj scale_x scale_y offset_x offset_y = Raise e ->
  caught_scaling e = true ->
  scale_step scale_x scale_y offset_x offset_y i obj acc w
  = (Ok acc, log_also w [(WARNING, ErrorScalingObject i e)]).
Proof.
  intros Hk Hone Hc. unfold scale_step. rewrite Hk. simpl. run. rewrite Hone.
  destruct e; simpl in Hc; try discriminate; reflexivity.
Qed.

Lemma scale_step_result (i : nat) (obj : record) (acc : list record) (w : world) :
  (scale_step scale_x scale_y offset_x offset_y i obj acc w).1
  = step_result scale_x scale_y offset_x offset_y obj acc.
Proof.
  unfold scale_step, step_result.
  destruct (has_key obj bounding_box); simpl; [|reflexivity].
  run. destruct (scale_one obj scale_x scale_y offset_x offset_y) as [r|e]; [reflexivity|].
  destruct e; reflexivity.
Qed.

Lemma scale_loop_result (objects : list record) :
  forall (i : nat) (acc : list record) (w : world),
  (for_enumerate (scale_step scale_x scale_y offset_x offset_y) i objects acc w).1
  = loop_result scale_x scale_y offset_x offset_y objects acc.
Proof.
  induction objects as [|obj rest IH]; intros i acc w; [reflexivity|].
  rewrite for_enumerate_cons. simpl.
  pose proof (scale_step_result i obj acc w) as Hs.
  destruct (scale_step scale_x scale_y offset_x offset_y i obj acc w) as [[acc'|e] w'];
    simpl in Hs; rewrite <- Hs; [apply IH | reflexivity].
Qed.

Lemma loop_result_app (l1 l2 : list record) :
  forall acc,
  loop_result scale_x scale_y offset_x offset_y (l1 ++ l2) acc
  = match loop_result scale_x scale_y offset_x offset_y l1 acc with
    | Ok acc' => loop_result scale_x scale_y offset_x offset_y l2 acc'
    | Raise e => Raise e
    end.
Proof.
  induction l1 as [|obj rest IH]; intros acc; [reflexivity|].
  simpl. destruct (step_result scale_x scale_y offset_x offset_y obj acc); [apply IH | reflexivity].
Qed.

(** The loop reaches index [length l1] with the log it has built, unless
    an earlier record raised. *)
Lemma scale_loop_app (l1 l2 : list record) :
  forall (i : nat) (acc : list record) (w : world),
  for_enumerate (scale_step scale_x scale_y offset_x offset_y) i (l1 ++ l2) acc w
  = match for_enumerate (scale_step scale_x scale_y offset_x offset_y) i l1 acc w with
    | (Ok acc', w') =>
        for_enumerate (scale_step scale_x scale_y offset_x offset_y) (i + length l1) l2 acc' w'
    | (Raise e, w') => (Raise e, w')
    end.
Proof.
  induction l1 as [|obj rest IH]; intros i acc w.
  - simpl. unfold ret. rewrite Nat.add_0_r. reflexivity.
  - simpl app. rewrite !for_enumerate_cons.
    destruct (scale_step scale_x scale_y offset_x offset_y i obj acc w) as [[acc'|e] w'];
      [|reflexivity].
    rewrite IH. replace (S i + length rest)%nat with (i + S (length rest))%nat by lia.
    reflexivity.
Qed.

(** The logger only grows, and the disk is never touched. *)
Lemma scale_step_log (i : nat) (obj : record) (acc : list record) (w : world) :
  exists entries,
    (scale_step scale_x scale_y offset_x offset_y i obj acc w).2 = log_also w entries.
Proof.
  unfold scale_step. destruct (has_key obj bounding_box); simpl.
  - run. destruct (scale_one obj scale_x scale_y offset_x offset_y) as [r|e].
    + exists []. simpl. rewrite log_also_nil. reflexivity.
    + destruct e; simpl; eauto; exists []; simpl; rewrite log_also_nil; reflexivity.
  - eexists. reflexivity.
Qed.

Lemma scale_loop_log (objects : list record) :
  forall (i : nat) (acc : list record) (w : world),
  exists entries,
    (for_enumerate (scale_step scale_x scale_y offset_x offset_y) i objects acc w).2
    = log_also w entries.
Proof.
  induction objects as [|obj rest IH]; intros i acc w.
  - exists []. simpl. rewrite log_also_nil. reflexivity.
  - rewrite for_enumerate_cons.
    destruct (scale_step_log i obj acc w) as [e1 He1].
    destruct (scale_step scale_x scale_y offset_x offset_y i obj acc w) as [[acc'|e] w'];
      simpl in He1; subst w'.
    + destruct (IH (S i) acc' (log_also w e1)) as [e2 He2]. rewrite He2.
      exists (e1 ++ e2). unfold log_also. simpl. rewrite app_assoc. reflexivity.
    + eauto.
Qed.

End ScaleLoop.

Lemma unpack4_raises (bb : value) (e : exn) :
  unpack4 bb = Raise e -> caught_scaling e = true.
Proof.
  unfold unpack4. intros Hu.
  destruct bb as [| z | f | s | l].
  - inversion Hu. reflexivity.
  - inversion Hu. reflexivity.
  - inversion Hu. reflexivity.
  - destruct (chars s) as [|a [|b [|c [|d [|x t]]]]]; inversion Hu; reflexivity.
  - destruct l as [|a [|b [|c [|d [|x t]]]]]; inversion Hu; reflexivity.
Qed.

(** C10: a record whose ['bounding_box'] is present but does not unpack
    into four coordinates makes the loop log a warning and go on: the call
    returns what it returns without that record, which is also what it
    returns when the record has no ['bounding_box'] key at all. *)
Theorem malformed_box_dropped (before after : list record) (obj : record) (bb : value)
    (scale_x scale_y : float) (offset_x offset_y : number) (w : world) :
  (0 <? scale_x)%float = true ->
  (0 <? scale_y)%float = true ->
  obj !! bounding_box = Some bb ->
  is_ok (unpack4 bb) = false ->
  (exists e, forall acc w0,
      scale_step scale_x scale_y offset_x offset_y (length before) obj acc w0
      = (Ok acc, log_also w0 [(WARNING, ErrorScalingObject (length before) e)]))
  /\ (scale_objects (before ++ obj :: after) scale_x scale_y offset_x offset_y w).1
     = (scale_objects (before ++ after) scale_x scale_y offset_x offset_y w).1
  /\ (scale_objects (before ++ obj :: after) scale_x scale_y offset_x offset_y w).1
     = (scale_objects (before ++ delete bounding_box obj :: after)
          scale_x scale_y offset_x offset_y w).1
  /\ (forall out w',
        scale_objects (before ++ obj :: after) scale_x scale_y offset_x offset_y w
        = (Ok out, w') ->
        exists e, (WARNING, ErrorScalingObject (length before) e) ∈ logs w').
Proof.
  intros Hx Hy Hbb Hun.
  assert (Hk : has_key obj bounding_box = true) by (unfold has_key; rewrite Hbb; reflexivity).
  destruct (unpack4 bb) as [xyxy|e] eqn:Hu; [discriminate|].
  assert (Hc : caught_scaling e = true) by (eapply unpack4_raises; eassumption).
  assert (Hone : scale_one obj scale_x scale_y offset_x offset_y = Raise e).
  { unfold scale_one, item. rewrite Hbb. simpl. rewrite Hu. reflexivity. }
  assert (Hstep : forall acc, step_result scale_x scale_y offset_x offset_y obj acc = Ok acc).
  { intros acc. unfold step_result. rewrite Hk, Hone, Hc. reflexivity. }
  assert (Hstep' : forall acc,
             step_result scale_x scale_y offset_x offset_y (delete bounding_box obj) acc = Ok acc).
  { intros acc. unfold step_result, has_key. rewrite lookup_delete_eq. reflexivity. }
  unfold scale_objects.
  rewrite (float_pos_not_le0 _ Hx), (float_pos_not_le0 _ Hy). simpl.
  split; [|split; [|split]].
  - exists e. intros acc w0. apply scale_step_dropped; assumption.
  - rewrite !scale_loop_result, !loop_result_app. simpl.
    destruct (loop_result scale_x scale_y offset_x offset_y before []); [|reflexivity].
    rewrite Hstep. reflexivity.
  - rewrite !scale_loop_result, !loop_result_app. simpl.
    destruct (loop_result scale_x scale_y offset_x offset_y before []); [|reflexivity].
    rewrite Hstep, Hstep'. reflexivity.
  - intros out w'. rewrite scale_loop_app.
    destruct (for_enumerate (scale_step scale_x scale_y offset_x offset_y) 0 before [] w)
      as [[acc'|e'] w1]; [|discriminate].
    cbn [Nat.add]. rewrite for_enumerate_cons.
    rewrite (scale_step_dropped scale_x scale_y offset_x offset_y _ obj e acc' w1 Hk Hone Hc).
    intros Hrun. exists e.
    destruct (scale_loop_log scale_x scale_y offset_x offset_y after (S (length before)) acc'
                (log_also w1 [(WARNING, ErrorScalingObject (length before) e)])) as [es Hes].
    rewrite Hrun in Hes. simpl in Hes. subst w'. simpl.
    rewrite !elem_of_app, list_elem_of_singleton. left. right. reflexivity.
Qed.

Lemma malformed_box_dropped_witness :
  (exists e, forall acc w0,
      scale_step 2 2 (NFloat 0) (NFloat 0) (length [sample_box]) sample_short_box acc w0
      = (Ok acc, log_also w0 [(WARNING, ErrorScalingObject (length [sample_box]) e)]))
  /\ (scale_objects ([sample_box] ++ sample_short_box :: [sample_box]) 2 2
        (NFloat 0) (NFloat 0) empty_world).1
     = (scale_objects ([sample_box] ++ [sample_box]) 2 2 (NFloat 0) (NFloat 0) empty_world).1
  /\ (scale_objects ([sample_box] ++ sample_short_box :: [sample_box]) 2 2
        (NFloat 0) (NFloat 0) empty_world).1
     = (scale_objects ([sample_box] ++ delete bounding_box sample_short_box :: [sample_box])
          2 2 (NFloat 0) (NFloat 0) empty_world).1
  /\ (forall out w',
        scale_objects ([sample_box] ++ sample_short_box :: [sample_box]) 2 2
          (NFloat 0) (NFloat 0) empty_world = (Ok out, w') ->
        exists e, (WARNING, ErrorScalingObject (length [sample_box]) e) ∈ logs w').
Proof.
  apply (malformed_box_dropped [sample_box] [sample_box] sample_short_box
           (VList [VInt 1; VInt 2; VInt 3]) 2 2 (NFloat 0) (NFloat 0) empty_world);
    reflexivity.
Defined.

(** ** [scale_objects] against BoxTransform *)

Lemma affine_number (x : value) (scale : float) (offset : number) :
  is_number x = true -> number_ok offset = true ->
  exists f, affine x scale offset = Ok f.
Proof.
  intros Hx Ho. unfold affine, mul_float, add_number.
  destruct x as [| z | f | s | l]; simpl in Hx; try discriminate.
  - destruct (float_of_int z) as [fz|]; [|discriminate].
    destruct offset as [o | g]; simpl in Ho; [|eauto].
    destruct (float_of_int o); [eauto | discriminate].
  - destruct offset as [o | g]; simpl in Ho; [|eauto].
    destruct (float_of_int o); [eauto | discriminate].
Qed.

Lemma numeric_box_transform (scale_x scale_y : float) (offset_x offset_y : number) (bb : value) :
  numeric_box bb = true -> number_ok offset_x = true -> number_ok offset_y = true ->
  exists x1 y1 x2 y2 a b c d,
    bb = VList [x1; y1; x2; y2]
    /\ affine x1 scale_x offset_x = Ok a /\ affine y1 scale_y offset_y = Ok b
    /\ affine x2 scale_x offset_x = Ok c /\ affine y2 scale_y offset_y = Ok d
    /\ box_transform scale_x scale_y offset_x offset_y bb
       = Some (VList [VFloat a; VFloat b; VFloat c; VFloat d]).
Proof.
  intros Hbox Hx Hy. unfold numeric_box in Hbox.
  destruct bb as [| | | | l]; try discriminate.
  destruct l as [|x1 [|y1 [|x2 [|y2 [|x t]]]]]; try discriminate.
  apply andb_prop in Hbox as [Hbox H4]. apply andb_prop in Hbox as [Hbox H3].
  apply andb_prop in Hbox as [H1 H2].
  destruct (affine_number x1 scale_x offset_x H1 Hx) as [a Ha].
  destruct (affine_number y1 scale_y offset_y H2 Hy) as [b Hb].
  destruct (affine_number x2 scale_x offset_x H3 Hx) as [c Hc].
  destruct (affine_number y2 scale_y offset_y H4 Hy) as [d Hd].
  exists x1, y1, x2, y2, a, b, c, d. unfold box_transform.
  rewrite Ha, Hb, Hc, Hd. repeat split; reflexivity.
Qed.

(** On a well-formed record the code of the [try] block and BoxTransform
    agree. *)
Lemma scale_one_transform (scale_x scale_y : float) (offset_x offset_y : number)
    (obj : record) (bb : value) :
  obj !! bounding_box = Some bb -> numeric_box bb = true ->
  number_ok offset_x = true -> number_ok offset_y = true ->
  exists r, scale_one obj scale_x scale_y offset_x offset_y = Ok r
            /\ transform_record scale_x scale_y offset_x offset_y obj = Some r.
Proof.
  intros Hbb Hbox Hx Hy.
  destruct (numeric_box_transform scale_x scale_y offset_x offset_y bb Hbox Hx Hy)
    as (x1 & y1 & x2 & y2 & a & b & c & d & -> & Ha & Hb & Hc & Hd & Ht).
  eexists. unfold scale_one, transform_record, item. rewrite Hbb, Ht. simpl.
  rewrite Ha. simpl. rewrite Hb. simpl. rewrite Hc. simpl. rewrite Hd. simpl.
  split; reflexivity.
Qed.

Lemma scale_loop_well_formed (scale_x scale_y : float) (offset_x offset_y : number)
    (objects : list record) :
  number_ok offset_x = true -> number_ok offset_y = true ->
  Forall (fun obj => well_formed obj = true) objects ->
  forall (i : nat) (acc : list record) (w : world),
  for_enumerate (scale_step scale_x scale_y offset_x offset_y) i objects acc w
  = (Ok (acc ++ transform_records scale_x scale_y offset_x offset_y objects),
     log_also w (missing_box_warnings i objects)).
Proof.
  intros Hx Hy Hwf. induction Hwf as [|obj rest Hobj Hrest IH]; intros i acc w.
  - simpl. unfold ret. rewrite app_nil_r, log_also_nil. reflexivity.
  - rewrite for_enumerate_cons. unfold transform_records. simpl.
    unfold well_formed in Hobj. unfold has_key at 1.
    destruct (obj !! bounding_box) as [bb|] eqn:Hbb.
    + destruct (scale_one_transform scale_x scale_y offset_x offset_y obj bb Hbb Hobj Hx Hy)
        as (r & Hone & Ht).
      rewrite (scale_step_kept scale_x scale_y offset_x offset_y i obj r acc w); [| |exact Hone].
      * rewrite IH, Ht. simpl. rewrite <- app_assoc. reflexivity.
      * unfold has_key. rewrite Hbb. reflexivity.
    + rewrite scale_step_missing by (unfold has_key; rewrite Hbb; reflexivity).
      rewrite IH, log_also_app.
      unfold transform_record at 1. rewrite Hbb. reflexivity.
Qed.

(** With valid scales and well-formed records, [scale_objects] computes
    BoxTransform over the list. *)
Lemma scale_objects_transform (objects : list record) (scale_x scale_y : float)
    (offset_x offset_y : number) (w : world) :
  (0 <? scale_x)%float = true -> (0 <? scale_y)%float = true ->
  number_ok offset_x = true -> number_ok offset_y = true ->
  Forall (fun obj => well_formed obj = true) objects ->
  scale_objects objects scale_x scale_y offset_x offset_y w
  = (Ok (transform_records scale_x scale_y offset_x offset_y objects),
     log_also w (missing_box_warnings 0 objects)).
Proof.
  intros Hsx Hsy Hx Hy Hwf. unfold scale_objects.
  rewrite (float_pos_not_le0 _ Hsx), (float_pos_not_le0 _ Hsy). simpl.
  apply (scale_loop_well_formed scale_x scale_y offset_x offset_y objects Hx Hy Hwf 0 [] w).
Qed.

(** What BoxTransform yields, record by record. *)
Definition transformed (scale_x scale_y : float) (offset_x offset_y : number)
    (obj obj' : record) : Prop :=
  (exists x1 y1 x2 y2 a b c d,
      obj !! bounding_box = Some (VList [x1; y1; x2; y2])
      /\ affine x1 scale_x offset_x = Ok a /\ affine y1 scale_y offset_y = Ok b
      /\ affine x2 scale_x offset_x = Ok c /\ affine y2 scale_y offset_y = Ok d
      /\ obj' !! bounding_box = Some (VList [VFloat a; VFloat b; VFloat c; VFloat d]))
  /\ (forall k, k <> bounding_box -> obj' !! k = obj !! k).

Lemma transform_records_spec (scale_x scale_y : float) (offset_x offset_y : number)
    (objects : list record) :
  number_ok offset_x = true -> number_ok offset_y = true ->
  Forall (fun obj => well_formed obj = true) objects ->
  Forall2 (transformed scale_x scale_y offset_x offset_y)
    (List.filter (fun obj => has_key obj bounding_box) objects)
    (transform_records scale_x scale_y offset_x offset_y objects).
Proof.
  intros Hx Hy Hwf. induction Hwf as [|obj rest Hobj Hrest IH]; [constructor|].
  unfold transform_records. simpl. unfold well_formed in Hobj.
  unfold has_key at 1. unfold transform_record at 1.
  destruct (obj !! bounding_box) as [bb|] eqn:Hbb; [|exact IH].
  destruct (numeric_box_transform scale_x scale_y offset_x offset_y bb Hobj Hx Hy)
    as (x1 & y1 & x2 & y2 & a & b & c & d & -> & Ha & Hb & Hc & Hd & Ht).
  rewrite Ht. simpl. constructor; [|exact IH].
  split.
  - exists x1, y1, x2, y2, a, b, c, d. rewrite lookup_insert_eq. auto 10.
  - intros k Hk. rewrite lookup_insert_ne by congruence. reflexivity.
Qed.

(** C1, as the code has it: for scales above zero, numeric offsets, and
    records whose ['bounding_box'], when present, is a list of exactly four
    numbers, [scale_objects] returns, in input order, one record for each
    input record that has a ['bounding_box'] key; its box is
    [[x1*scale_x+offset_x, y1*scale_y+offset_y, x2*scale_x+offset_x,
    y2*scale_y+offset_y]] and every other field is the input's. Records
    without the key are left out of the list (and a warning is logged for
    each). *)
Theorem scale_objects_boxes (objects : list record) (scale_x scale_y : float)
    (offset_x offset_y : number) (w : world) :
  (0 <? scale_x)%float = true -> (0 <? scale_y)%float = true ->
  number_ok offset_x = true -> number_ok offset_y = true ->
  Forall (fun obj => well_formed obj = true) objects ->
  exists out,
    scale_objects objects scale_x scale_y offset_x offset_y w
    = (Ok out, log_also w (missing_box_warnings 0 objects))
    /\ Forall2 (transformed scale_x scale_y offset_x offset_y)
         (List.filter (fun obj => has_key obj bounding_box) objects) out.
Proof.
  intros Hsx Hsy Hx Hy Hwf.
  exists (transform_records scale_x scale_y offset_x offset_y objects). split.
  - apply scale_objects_transform; assumption.
  - apply transform_records_spec; assumption.
Qed.

Lemma scale_objects_boxes_witness :
  exists out,
    scale_objects [sample_box; sample_no_box] 2 2 (NInt 0) (NInt 50) empty_world
    = (Ok out, log_also empty_world (missing_box_warnings 0 [sample_box; sample_no_box]))
    /\ Forall2 (transformed 2 2 (NInt 0) (NInt 50))
         (List.filter (fun obj => has_key obj bounding_box) [sample_box; sample_no_box]) out.
Proof.
  apply (scale_objects_boxes [sample_box; sample_no_box] 2 2 (NInt 0) (NInt 50) empty_world);
    try reflexivity.
  forall_by_computation.
Defined.

(** C1 as stated fails: a record that has a ['bounding_box'] key, holding
    three coordinates, gets no output record. *)
Lemma scale_objects_drops_short_box :
  has_key sample_short_box bounding_box = true
  /\ scale_objects [sample_short_box] 2 2 (NFloat 0) (NFloat 0) empty_world
     = (Ok [], log_also empty_world [(WARNING, ErrorScalingObject 0 ValueError)]).
Proof. by_computation. Qed.

(** ** Rounding to binary64 *)

Section HalfEven.
Variables (a b : Z).
Hypothesis b_pos : 0 < b.

Lemma div_half_even_cases :
  let q := div_half_even a b in
  (q = a / b /\ 2 * (a mod b) <= b) \/ (q = a / b + 1 /\ b <= 2 * (a mod b)).
Proof.
  unfold div_half_even. cbv zeta.
  destruct (Z.compare_spec (2 * (a mod b)) b) as [Heq | Hlt | Hgt].
  - destruct (Z.even (a / b)); [left | right]; split; lia.
  - left. split; lia.
  - right. split; lia.
Qed.

Lemma div_half_even_near : 2 * Z.abs (div_half_even a b * b - a) <= b.
Proof.
  pose proof (Z.div_mod a b ltac:(lia)) as Hdm.
  pose proof (Z.mod_pos_bound a b b_pos) as Hr.
  destruct div_half_even_cases as [[-> Hc] | [-> Hc]]; nia.
Qed.

Lemma div_half_even_nearest (k : Z) :
  Z.abs (div_half_even a b * b - a) <= Z.abs (k * b - a).
Proof.
  pose proof (Z.div_mod a b ltac:(lia)) as Hdm.
  pose proof (Z.mod_pos_bound a b b_pos) as Hr.
  destruct (Z_le_gt_dec k (a / b)) as [Hk | Hk];
    destruct div_half_even_cases as [[-> Hc] | [-> Hc]]; nia.
Qed.

Lemma div_half_even_lower (c : Z) : c * b <= a -> c <= div_half_even a b.
Proof.
  intros Hc.
  pose proof (Z.div_mod a b ltac:(lia)) as Hdm.
  pose proof (Z.mod_pos_bound a b b_pos) as Hr.
  assert (c <= a / b) by (apply Z.div_le_lower_bound; lia).
  destruct div_half_even_cases as [[-> _] | [-> _]]; lia.
Qed.

Lemma div_half_even_upper (c : Z) : a <= c * b -> div_half_even a b <= c.
Proof.
  intros Hc.
  pose proof (Z.div_mod a b ltac:(lia)) as Hdm.
  pose proof (Z.mod_pos_bound a b b_pos) as Hr.
  destruct div_half_even_cases as [[-> Hh] | [-> Hh]]; nia.
Qed.

End HalfEven.


(** The rounding exponent brackets the quotient. *)
Lemma ratio_exponent_bounds (n d : positive) :
  let E := ratio_exponent n d in
  0 <= E
  /\ Zpos n * 2 ^ 1074 < 2 ^ 53 * (Zpos d * 2 ^ E)
  /\ (0 < E -> 2 ^ 52 * (Zpos d * 2 ^ E) <= Zpos n * 2 ^ 1074).
Proof.
  unfold ratio_exponent. cbv zeta.
  set (L := Z.log2 (Zpos n)). set (D := Z.log2 (Zpos d)).
  destruct (Z.log2_spec (Zpos n) ltac:(lia)) as [HnL HnU]. fold L in HnL, HnU.
  destruct (Z.log2_spec (Zpos d) ltac:(lia)) as [HdL HdU]. fold D in HdL, HdU.
  assert (HL : 0 <= L) by apply Z.log2_nonneg.
  assert (HD : 0 <= D) by apply Z.log2_nonneg.
  set (E0 := Z.max (L + 1021 - D) 0).
  assert (HE0 : 0 <= E0) by lia.
  (* upper bracket at E0: n·2^1074 < 2^54·d·2^E0 *)
  assert (Hup : Zpos n * 2 ^ 1074 < 2 ^ 54 * (Zpos d * 2 ^ E0)).
  { apply Z.lt_le_trans with (2 ^ Z.succ L * 2 ^ 1074).
    - apply Z.mul_lt_mono_pos_r; [apply Z.pow_pos_nonneg; lia | exact HnU].
    - rewrite <- Z.pow_add_r by lia.
      apply Z.le_trans with (2 ^ 54 * (2 ^ D * 2 ^ E0)).
      + rewrite <- !Z.pow_add_r by lia. apply Z.pow_le_mono_r; lia.
      + apply Z.mul_le_mono_nonneg_l; [apply Z.pow_nonneg; lia|].
        apply Z.mul_le_mono_nonneg_r; [apply Z.pow_nonneg; lia | exact HdL]. }
  (* lower bracket at E0 when it is not the floor 0 *)
  assert (Hlow : 0 < E0 -> 2 ^ 52 * (Zpos d * 2 ^ E0) <= Zpos n * 2 ^ 1074).
  { intros HposE. assert (HE0eq : E0 = L + 1021 - D) by lia.
    apply Z.le_trans with (2 ^ L * 2 ^ 1074).
    - apply Z.le_trans with (2 ^ 52 * (2 ^ Z.succ D * 2 ^ E0)).
      + apply Z.mul_le_mono_nonneg_l; [apply Z.pow_nonneg; lia|].
        apply Z.mul_le_mono_nonneg_r; [apply Z.pow_nonneg; lia | lia].
      + rewrite <- !Z.pow_add_r by lia. apply Z.pow_le_mono_r; lia.
    - apply Z.mul_le_mono_nonneg_r; [apply Z.pow_nonneg; lia | exact HnL]. }
  assert (Hsucc : 2 ^ (E0 + 1) = 2 * 2 ^ E0).
  { rewrite Z.pow_add_r by lia. change (2 ^ 1) with 2. lia. }
  assert (H54 : 2 ^ 54 = 2 * 2 ^ 53) by reflexivity.
  assert (H53 : 2 ^ 53 = 2 * 2 ^ 52) by reflexivity.
  destruct (Z.leb_spec (2 ^ 53 * (Zpos d * 2 ^ E0)) (Zpos n * 2 ^ 1074)) as [Hb | Hb].
  - split; [lia|]. rewrite Hsucc. split; [nia|]. intros _. nia.
  - split; [lia|]. split; [lia|]. exact Hlow.
Qed.

Lemma digits2_size (m : positive) : digits2_pos m = Pos.size m.
Proof. induction m as [m IH | m IH |]; simpl; congruence. Qed.

Lemma digits2_log2 (m : positive) : Zpos (digits2_pos m) = Z.log2 (Zpos m) + 1.
Proof.
  rewrite digits2_size. destruct m as [m | m |]; cbn [Pos.size Z.log2]; lia.
Qed.

Lemma canonical_normal (m : positive) (e : Z) :
  2 ^ 52 <= Zpos m < 2 ^ 53 -> -1074 <= e ->
  canonical_mantissa prec emax m e = true.
Proof.
  intros Hm He. unfold canonical_mantissa, fexp, SpecFloat.emin, prec, emax.
  rewrite digits2_log2.
  rewrite (Z.log2_unique (Zpos m) 52) by (change (Z.succ 52) with 53; lia).
  apply Z.eqb_eq. lia.
Qed.

Lemma canonical_subnormal (m : positive) :
  Zpos m < 2 ^ 53 -> canonical_mantissa prec emax m (-1074) = true.
Proof.
  intros Hm. unfold canonical_mantissa, fexp, SpecFloat.emin, prec, emax.
  rewrite digits2_log2.
  assert (Z.log2 (Zpos m) < 53) by (apply Z.log2_lt_pow2; lia).
  apply Z.eqb_eq. lia.
Qed.

(** The mantissa and exponent [round_ratio] returns are those of a double,
    up to the overflow test. *)
Lemma round_ratio_canonical (n d : positive) :
  match round_ratio n d with
  | (Zpos m, e) => canonical_mantissa prec emax m e = true
  | (Z0, e) => True
  | (Zneg _, _) => False
  end.
Proof.
  unfold round_ratio. cbv zeta.
  destruct (ratio_exponent_bounds n d) as (HE & Hup & Hlow).
  set (E := ratio_exponent n d) in *.
  assert (Hb : 0 < Zpos d * 2 ^ E) by (apply Z.mul_pos_pos; [lia | apply Z.pow_pos_nonneg; lia]).
  set (q := div_half_even (Zpos n * 2 ^ 1074) (Zpos d * 2 ^ E)).
  assert (Hq53 : q <= 2 ^ 53) by (apply div_half_even_upper; lia).
  assert (Hq0 : 0 <= q).
  { apply div_half_even_lower; [exact Hb|]. simpl. lia. }
  assert (Hq52 : 0 < E -> 2 ^ 52 <= q).
  { intros HposE. apply div_half_even_lower; [exact Hb | apply Hlow; exact HposE]. }
  destruct (Z.eqb_spec q (2 ^ 53)) as [Heq | Hne].
  - change (2 ^ 52) with (Zpos (Pos.pow 2 52)).
    apply canonical_normal; [|lia]. change (Zpos (2 ^ 52)) with (2 ^ 52).
    change (2 ^ 53) with 9007199254740992. change (2 ^ 52) with 4503599627370496. lia.
  - destruct q as [| m | m] eqn:Hqm; [exact I | | lia].
    destruct (Z.eq_dec E 0) as [HE0 | HE0].
    + rewrite HE0. change (0 - 1074) with (-1074). apply canonical_subnormal. lia.
    + apply canonical_normal; [|lia]. split; [apply Hq52; lia | lia].
Qed.

Lemma nearest_sf_valid (s : bool) (n d : positive) :
  valid_binary (nearest_sf s n d) = true.
Proof.
  unfold nearest_sf. pose proof (round_ratio_canonical n d) as Hc.
  destruct (round_ratio n d) as [[| m | m] e]; try reflexivity.
  destruct (Z.leb_spec e 971) as [He | He]; [|reflexivity].
  simpl. unfold bounded. rewrite Hc. simpl.
  apply Z.leb_le. exact He.
Qed.

Lemma nearest_double_valid (n : Z) (d : positive) :
  valid_binary (nearest_double n d) = true.
Proof. destruct n; simpl; [reflexivity | apply nearest_sf_valid ..]. Qed.

Lemma Prim2SF_nearest (n : Z) (d : positive) :
  Prim2SF (SF2Prim (nearest_double n d)) = nearest_double n d.
Proof. apply Prim2SF_SF2Prim, nearest_double_valid. Qed.

(** ** Signs: where [int()] and [floor] agree *)

Lemma int_floor_agree (x : float) :
  sf_negative (Prim2SF x) = false -> int_of_float x = floor_of_float x.
Proof.
  unfold int_of_float, floor_of_float.
  destruct (Prim2SF x) as [s | s | | s m e]; try reflexivity.
  destruct s; [discriminate|]. intros _. simpl. destruct (0 <=? e); reflexivity.
Qed.

Lemma binary_round_aux_sign (m e : Z) (l : location) :
  sf_negative (binary_round_aux prec emax false m e l) = false.
Proof.
  unfold binary_round_aux.
  destruct (shr_fexp prec emax m e l) as [mrs' e'].
  destruct (shr_fexp prec emax _ e' loc_Exact) as [mrs'' e''].
  destruct (shr_m mrs''); [reflexivity | | reflexivity].
  destruct (e'' <=? emax - prec); reflexivity.
Qed.

Lemma float_pos_cases (x : float) :
  (0 <? x)%float = true ->
  (exists m e, Prim2SF x = S754_finite false m e) \/ Prim2SF x = S754_infinity false.
Proof.
  rewrite ltb_spec, Prim2SF_zero.
  destruct (Prim2SF x) as [s | s | | s m e]; unfold SFltb; simpl;
    try destruct s; simpl; try discriminate; eauto.
Qed.

Lemma mul_pos_sign (x y : float) :
  sf_negative (Prim2SF x) = false ->
  (0 <? x)%float = true \/ Prim2SF x = S754_zero false ->
  (0 <? y)%float = true ->
  sf_negative (Prim2SF (x * y)%float) = false.
Proof.
  intros Hx Hx' Hy. rewrite mul_spec. unfold SF64mul.
  destruct (float_pos_cases y Hy) as [(my & ey & ->) | ->];
    destruct Hx' as [Hx' | ->]; try reflexivity.
  - destruct (float_pos_cases x Hx') as [(mx & ex & ->) | ->]; [|reflexivity].
    simpl. apply binary_round_aux_sign.
  - destruct (float_pos_cases x Hx') as [(mx & ex & ->) | ->]; reflexivity.
Qed.

(** The double of a positive [int] is above zero. *)
Lemma float_of_int_pos (z : Z) (f : float) :
  0 < z -> float_of_int z = Ok f -> (0 <? f)%float = true.
Proof.
  intros Hz. unfold float_of_int.
  destruct (sf_is_infinity (nearest_double z 1)) eqn:Hinf; [discriminate|].
  intros [= <-]. rewrite ltb_spec, Prim2SF_nearest, Prim2SF_zero.
  destruct z as [| p | p]; try lia. simpl in *. unfold nearest_sf in *.
  pose proof (round_ratio_canonical p 1) as Hc.
  unfold round_ratio in *. cbv zeta in *.
  destruct (ratio_exponent_bounds p 1) as (HE & Hup & Hlow).
  set (E := ratio_exponent p 1) in *.
  assert (Hb : 0 < 1 * 2 ^ E) by (apply Z.mul_pos_pos; [lia | apply Z.pow_pos_nonneg; lia]).
  set (q := div_half_even (Zpos p * 2 ^ 1074) (1 * 2 ^ E)) in *.
  assert (Hq : 1 <= q).
  { apply div_half_even_lower; [exact Hb|].
    destruct (Z.eq_dec E 0) as [-> | HE0].
    - change (2 ^ 0) with 1. assert (0 < 2 ^ 1074) by (apply Z.pow_pos_nonneg; lia). nia.
    - assert (1 <= 2 ^ 52) by (change (2 ^ 52) with 4503599627370496; lia).
      specialize (Hlow ltac:(lia)). nia. }
  destruct (q =? 2 ^ 53).
  - simpl. destruct (E + 1 - 1074 <=? 971); reflexivity.
  - destruct q as [| m | m]; try lia. destruct (E - 1074 <=? 971); reflexivity.
Qed.

Lemma scaled_size_floor (w : Z) (scale : float) (fw : float) :
  0 < w -> (0 <? scale)%float = true -> float_of_int w = Ok fw ->
  scaled_size w scale = floor_of_float (fw * scale)%float.
Proof.
  intros Hw Hs Hfw. unfold scaled_size. rewrite Hfw.
  apply int_floor_agree.
  pose proof (float_of_int_pos w fw Hw Hfw) as Hpos.
  apply mul_pos_sign; [|left; exact Hpos | exact Hs].
  destruct (float_pos_cases fw Hpos) as [(m & e & ->) | ->]; reflexivity.
Qed.

(** ** [apply_stretch] and [apply_letterbox] *)

Lemma size_nonzero `{Imaging} (a : ndarray) :
  invalid_image (Some a) = false -> (size a =? 0) = false.
Proof. intros Hv. exact Hv. Qed.

Lemma stretch_example :
  int_truediv 50 100 = Ok 0.5%float
  /\ int_truediv 100 50 = Ok 2%float
  /\ box_transform 0.5 2 (NFloat 0) (NFloat 0) (VList [VInt 10; VInt 10; VInt 20; VInt 20])
     = Some (VList [VFloat 5; VFloat 20; VFloat 10; VFloat 40]).
Proof. by_computation. Qed.

Lemma letterbox_example :
  letterbox_plan 100 50 200 200 = Ok (Plan 2 200 100 0 50)
  /\ box_transform 2 2 (NInt 0) (NInt 50) (VList [VInt 10; VInt 10; VInt 20; VInt 20])
     = Some (VList [VFloat 20; VFloat 70; VFloat 40; VFloat 90]).
Proof. by_computation. Qed.

(** C3, as the code has it: for a non-empty image of height [h] and width
    [w] and a target for which both [scale_x = new_w / w] and
    [scale_y = new_h / h] are above zero and the pixel resize succeeds,
    [apply_stretch] returns the resized image and the records of
    BoxTransform with [(scale_x, scale_y, 0, 0)], the records being well
    formed. For [w=100, h=50, new_w=50, new_h=100] the scales are [0.5] and
    [2.0], and box [[10,10,20,20]] maps to [[5,20,10,40]]. *)
Theorem apply_stretch_remaps `{Imaging} (a resized : ndarray) (h w : Z) (rest : list Z)
    (objects : list record) (new_w new_h interpolation : Z) (scale_x scale_y : float)
    (world0 : world) :
  invalid_image (Some a) = false ->
  shape a = h :: w :: rest ->
  int_truediv new_w w = Ok scale_x ->
  int_truediv new_h h = Ok scale_y ->
  (0 <? scale_x)%float = true ->
  (0 <? scale_y)%float = true ->
  cv2_resize a new_w new_h interpolation = Ok resized ->
  Forall (fun obj => well_formed obj = true) objects ->
  (exists out,
      apply_stretch (Some a) objects new_w new_h interpolation world0
      = (Ok (Some resized, out), log_also world0 (missing_box_warnings 0 objects))
      /\ Forall2 (transformed scale_x scale_y (NFloat 0) (NFloat 0))
           (List.filter (fun obj => has_key obj bounding_box) objects) out)
  /\ int_truediv 50 100 = Ok 0.5%float
  /\ int_truediv 100 50 = Ok 2%float
  /\ box_transform 0.5 2 (NFloat 0) (NFloat 0) (VList [VInt 10; VInt 10; VInt 20; VInt 20])
     = Some (VList [VFloat 5; VFloat 20; VFloat 10; VFloat 40]).
Proof.
  intros Hv Hshape Hsx Hsy Hpx Hpy Hres Hwf.
  split; [|exact stretch_example].
  exists (transform_records scale_x scale_y (NFloat 0) (NFloat 0) objects). split.
  - unfold apply_stretch. rewrite (size_nonzero a Hv).
    unfold height_width. rewrite Hshape. run. cbv beta iota. rewrite Hsx, Hsy, Hres.
    rewrite (scale_objects_transform objects scale_x scale_y (NFloat 0) (NFloat 0) world0);
      try assumption; reflexivity.
  - apply transform_records_spec; [reflexivity | reflexivity | assumption].
Qed.

Lemma apply_stretch_remaps_witness :
  (exists out,
      apply_stretch (H := shape_only) (Some [50; 100; 3]) [sample_box; sample_no_box]
        50 100 INTER_LINEAR empty_world
      = (Ok (Some [100; 50; 3], out),
         log_also empty_world (missing_box_warnings 0 [sample_box; sample_no_box]))
      /\ Forall2 (transformed 0.5 2 (NFloat 0) (NFloat 0))
           (List.filter (fun obj => has_key obj bounding_box) [sample_box; sample_no_box]) out)
  /\ int_truediv 50 100 = Ok 0.5%float
  /\ int_truediv 100 50 = Ok 2%float
  /\ box_transform 0.5 2 (NFloat 0) (NFloat 0) (VList [VInt 10; VInt 10; VInt 20; VInt 20])
     = Some (VList [VFloat 5; VFloat 20; VFloat 10; VFloat 40]).
Proof.
  apply (apply_stretch_remaps (H := shape_only) [50; 100; 3] [100; 50; 3] 50 100 [3]
           [sample_box; sample_no_box] 50 100 INTER_LINEAR 0.5 2 empty_world).
  - vm_compute; reflexivity.
  - vm_compute; reflexivity.
  - vm_compute. reflexivity.
  - vm_compute. reflexivity.
  - vm_compute; reflexivity.
  - vm_compute; reflexivity.
  - vm_compute; reflexivity.
  - forall_by_computation.
Defined.

(** C3 as stated fails: with target width [0] the scale [new_w / w] is
    [0.0], BoxTransform with it sends [[10,10,20,20]] to [[0,20,0,40]], and
    [apply_stretch] returns the image and the record as they were. *)
Lemma apply_stretch_zero_width :
  invalid_image (H := shape_only) (Some [50; 100; 3]) = false
  /\ int_truediv 0 100 = Ok 0%float
  /\ box_transform 0 2 (NFloat 0) (NFloat 0) (VList [VInt 10; VInt 10; VInt 20; VInt 20])
     = Some (VList [VFloat 0; VFloat 20; VFloat 0; VFloat 40])
  /\ apply_stretch (H := shape_only) (Some [50; 100; 3]) [sample_box] 0 100
       INTER_LINEAR empty_world
     = (Ok (Some [50; 100; 3], [sample_box]),
        log_also empty_world [(ERROR, ErrorDuringStretching CvError)]).
Proof. by_computation. Qed.

(** C2, as the code has it: for a non-empty image of height [h] and width
    [w] and a target for which the scale [min(new_w/w, new_h/h)] is above
    zero and the resize, the canvas and the paste succeed, [apply_letterbox]
    works with the plan [scaled_w = floor(w*scale)],
    [scaled_h = floor(h*scale)], [pad_x = floor((new_w - scaled_w)/2)],
    [pad_y = floor((new_h - scaled_h)/2)], an odd leftover leaving the extra
    pixel on the right and at the bottom, and returns the canvas and the
    records of BoxTransform with [(scale, scale, pad_x, pad_y)], the records
    being well formed. For [w=100, h=50, new_w=200, new_h=200] the plan is
    [scale=2.0, scaled_w=200, scaled_h=100, pad_x=0, pad_y=50], and box
    [[10,10,20,20]] maps to [[20,70,40,90]]. *)
Theorem apply_letterbox_plan `{Imaging} (a resized canvas pasted : ndarray) (h w : Z)
    (rest : list Z) (objects : list record) (new_w new_h : Z) (color : Z * Z * Z)
    (interpolation : Z) (P : plan) (world0 : world) :
  invalid_image (Some a) = false ->
  shape a = h :: w :: rest ->
  0 < w -> 0 < h ->
  letterbox_plan w h new_w new_h = Ok P ->
  (0 <? plan_scale P)%float = true ->
  cv2_resize a (plan_scaled_w P) (plan_scaled_h P) interpolation = Ok resized ->
  letterbox_canvas a new_w new_h color = Ok canvas ->
  set_region canvas (plan_pad_y P) (plan_pad_y P + plan_scaled_h P)
    (plan_pad_x P) (plan_pad_x P + plan_scaled_w P) resized = Ok pasted ->
  number_ok (NInt (plan_pad_x P)) = true ->
  number_ok (NInt (plan_pad_y P)) = true ->
  Forall (fun obj => well_formed obj = true) objects ->
  (exists out,
      apply_letterbox (Some a) objects new_w new_h color interpolation world0
      = (Ok (Some pasted, out), log_also world0 (missing_box_warnings 0 objects))
      /\ Forall2 (transformed (plan_scale P) (plan_scale P)
                    (NInt (plan_pad_x P)) (NInt (plan_pad_y P)))
           (List.filter (fun obj => has_key obj bounding_box) objects) out)
  /\ 0 <= (new_w - plan_scaled_w P - plan_pad_x P) - plan_pad_x P <= 1
  /\ 0 <= (new_h - plan_scaled_h P - plan_pad_y P) - plan_pad_y P <= 1
  /\ letterbox_plan 100 50 200 200 = Ok (Plan 2 200 100 0 50)
  /\ box_transform 2 2 (NInt 0) (NInt 50) (VList [VInt 10; VInt 10; VInt 20; VInt 20])
     = Some (VList [VFloat 20; VFloat 70; VFloat 40; VFloat 90]).
Proof.
  intros Hv Hshape Hw Hh Hplan Hpos Hres Hcanvas Hpaste Hpx Hpy Hwf.
  split; [|split; [|split; [|exact letterbox_example]]].
  - unfold letterbox_plan in Hplan.
    destruct (int_truediv new_w w) as [rx|] eqn:Hrx; [|discriminate].
    destruct (int_truediv new_h h) as [ry|] eqn:Hry; [|discriminate].
    cbn [rbind] in Hplan.
    destruct (float_of_int w) as [fw|] eqn:Hfw; [|discriminate]. cbn [rbind] in Hplan.
    destruct (floor_of_float (fw * float_min rx ry)) as [sw|] eqn:Hsw; [|discriminate].
    cbn [rbind] in Hplan.
    destruct (float_of_int h) as [fh|] eqn:Hfh; [|discriminate]. cbn [rbind] in Hplan.
    destruct (floor_of_float (fh * float_min rx ry)) as [sh|] eqn:Hsh; [|discriminate].
    cbn [rbind] in Hplan. injection Hplan as <-.
    cbn [plan_scale plan_scaled_w plan_scaled_h plan_pad_x plan_pad_y] in *.
    exists (transform_records (float_min rx ry) (float_min rx ry)
              (NInt ((new_w - sw) / 2)) (NInt ((new_h - sh) / 2)) objects).
    split; [|apply transform_records_spec; assumption].
    unfold apply_letterbox. rewrite (size_nonzero a Hv).
    unfold height_width. rewrite Hshape. run. cbv beta iota. rewrite Hrx, Hry.
    rewrite (scaled_size_floor w _ fw Hw Hpos Hfw), Hsw.
    rewrite (scaled_size_floor h _ fh Hh Hpos Hfh), Hsh.
    rewrite Hres. unfold letterbox_canvas in Hcanvas. rewrite Hshape in Hcanvas.
    rewrite Hcanvas, Hpaste.
    rewrite (scale_objects_transform objects _ _ _ _ world0); try assumption; reflexivity.
  - assert (Hpad : plan_pad_x P = (new_w - plan_scaled_w P) / 2).
    { unfold letterbox_plan in Hplan.
      destruct (int_truediv new_w w); [|discriminate].
      destruct (int_truediv new_h h); [|discriminate]. cbn [rbind] in Hplan.
      destruct (float_of_int w); [|discriminate]. cbn [rbind] in Hplan.
      destruct (floor_of_float _); [|discriminate]. cbn [rbind] in Hplan.
      destruct (float_of_int h); [|discriminate]. cbn [rbind] in Hplan.
      destruct (floor_of_float _); [|discriminate]. cbn [rbind] in Hplan.
      injection Hplan as <-. reflexivity. }
    rewrite Hpad.
    pose proof (Z.div_mod (new_w - plan_scaled_w P) 2 ltac:(lia)).
    pose proof (Z.mod_pos_bound (new_w - plan_scaled_w P) 2 ltac:(lia)). lia.
  - assert (Hpad : plan_pad_y P = (new_h - plan_scaled_h P) / 2).
    { unfold letterbox_plan in Hplan.
      destruct (int_truediv new_w w); [|discriminate].
      destruct (int_truediv new_h h); [|discriminate]. cbn [rbind] in Hplan.
      destruct (float_of_int w); [|discriminate]. cbn [rbind] in Hplan.
      destruct (floor_of_float _); [|discriminate]. cbn [rbind] in Hplan.
      destruct (float_of_int h); [|discriminate]. cbn [rbind] in Hplan.
      destruct (floor_of_float _); [|discriminate]. cbn [rbind] in Hplan.
      injection Hplan as <-. reflexivity. }
    rewrite Hpad.
    pose proof (Z.div_mod (new_h - plan_scaled_h P) 2 ltac:(lia)).
    pose proof (Z.mod_pos_bound (new_h - plan_scaled_h P) 2 ltac:(lia)). lia.
Qed.

Lemma apply_letterbox_plan_witness :
  (exists out,
      apply_letterbox (H := shape_only) (Some [50; 100; 3]) [sample_box; sample_no_box]
        200 200 default_color INTER_LINEAR empty_world
      = (Ok (Some [200; 200; 3], out),
         log_also empty_world (missing_box_warnings 0 [sample_box; sample_no_box]))
      /\ Forall2 (transformed (plan_scale (Plan 2 200 100 0 50))
                    (plan_scale (Plan 2 200 100 0 50))
                    (NInt (plan_pad_x (Plan 2 200 100 0 50)))
                    (NInt (plan_pad_y (Plan 2 200 100 0 50))))
           (List.filter (fun obj => has_key obj bounding_box) [sample_box; sample_no_box]) out)
  /\ 0 <= (200 - plan_scaled_w (Plan 2 200 100 0 50) - plan_pad_x (Plan 2 200 100 0 50))
          - plan_pad_x (Plan 2 200 100 0 50) <= 1
  /\ 0 <= (200 - plan_scaled_h (Plan 2 200 100 0 50) - plan_pad_y (Plan 2 200 100 0 50))
          - plan_pad_y (Plan 2 200 100 0 50) <= 1
  /\ letterbox_plan 100 50 200 200 = Ok (Plan 2 200 100 0 50)
  /\ box_transform 2 2 (NInt 0) (NInt 50) (VList [VInt 10; VInt 10; VInt 20; VInt 20])
     = Some (VList [VFloat 20; VFloat 70; VFloat 40; VFloat 90]).
Proof.
  apply (apply_letterbox_plan (H := shape_only) [50; 100; 3] [100; 200; 3] [200; 200; 3]
           [200; 200; 3] 50 100 [3] [sample_box; sample_no_box] 200 200 default_color
           INTER_LINEAR (Plan 2 200 100 0 50) empty_world).
  - vm_compute; reflexivity.
  - vm_compute; reflexivity.
  - lia.
  - lia.
  - vm_compute. reflexivity.
  - vm_compute; reflexivity.
  - vm_compute; reflexivity.
  - vm_compute; reflexivity.
  - vm_compute; reflexivity.
  - vm_compute. reflexivity.
  - vm_compute. reflexivity.
  - forall_by_computation.
Defined.

(** C2 as stated fails: with target width [0] the scale is [0.0], the plan
    is [scaled_w = scaled_h = 0, pad_x = 0, pad_y = 100], BoxTransform with
    it sends [[10,10,20,20]] to [[0,100,0,100]], and [apply_letterbox]
    returns the image and the record as they were. *)
Lemma apply_letterbox_zero_width :
  invalid_image (H := shape_only) (Some [50; 100; 3]) = false
  /\ letterbox_plan 100 50 0 200 = Ok (Plan 0 0 0 0 100)
  /\ box_transform 0 0 (NInt 0) (NInt 100) (VList [VInt 10; VInt 10; VInt 20; VInt 20])
     = Some (VList [VFloat 0; VFloat 100; VFloat 0; VFloat 100])
  /\ apply_letterbox (H := shape_only) (Some [50; 100; 3]) [sample_box] 0 200
       default_color INTER_LINEAR empty_world
     = (Ok (Some [50; 100; 3], [sample_box]),
        log_also empty_world [(ERROR, ErrorDuringLetterboxing CvError)]).
Proof. by_computation. Qed.

(** ** Multiplying by one and adding zero *)


Lemma bounded_inv (m : positive) (e : Z) :
  bounded prec emax m e = true ->
  fexp prec emax (Zpos (digits2_pos m) + e) = e /\ e <= 971.
Proof.
  unfold bounded, canonical_mantissa. intros Hb.
  apply andb_prop in Hb as [Hc He].
  apply Z.eqb_eq in Hc. apply Z.leb_le in He. unfold emax, prec in He. split; [exact Hc | lia].
Qed.





(** ** A quotient of equal integers is one *)



(** ** Exact conversions and unchanged numbers *)

















Lemma size_dims `{Imaging} (a : ndarray) (h w : Z) (rest : list Z) :
  invalid_image (Some a) = false -> shape a = h :: w :: rest -> h <> 0 /\ w <> 0.
Proof.
  unfold invalid_image, size. intros Hv Hs. rewrite Hs in Hv. cbn [fold_right] in Hv.
  apply Z.eqb_neq in Hv. split; intros ->; apply Hv; lia.
Qed.



(** ** [load_kitti_labels] *)

Lemma float_of_string_raises (s : string) (e : exn) :
  float_of_string s = Raise e -> e = ValueError.
Proof.
  unfold float_of_string, sf_of_string.
  destruct (read_sign _) as [neg r].
  destruct (_ || _); [discriminate|].
  destruct (String.eqb _ _); [discriminate|].
  destruct (read_number r) as [[n e10]|]; [discriminate|].
  intros [= <-]. reflexivity.
Qed.

Lemma int_of_string_raises (s : string) (e : exn) :
  int_of_string s = Raise e -> e = ValueError.
Proof.
  unfold int_of_string. destruct (read_sign _) as [neg r].
  destruct (digitpart r) as [[[n cnt] rest]|]; [destruct rest|];
    try discriminate; intros [= <-]; reflexivity.
Qed.

Definition caught_parsing (e : exn) : bool :=
  match e with ValueError | IndexError => true | _ => false end.

Lemma part_raises (parts : list string) (i : nat) (e : exn) :
  part parts i = Raise e -> caught_parsing e = true.
Proof. unfold part. destruct (parts !! i); [discriminate|]. intros [= <-]. reflexivity. Qed.

Lemma float_part_raises (parts : list string) (i : nat) (e : exn) :
  float_part parts i = Raise e -> caught_parsing e = true.
Proof.
  unfold float_part. destruct (part parts i) as [s|e0] eqn:Hp; cbn [rbind].
  - destruct (float_of_string s) as [f|e1] eqn:Hf; cbn [rbind]; [discriminate|].
    intros [= <-]. rewrite (float_of_string_raises s e1 Hf). reflexivity.
  - intros [= <-]. eapply part_raises. eassumption.
Qed.

Lemma int_part_raises (parts : list string) (i : nat) (e : exn) :
  int_part parts i = Raise e -> caught_parsing e = true.
Proof.
  unfold int_part. destruct (part parts i) as [s|e0] eqn:Hp; cbn [rbind].
  - destruct (int_of_string s) as [f|e1] eqn:Hf; cbn [rbind]; [discriminate|].
    intros [= <-]. rewrite (int_of_string_raises s e1 Hf). reflexivity.
  - intros [= <-]. eapply part_raises. eassumption.
Qed.

Lemma score_part_raises (parts : list string) (e : exn) :
  score_part parts = Raise e -> caught_parsing e = true.
Proof.
  unfold score_part. destruct (15 <? length parts)%nat; [apply float_part_raises | discriminate].
Qed.

(** Destructs the results the dictionary display chains, in order. *)
Ltac chain H :=
  repeat match type of H with
         | rbind ?r _ = _ =>
             let E := fresh "E" in destruct r eqn:E; cbn [rbind] in H
         end.

(** Whatever the display raises, the handler of the line catches. *)
Lemma parse_parts_raises (parts : list string) (e : exn) :
  parse_parts parts = Raise e -> caught_parsing e = true.
Proof.
  unfold parse_parts. intros H. chain H; try discriminate; injection H as <-;
    first [ eapply part_raises; eassumption
          | eapply float_part_raises; eassumption
          | eapply int_part_raises; eassumption
          | eapply score_part_raises; eassumption ].
Qed.



Lemma strip_empty_split (s : string) : is_empty s = true -> split s = [].
Proof. destruct s; [reflexivity | discriminate]. Qed.

(** One turn of the loop appends the record of the line, if it has one,
    and touches nothing but the logger. *)
Lemma load_step_record (i : nat) (line : string) (acc : list record) (w : world) :
  exists entries,
    load_step i line acc w
    = (Ok (acc ++ match line_record line with Some obj => [obj] | None => [] end),
       log_also w entries).
Proof.
  unfold load_step, line_record. cbv zeta.
  destruct (is_empty (strip line)) eqn:Hempty.
  - rewrite (strip_empty_split _ Hempty). cbn [length Nat.ltb Nat.leb].
    exists []. unfold ret. rewrite app_nil_r, log_also_nil. reflexivity.
  - destruct (length (split (strip line)) <? 15)%nat.
    + eexists. run. rewrite app_nil_r. reflexivity.
    + run. destruct (parse_parts (split (strip line))) as [obj|e] eqn:Hp.
      * exists []. rewrite log_also_nil. reflexivity.
      * pose proof (parse_parts_raises _ _ Hp) as Hc.
        destruct e; try discriminate; eexists; rewrite app_nil_r; reflexivity.
Qed.

Lemma load_loop_records (lines : list string) :
  forall (i : nat) (acc : list record) (w : world),
  exists entries,
    for_enumerate load_step i lines acc w
    = (Ok (acc ++ omap line_record lines), log_also w entries).
Proof.
  induction lines as [|line rest IH]; intros i acc w.
  - exists []. rewrite for_enumerate_nil, app_nil_r, log_also_nil. reflexivity.
  - rewrite for_enumerate_cons.
    destruct (load_step_record i line acc w) as [e1 ->].
    destruct (IH (S i) (acc ++ match line_record line with Some obj => [obj] | None => [] end)
                (log_also w e1)) as [e2 ->].
    exists (e1 ++ e2). rewrite log_also_app. cbn [omap list_omap].
    destruct (line_record line); rewrite <- app_assoc; reflexivity.
Qed.

(** The whole call: it returns, and what it returns is fixed by what is
    on the disk. *)
Lemma load_kitti_labels_run (label_path : path) (w : world) :
  exists entries,
    load_kitti_labels label_path w
    = (Ok (match read_text (disk w) label_path with
           | Ok text => omap line_record (splitlines text)
           | Raise _ => []
           end),
       log_also w entries).
Proof.
  unfold load_kitti_labels, path_exists, read_text. run. cbn [disk logs].
  destruct (disk w !! label_path) as [nd|] eqn:Hnode; cbn [negb].
  - unfold load_lines, read_text. run. cbn [disk logs]. rewrite Hnode.
    destruct nd as [wr | rd wr text];
      [eexists; cbn [logs disk]; unfold log_also; rewrite <- app_assoc; reflexivity|].
    destruct rd;
      [|eexists; cbn [logs disk]; unfold log_also; rewrite <- app_assoc; reflexivity].
    destruct (load_loop_records (splitlines text) 1 []
                (World ((logs w ++ [(DEBUG, LoadingLabels label_path)])
                        ++ [(DEBUG, FoundLines (length (splitlines text)))]) (disk w)))
      as [es Hes].
    rewrite Hes. cbn [app logs disk log_also]. eexists. unfold log_also.
    rewrite <- !app_assoc. reflexivity.
  - eexists. cbn [logs disk]. unfold log_also. rewrite <- app_assoc. reflexivity.
Qed.




(** The twenty-line file, run through the model. *)
Example load_twenty_lines :
  length (splitlines twenty_text) = 20%nat
  /\ length (split (strip short_line)) = 10%nat
  /\ float_of_string "north" = Raise ValueError
  /\ (let r := load_kitti_labels labels_path (World [] twenty_disk) in
      (match r.1 with Ok objects => Some (length objects) | Raise _ => None end, logs r.2))
     = (Some 18%nat,
        [(DEBUG, LoadingLabels labels_path); (DEBUG, FoundLines 20);
         (WARNING, LineTooShort 5 10); (WARNING, ErrorParsingLine 12 ValueError);
         (DEBUG, LoadedObjects 18)]).
Proof. by_computation. Qed.

(** A path that is not on the disk. *)
Example load_missing_file :
  (let r := load_kitti_labels ["nowhere.txt"] (World [] twenty_disk) in (r.1, logs r.2))
  = (Ok [], [(DEBUG, LoadingLabels ["nowhere.txt"]); (DEBUG, FileNotFound ["nowhere.txt"])]).
Proof. by_computation. Qed.

(** ** Strings *)

Lemma append_cons (c : ascii) (s t : string) : String c s +:+ t = String c (s +:+ t).
Proof. reflexivity. Qed.

Lemma append_nil_l (t : string) : "" +:+ t = t.
Proof. reflexivity. Qed.

Lemma append_nil_r (s : string) : s +:+ "" = s.
Proof. induction s as [|c s IH]; [reflexivity|]. rewrite append_cons, IH. reflexivity. Qed.

Lemma append_assoc (s t u : string) : (s +:+ t) +:+ u = s +:+ (t +:+ u).
Proof.
  induction s as [|c s IH]; [reflexivity|]. rewrite !append_cons, IH. reflexivity.
Qed.

(** ** [write_kitti_labels] *)

Lemma mkdir_exist_ok_dir (fs fs' : filesystem) (d : path) :
  mkdir_exist_ok fs d = Ok fs' -> is_dir fs' d = true.
Proof.
  unfold mkdir_exist_ok, os_mkdir.
  destruct (fs !! d) as [nd|] eqn:Hd.
  - destruct (is_dir fs d) eqn:Hdir; [|discriminate]. intros [= <-]. exact Hdir.
  - destruct (fs !! parent d) as [[[|] | rd wr t]|].
    + intros [= <-]. unfold is_dir. rewrite lookup_insert_eq. reflexivity.
    + destruct (is_dir fs d) eqn:Hdir; [|discriminate]. intros [= <-]. exact Hdir.
    + destruct (is_dir fs d) eqn:Hdir; [|discriminate]. intros [= <-]. exact Hdir.
    + destruct (is_dir fs d) eqn:Hdir; [|discriminate]. intros [= <-]. exact Hdir.
Qed.

(** After a successful [mkdir(parents=True, exist_ok=True)] the directory
    is there. *)
Lemma mkdir_parents_dir (fuel : nat) (fs fs' : filesystem) (d : path) :
  mkdir_parents fuel fs d = Ok fs' -> is_dir fs' d = true.
Proof.
  destruct fuel as [|n]; cbn [mkdir_parents].
  - destruct (os_mkdir fs d) as [fs1|e] eqn:Hmk.
    + intros [= <-]. apply (mkdir_exist_ok_dir fs). unfold mkdir_exist_ok. rewrite Hmk. reflexivity.
    + destruct e; try discriminate;
        (destruct (is_dir fs d) eqn:Hdir; [|discriminate]; intros [= <-]; exact Hdir).
  - destruct (os_mkdir fs d) as [fs1|e] eqn:Hmk.
    + intros [= <-]. apply (mkdir_exist_ok_dir fs). unfold mkdir_exist_ok. rewrite Hmk. reflexivity.
    + destruct e;
        try (destruct (is_dir fs d) eqn:Hdir; [|discriminate]; intros [= <-]; exact Hdir).
      destruct (mkdir_parents n fs (parent d)) as [fs2|e2]; [|discriminate].
      apply mkdir_exist_ok_dir.
Qed.

Lemma append_text_file (fs : filesystem) (p : path) (r wr : bool) (t s : string) :
  append_text (<[p := File r wr t]> fs) p s = <[p := File r wr (t +:+ s)]> fs.
Proof. unfold append_text. rewrite lookup_insert_eq, insert_insert_eq. reflexivity. Qed.

Lemma omap_length_le {A B} (f : A -> option B) (l : list A) :
  (length (omap f l) <= length l)%nat.
Proof.
  induction l as [|x rest IH]; [reflexivity|].
  cbn [omap list_omap length]. destruct (f x); cbn [length]; lia.
Qed.

Section WriteLoop.
Context `{Repr}.
Variable label_path : path.

Lemma has_len_item (obj : record) (k : string) (n : nat) :
  has_key obj k = true ->
  (exists v m, item obj k = Ok v /\ py_len v = Ok m /\ has_len obj k n = (m =? n)%nat)
  \/ (exists v, item obj k = Ok v /\ py_len v = Raise TypeError /\ has_len obj k n = false).
Proof.
  unfold has_key, item, has_len. destruct (obj !! k) as [v|]; [|discriminate]. intros _.
  destruct v as [| z | f | s | l]; cbn [py_len]; eauto 10.
Qed.

(** The two guards of the loop body let through exactly the valid
    records, and log one warning for every other. *)
Lemma write_step_invalid (i : nat) (obj : record) (n : nat) (w : world) :
  valid_record obj = false ->
  exists m, write_step label_path i obj n w = (Ok n, log_also w [(WARNING, m)]).
Proof.
  unfold valid_record, write_step. cbv zeta. intros Hinv.
  destruct (List.filter (fun field => negb (has_key obj field)) required_fields)
    as [|f fs] eqn:Hmissing.
  - assert (Hall : forallb (has_key obj) required_fields = true).
    { apply forallb_forall. intros k Hk.
      destruct (has_key obj k) eqn:Hkey; [reflexivity|].
      assert (Hin : In k (List.filter (fun field => negb (has_key obj field)) required_fields)).
      { apply filter_In. split; [exact Hk | rewrite Hkey; reflexivity]. }
      rewrite Hmissing in Hin. destruct Hin. }
    rewrite Hall in Hinv. cbn [andb] in Hinv.
    assert (Hbb : has_key obj "bounding_box" = true).
    { eapply forallb_forall in Hall; [exact Hall|]. unfold required_fields. simpl. tauto. }
    assert (Hdm : has_key obj "3d_dimensions" = true).
    { eapply forallb_forall in Hall; [exact Hall|]. unfold required_fields. simpl. tauto. }
    assert (Hlc : has_key obj "location" = true).
    { eapply forallb_forall in Hall; [exact Hall|]. unfold required_fields. simpl. tauto. }
    cbn [length Nat.eqb negb]. run. unfold check_sizes.
    destruct (has_len_item obj "bounding_box" 4 Hbb)
      as [(v1 & m1 & Hi1 & Hl1 & E1) | (v1 & Hi1 & Hl1 & E1)];
      rewrite Hi1; cbn [rbind]; rewrite Hl1; cbn [rbind]; [|eexists; reflexivity].
    rewrite E1 in Hinv. destruct (m1 =? 4)%nat; cbn [negb andb] in *; [|eexists; reflexivity].
    destruct (has_len_item obj "3d_dimensions" 3 Hdm)
      as [(v2 & m2 & Hi2 & Hl2 & E2) | (v2 & Hi2 & Hl2 & E2)];
      rewrite Hi2; cbn [rbind]; rewrite Hl2; cbn [rbind]; [|eexists; reflexivity].
    rewrite E2 in Hinv. destruct (m2 =? 3)%nat; cbn [negb andb] in *; [|eexists; reflexivity].
    destruct (has_len_item obj "location" 3 Hlc)
      as [(v3 & m3 & Hi3 & Hl3 & E3) | (v3 & Hi3 & Hl3 & E3)];
      rewrite Hi3; cbn [rbind]; rewrite Hl3; cbn [rbind]; [|eexists; reflexivity].
    rewrite E3 in Hinv. destruct (m3 =? 3)%nat; cbn [negb andb] in *; [discriminate|].
    eexists; reflexivity.
  - cbn [length Nat.eqb negb]. eexists. reflexivity.
Qed.

Lemma write_step_valid (i : nat) (obj : record) (n : nat) (w : world) :
  valid_record obj = true ->
  write_step label_path i obj n w
  = match build_line obj with
    | Ok line => (Ok (S n), World (logs w) (append_text (disk w) label_path line))
    | Raise e => (Ok n, log_also w [(WARNING, ErrorWritingObject i e)])
    end.
Proof.
  unfold valid_record, write_step. cbv zeta. intros Hv.
  apply andb_prop in Hv as [Hv Hlc]. apply andb_prop in Hv as [Hv Hdm].
  apply andb_prop in Hv as [Hall Hbb].
  assert (Hmissing : List.filter (fun field => negb (has_key obj field)) required_fields = []).
  { induction required_fields as [|k ks IH]; [reflexivity|].
    cbn [forallb] in Hall. apply andb_prop in Hall as [Hk Hks].
    cbn [List.filter]. rewrite Hk. cbn [negb]. apply IH. exact Hks. }
  rewrite Hmissing. cbn [length Nat.eqb negb]. run. unfold check_sizes, item.
  unfold has_len in Hbb, Hdm, Hlc.
  destruct (obj !! "bounding_box") as [v1|]; [|discriminate]. cbn [rbind].
  destruct (py_len v1) as [m1|]; [|discriminate]. cbn [rbind]. rewrite Hbb. cbn [negb].
  destruct (obj !! "3d_dimensions") as [v2|]; [|discriminate]. cbn [rbind].
  destruct (py_len v2) as [m2|]; [|discriminate]. cbn [rbind]. rewrite Hdm. cbn [negb].
  destruct (obj !! "location") as [v3|]; [|discriminate]. cbn [rbind].
  destruct (py_len v3) as [m3|]; [|discriminate]. cbn [rbind]. rewrite Hlc. cbn [negb].
  destruct (build_line obj) as [line|e]; reflexivity.
Qed.

(** One turn of the loop: the record's line is appended and counted, or a
    warning is logged. *)
Lemma write_step_line (i : nat) (obj : record) (n : nat) (w : world) :
  exists entries,
    write_step label_path i obj n w
    = (Ok (n + length (omap record_line [obj]))%nat,
       World (logs w ++ entries)
         (match record_line obj with
          | Some line => append_text (disk w) label_path line
          | None => disk w
          end))
    /\ length (List.filter is_warning entries)
       = (1 - length (omap record_line [obj]))%nat.
Proof.
  cbn [omap list_omap]. unfold record_line.
  destruct (valid_record obj) eqn:Hv.
  - rewrite (write_step_valid i obj n w Hv).
    destruct (build_line obj) as [line|e].
    + exists []. rewrite app_nil_r. cbn [length]. rewrite Nat.add_1_r. split; reflexivity.
    + eexists. cbn [length]. rewrite Nat.add_0_r. split; reflexivity.
  - destruct (write_step_invalid i obj n w Hv) as [m ->].
    eexists. cbn [length]. rewrite Nat.add_0_r. split; reflexivity.
Qed.

Lemma write_loop_lines (objects : list record) (r wr : bool) :
  forall (i n : nat) (text : string) (logs0 : list (level * message)) (fs : filesystem),
  exists entries,
    for_enumerate (write_step label_path) i objects n
      (World logs0 (<[label_path := File r wr text]> fs))
    = (Ok (n + length (omap record_line objects))%nat,
       World (logs0 ++ entries)
         (<[label_path := File r wr (text +:+ concat_lines (omap record_line objects))]> fs))
    /\ (length (List.filter is_warning entries)
        = length objects - length (omap record_line objects))%nat.
Proof.
  induction objects as [|obj rest IH]; intros i n text logs0 fs.
  - exists []. rewrite for_enumerate_nil. cbn [omap list_omap concat_lines length].
    rewrite app_nil_r, append_nil_r, Nat.add_0_r. split; reflexivity.
  - rewrite for_enumerate_cons.
    destruct (write_step_line i obj n (World logs0 (<[label_path := File r wr text]> fs)))
      as (e1 & -> & Hw1).
    cbn [logs disk]. cbn [omap list_omap] in *.
    destruct (record_line obj) as [line|].
    + rewrite append_text_file.
      destruct (IH (S i) (n + length [line])%nat (text +:+ line) (logs0 ++ e1) fs)
        as (e2 & -> & Hw2).
      exists (e1 ++ e2). cbn [length concat_lines] in *.
      rewrite append_assoc, <- app_assoc. split; [f_equal; f_equal; lia|].
      rewrite List.filter_app, length_app, Hw1, Hw2. reflexivity.
    + destruct (IH (S i) (n + length (@nil string))%nat text (logs0 ++ e1) fs)
        as (e2 & -> & Hw2).
      exists (e1 ++ e2). cbn [length] in *.
      rewrite <- app_assoc. split; [f_equal; f_equal; lia|].
      rewrite List.filter_app, length_app, Hw1, Hw2.
      pose proof (omap_length_le record_line rest). lia.
Qed.

End WriteLoop.

Lemma open_w_file (fs fs' : filesystem) (p : path) :
  open_w fs p = Ok fs' ->
  is_dir fs (parent p) = true ->
  exists r, fs' = <[p := File r true ""]> fs /\ p <> parent p.
Proof.
  unfold open_w, is_dir. intros Hopen Hdir.
  assert (Hne : forall r wr t, fs !! p = Some (File r wr t) -> p <> parent p).
  { intros r wr t Hp Heq. rewrite <- Heq, Hp in Hdir. discriminate. }
  destruct (fs !! p) as [[wr | r wr t]|] eqn:Hp.
  - discriminate.
  - destruct wr; [|discriminate]. injection Hopen as <-. exists r. split; [reflexivity|].
    eapply Hne. reflexivity.
  - destruct (fs !! parent p) as [[[|] | r wr t]|] eqn:Hpar; try discriminate.
    injection Hopen as <-. exists true. split; [reflexivity|].
    intros Heq. rewrite <- Heq, Hp in Hpar. discriminate.
Qed.




(** The call raises when the parent of the destination is a regular file:
    the directory is made before the [try] block is entered. *)
Example write_raises_under_a_file :
  (let r := write_kitti_labels (labels_path ++ ["x.txt"]) [sample_record]
              (World [] twenty_disk) in
   (r.1, logs r.2))
  = (Raise FileExistsError, [(DEBUG, WritingObjects 1 (labels_path ++ ["x.txt"]))]).
Proof. by_computation. Qed.

(** What a complete record is written as. *)
Example write_sample_record :
  record_line sample_record
  = Some ("Car 0.50 2 -1.500000 10.50 20.25 30.12 40.00 1.50 1.62 3.75 1.00 -2.00 10.00 1.500000"
          +:+ nl).
Proof. by_computation. Qed.

(** ** How far a double moves when written with [p] decimals and read back *)

Lemma bounded_range (m : positive) (e : Z) :
  bounded prec emax m e = true ->
  -1074 <= e <= 971 /\ Zpos m < 2 ^ 53.
Proof.
  intros Hb. destruct (bounded_inv m e Hb) as [Hfexp He].
  unfold fexp, SpecFloat.emin, prec, emax in Hfexp.
  rewrite digits2_log2 in Hfexp.
  split; [lia|].
  apply Z.log2_lt_pow2; lia.
Qed.


Section Nearest.
Variables (n d : positive).

Let E : Z := ratio_exponent n d.
Let q : Z := div_half_even (Zpos n * 2 ^ 1074) (Zpos d * 2 ^ E).

Lemma nearest_quotient_facts :
  0 <= E /\ 0 < Zpos d * 2 ^ E /\ 0 <= q <= 2 ^ 53 /\ (0 < E -> 2 ^ 52 <= q).
Proof.
  destruct (ratio_exponent_bounds n d) as (HE & Hup & Hlow). fold E in HE, Hup, Hlow.
  assert (Hb : 0 < Zpos d * 2 ^ E) by (apply Z.mul_pos_pos; [lia | apply Z.pow_pos_nonneg; lia]).
  split; [exact HE|]. split; [exact Hb|]. split; [split|].
  - apply div_half_even_lower; [exact Hb|]. simpl. lia.
  - apply div_half_even_upper; lia.
  - intros HposE. apply div_half_even_lower; [exact Hb | apply Hlow; exact HposE].
Qed.

(** The value of the rounded quotient, in units of [2^-1074]. *)
Lemma nearest_sf_units (s : bool) :
  sf_is_infinity (nearest_sf s n d) = false ->
  sf_units (nearest_sf s n d) = Some (cond_Zopp s (q * 2 ^ E)).
Proof.
  destruct nearest_quotient_facts as (HE & Hb & [Hq0 Hq53] & Hq52).
  unfold nearest_sf, round_ratio. cbv zeta. fold E. fold q.
  destruct (Z.eqb_spec q (2 ^ 53)) as [Heq | Hne].
  - change (2 ^ 52) with (Zpos 4503599627370496).
    destruct (Z.leb_spec (E + 1 - 1074) 971); [|discriminate]. intros _.
    cbn [sf_units]. f_equal. f_equal. rewrite Heq.
    replace (E + 1 - 1074 + 1074) with (E + 1) by lia.
    rewrite Z.pow_add_r by lia. change (2 ^ 53) with (4503599627370496 * 2 ^ 1). lia.
  - destruct q as [| mq | mq] eqn:Hq; [intros _; destruct s; reflexivity | | lia].
    destruct (Z.leb_spec (E - 1074) 971); [|discriminate]. intros _.
    cbn [sf_units]. f_equal. f_equal. f_equal. f_equal. lia.
Qed.

(** When the rounding overflows, the quotient is at least the largest
    double plus half a unit of its last place. *)
Lemma nearest_sf_overflows (s : bool) :
  sf_is_infinity (nearest_sf s n d) = true ->
  (2 ^ 54 - 1) * (Zpos d * 2 ^ 2045) <= 2 * (Zpos n * 2 ^ 1074).
Proof.
  destruct nearest_quotient_facts as (HE & Hb & [Hq0 Hq53] & Hq52).
  destruct (ratio_exponent_bounds n d) as (_ & Hup & Hlow). fold E in Hup, Hlow.
  pose proof (div_half_even_near (Zpos n * 2 ^ 1074) (Zpos d * 2 ^ E) Hb) as Hnear.
  fold q in Hnear.
  assert (Hmono : forall a b, 0 <= a <= b -> Zpos d * 2 ^ a <= Zpos d * 2 ^ b).
  { intros a b Hab. apply Z.mul_le_mono_nonneg_l; [lia | apply Z.pow_le_mono_r; lia]. }
  assert (H2045 : 0 < Zpos d * 2 ^ 2045)
    by (apply Z.mul_pos_pos; [lia | apply Z.pow_pos_nonneg; lia]).
  unfold nearest_sf, round_ratio. cbv zeta. fold E. fold q.
  destruct (Z.eqb_spec q (2 ^ 53)) as [Heq | Hne].
  - change (2 ^ 52) with (Zpos 4503599627370496).
    destruct (Z.leb_spec (E + 1 - 1074) 971) as [|Hbig]; [discriminate|]. intros _.
    pose proof (Hmono 2045 E ltac:(lia)) as HbE.
    rewrite Heq in Hnear.
    assert (2 * (2 ^ 53 * (Zpos d * 2 ^ E)) - Zpos d * 2 ^ E <= 2 * (Zpos n * 2 ^ 1074)) by lia.
    change (2 ^ 54) with (2 * 2 ^ 53). nia.
  - destruct q as [| mq | mq] eqn:Hq; [discriminate | | lia].
    destruct (Z.leb_spec (E - 1074) 971) as [|Hbig]; [discriminate|]. intros _.
    pose proof (Hmono 2046 E ltac:(lia)) as HbE.
    specialize (Hlow ltac:(lia)).
    replace (2 ^ 2046) with (2 * 2 ^ 2045) in HbE
      by (change 2046 with (1 + 2045); rewrite Z.pow_add_r by lia; reflexivity).
    change (2 ^ 54) with (4 * 2 ^ 52). nia.
Qed.

(** No double is nearer to [n/d] than the rounded quotient. *)
Lemma nearest_quotient_nearest (m : positive) (e : Z) :
  bounded prec emax m e = true ->
  Z.abs (q * (Zpos d * 2 ^ E) - Zpos n * 2 ^ 1074)
  <= Z.abs (Zpos m * 2 ^ (e + 1074) * Zpos d - Zpos n * 2 ^ 1074).
Proof.
  intros Hbd. destruct (bounded_range m e Hbd) as [[He1 He2] Hm].
  destruct nearest_quotient_facts as (HE & Hb & [Hq0 Hq53] & Hq52).
  destruct (ratio_exponent_bounds n d) as (_ & Hup & Hlow). fold E in Hup, Hlow.
  destruct (Z_le_gt_dec E (e + 1074)) as [Hle | Hgt].
  - replace (Zpos m * 2 ^ (e + 1074) * Zpos d)
      with ((Zpos m * 2 ^ (e + 1074 - E)) * (Zpos d * 2 ^ E)).
    + apply div_half_even_nearest. exact Hb.
    + replace (2 ^ (e + 1074)) with (2 ^ (e + 1074 - E) * 2 ^ E)
        by (rewrite <- Z.pow_add_r by lia; f_equal; lia).
      ring.
  - specialize (Hlow ltac:(lia)).
    pose proof (div_half_even_nearest (Zpos n * 2 ^ 1074) (Zpos d * 2 ^ E) Hb (2 ^ 52)) as Hn.
    fold q in Hn.
    assert (Hx : Zpos m * 2 ^ (e + 1074) * Zpos d <= 2 ^ 52 * (Zpos d * 2 ^ E)).
    { assert (Hpow : 2 * 2 ^ (e + 1074) <= 2 ^ E).
      { replace (2 * 2 ^ (e + 1074)) with (2 ^ (e + 1074 + 1))
          by (rewrite Z.pow_add_r by lia; change (2 ^ 1) with 2; lia).
        apply Z.pow_le_mono_r; lia. }
      assert (Hk : 0 < 2 ^ (e + 1074)) by (apply Z.pow_pos_nonneg; lia).
      change (2 ^ 53) with (2 * 2 ^ 52) in Hm.
      assert (Zpos m * 2 ^ (e + 1074) <= 2 ^ 52 * 2 ^ E) by nia.
      nia. }
    lia.
Qed.

End Nearest.





(** ** Decimal numerals, written and read *)




Ltac code_cases :=
  repeat match goal with
         | |- context [?a <=? ?b] => destruct (Z.leb_spec a b)
         | |- context [?a =? ?b] => destruct (Z.eqb_spec a b)
         | H : context [?a <=? ?b] |- _ => destruct (Z.leb_spec a b)
         | H : context [?a =? ?b] |- _ => destruct (Z.eqb_spec a b)
         end; simpl in *; try lia; try congruence.

Lemma digit_not_space (c : ascii) : is_digit c = true -> is_space c = false.
Proof. unfold is_digit, is_space. cbv zeta. generalize (code c). intros n H. code_cases. Qed.

Lemma numeric_space_is_space (c : ascii) : is_numeric_space c = true -> is_space c = true.
Proof.
  unfold is_numeric_space, is_space. cbv zeta. generalize (code c). intros n H. code_cases.
Qed.


Lemma digit_val_is_digit (c : ascii) (d : Z) : digit_val c = Some d -> is_digit c = true.
Proof.
  unfold digit_val, is_digit. destruct ((48 <=? code c) && (code c <=? 57)); congruence.
Qed.




























(** ** Tokens and lines, written and read *)

Lemma is_empty_nil (s : string) : is_empty s = true -> s = "".
Proof. destruct s; [reflexivity | discriminate]. Qed.

Lemma is_empty_app (s t : string) : is_empty s = false -> is_empty (s +:+ t) = false.
Proof. destruct s; [discriminate | reflexivity]. Qed.

(** [s.strip().split()] is [s.split()]. *)
Lemma split_lstrip (s : string) : split (lstrip_with is_space s) = split s.
Proof.
  unfold split. induction s as [|c r IH]; [reflexivity|].
  cbn [lstrip_with split_from is_empty]. destruct (is_space c) eqn:Hc.
  - exact IH.
  - cbn [split_from]. rewrite Hc. reflexivity.
Qed.

Lemma split_rstrip (s : string) :
  forall cur, split_from cur (rstrip_with is_space s) = split_from cur s.
Proof.
  induction s as [|c r IH]; intros cur; [reflexivity|].
  cbn [rstrip_with]. destruct (is_empty (rstrip_with is_space r)) eqn:He.
  - cbn [andb]. destruct (is_space c) eqn:Hc.
    + cbn [split_from]. rewrite Hc.
      rewrite <- (IH ""), (is_empty_nil _ He). cbn [split_from is_empty].
      destruct (is_empty cur); reflexivity.
    + cbn [split_from]. rewrite Hc. apply IH.
  - cbn [andb split_from]. rewrite !IH. reflexivity.
Qed.

Lemma split_strip (s : string) : split (strip s) = split s.
Proof.
  unfold strip, strip_with. unfold split at 1. rewrite split_rstrip. apply split_lstrip.
Qed.











(** ** The round trip of one record *)

Lemma forallb_is_float (l : list value) :
  forallb is_float l = true -> exists fs, l = map VFloat fs.
Proof.
  induction l as [|v l IH]; [exists []; reflexivity|].
  cbn [forallb]. intros Hl. apply andb_prop in Hl as [Hv Hl].
  destruct (IH Hl) as [fs ->]. destruct v; try discriminate.
  exists (f :: fs). reflexivity.
Qed.


Lemma float_list_4 (v : value) :
  float_list 4 v = true ->
  exists a b c d, v = VList [VFloat a; VFloat b; VFloat c; VFloat d].
Proof.
  destruct v as [| | | | l]; try discriminate. cbn [float_list].
  intros Hl. apply andb_prop in Hl as [Hlen Hall].
  destruct (forallb_is_float l Hall) as [fs ->].
  destruct fs as [|a [|b [|c [|d [|e fs]]]]]; try discriminate. eauto 6.
Qed.





(** ** Writing, then reading *)


(** Once the destination is open, every record that has a line is
    written and the call returns [True]. *)
Lemma write_kitti_labels_opened `{Repr} (label_path : path) (objects : list record)
    (w : world) (fs1 fs2 : filesystem) :
  mkdir_parents (length (parent label_path)) (disk w) (parent label_path) = Ok fs1 ->
  open_w fs1 label_path = Ok fs2 ->
  exists entries r,
    fs2 = <[label_path := File r true ""]> fs1
    /\ write_kitti_labels label_path objects w
       = (Ok true,
          World (logs w ++ entries)
            (<[label_path := File r true (concat_lines (omap record_line objects))]> fs1))
    /\ (length (List.filter is_warning entries)
        = length objects - length (omap record_line objects))%nat.
Proof.
  intros Hmk Hopen. pose proof (mkdir_parents_dir _ _ _ _ Hmk) as Hdir.
  destruct (open_w_file fs1 fs2 label_path Hopen Hdir) as (r & Hfs2 & _).
  unfold write_kitti_labels. run. cbn [logs disk]. rewrite Hmk. cbn [logs disk].
  rewrite Hopen, Hfs2.
  destruct (write_loop_lines label_path objects r true 0 0%nat ""
              (logs w ++ [(DEBUG, WritingObjects (length objects) label_path)]) fs1)
    as (es & Hloop & Hwarn).
  rewrite Hloop. cbn [logs disk]. rewrite append_nil_l.
  exists ([(DEBUG, WritingObjects (length objects) label_path)] ++ es
          ++ [(DEBUG, WroteObjects (0 + length (omap record_line objects)))]), r.
  split; [reflexivity|]. split; [rewrite <- !app_assoc; reflexivity|].
  rewrite !List.filter_app, !length_app. cbn [List.filter is_warning fst length].
  rewrite Hwarn. lia.
Qed.





(** Outside the data model the round trip can lose a record: one whose
    class name is two words is written as a line of sixteen tokens, which
    does not read back. *)
Example roundtrip_loses_two_word_class :
  valid_record sample_two_words = true
  /\ no_score sample_two_words = true
  /\ (write_kitti_labels root_file [sample_two_words] root_world).1 = Ok true
  /\ omap record_line [sample_two_words]
     = ["Traffic Light 0.50 2 -1.500000 10.50 20.25 30.12 40.00 1.50 1.62 3.75 1.00 -2.00 10.00 1.500000"
        +:+ nl]
  /\ (load_kitti_labels root_file
        (write_kitti_labels root_file [sample_two_words] root_world).2).1
     = Ok [].
Proof. by_computation. Qed.

(** ** [scale_objects] on any input *)

Lemma affine_raises (x : value) (scale : float) (offset : number) (e : exn) :
  affine x scale offset = Raise e ->
  e = TypeError \/ (e = OverflowError /\ (huge_int x = true \/ number_ok offset = false)).
Proof.
  unfold affine, mul_float, add_number, huge_int, number_ok, float_of_int.
  destruct x as [| z | f | s | l]; try (intros [= <-]; left; reflexivity).
  - destruct (sf_is_infinity (nearest_double z 1)); [intros [= <-]; auto|].
    destruct offset as [o | g]; [|discriminate].
    destruct (sf_is_infinity (nearest_double o 1)); [intros [= <-]; auto | discriminate].
  - destruct offset as [o | g]; [|discriminate].
    destruct (sf_is_infinity (nearest_double o 1)); [intros [= <-]; auto | discriminate].
Qed.

Section ScaleAny.
Variables (scale_x scale_y : float) (offset_x offset_y : number).

(** What the [try] block can raise, and what it stores. *)
Lemma scale_one_raises (obj : record) (e : exn) :
  has_key obj bounding_box = true ->
  scale_one obj scale_x scale_y offset_x offset_y = Raise e ->
  caught_scaling e = true
  \/ (e = OverflowError
      /\ (box_has_huge obj = true \/ number_ok offset_x = false \/ number_ok offset_y = false)).
Proof.
  unfold has_key, scale_one, item, box_has_huge.
  destruct (obj !! bounding_box) as [bb|]; [|discriminate]. intros _. cbn [rbind].
  destruct (unpack4 bb) as [[[[x1 y1] x2] y2]|e0] eqn:Hu; cbn [rbind].
  - assert (Hbox : forall v, In v [x1; y1; x2; y2] -> huge_int v = true ->
                             match bb with VList l => existsb huge_int l | _ => false end = true).
    { intros v Hin Hv. unfold unpack4 in Hu. destruct bb as [| | | s | l]; try discriminate.
      - destruct (chars s) as [|a [|b [|c [|d [|? ?]]]]] eqn:Hs; try discriminate.
        injection Hu as <- <- <- <-.
        assert (Hstr : Forall (fun u => exists t, u = VStr t) (chars s)).
        { clear. induction s as [|c s IH]; constructor; eauto. }
        rewrite Hs in Hstr. rewrite Forall_forall in Hstr.
        destruct (Hstr v) as [t ->]; [apply list_elem_of_In; exact Hin | discriminate].
      - destruct l as [|a [|b [|c [|d [|? ?]]]]]; try discriminate.
        injection Hu as <- <- <- <-. apply existsb_exists. eauto. }
    destruct (affine x1 scale_x offset_x) as [a|e1] eqn:H1; cbn [rbind].
    2:{ intros [= <-]. destruct (affine_raises _ _ _ _ H1) as [-> | [-> [Hh | Ho]]]; auto.
        right. split; [reflexivity|]. left. apply (Hbox x1); simpl; auto. }
    destruct (affine y1 scale_y offset_y) as [b|e1] eqn:H2; cbn [rbind].
    2:{ intros [= <-]. destruct (affine_raises _ _ _ _ H2) as [-> | [-> [Hh | Ho]]]; auto.
        right. split; [reflexivity|]. left. apply (Hbox y1); simpl; auto. }
    destruct (affine x2 scale_x offset_x) as [c|e1] eqn:H3; cbn [rbind].
    2:{ intros [= <-]. destruct (affine_raises _ _ _ _ H3) as [-> | [-> [Hh | Ho]]]; auto.
        right. split; [reflexivity|]. left. apply (Hbox x2); simpl; auto. }
    destruct (affine y2 scale_y offset_y) as [d|e1] eqn:H4; cbn [rbind]; [discriminate|].
    intros [= <-]. destruct (affine_raises _ _ _ _ H4) as [-> | [-> [Hh | Ho]]]; auto.
    right. split; [reflexivity|]. left. apply (Hbox y2); simpl; auto.
  - intros [= <-]. left. eapply unpack4_raises. exact Hu.
Qed.

Lemma scale_one_stores (obj r : record) :
  scale_one obj scale_x scale_y offset_x offset_y = Ok r ->
  exists a b c d, r = <[bounding_box := VList [VFloat a; VFloat b; VFloat c; VFloat d]]> obj.
Proof.
  unfold scale_one, item.
  destruct (obj !! bounding_box) as [bb|]; [|discriminate]. cbn [rbind].
  destruct (unpack4 bb) as [[[[x1 y1] x2] y2]|e0]; [|discriminate]. cbn [rbind].
  destruct (affine x1 scale_x offset_x) as [a|]; [|discriminate]. cbn [rbind].
  destruct (affine y1 scale_y offset_y) as [b|]; [|discriminate]. cbn [rbind].
  destruct (affine x2 scale_x offset_x) as [c|]; [|discriminate]. cbn [rbind].
  destruct (affine y2 scale_y offset_y) as [d|]; [|discriminate]. cbn [rbind].
  intros [= <-]. eauto.
Qed.

(** The loop on any list of records: what it returns, what it logs, and
    the one way it can fail. *)
Lemma scale_loop_cases (objects : list record) :
  forall (i : nat) (acc : list record) (w : world),
  match for_enumerate (scale_step scale_x scale_y offset_x offset_y) i objects acc w with
  | (Ok out, w') =>
      exists kept entries,
        out = acc ++ kept /\ w' = log_also w entries
        /\ Forall (fun entry => is_warning entry = true) entries
        /\ (length kept + length entries = length objects)%nat
        /\ map (delete bounding_box) kept `sublist_of` map (delete bounding_box) objects
        /\ Forall (fun r => field_is (float_list 4) r bounding_box = true) kept
  | (Raise e, w') =>
      e = OverflowError
      /\ (existsb box_has_huge objects = true
          \/ number_ok offset_x = false \/ number_ok offset_y = false)
  end.
Proof.
  induction objects as [|obj rest IH]; intros i acc w.
  - rewrite for_enumerate_nil. exists [], []. rewrite app_nil_r, log_also_nil.
    repeat split; constructor.
  - rewrite for_enumerate_cons. cbn [existsb].
    destruct (has_key obj bounding_box) eqn:Hk.
    + destruct (scale_one obj scale_x scale_y offset_x offset_y) as [r|e] eqn:Hone.
      * rewrite (scale_step_kept _ _ _ _ i obj r acc w Hk Hone).
        specialize (IH (S i) (acc ++ [r]) w).
        destruct (for_enumerate _ (S i) rest (acc ++ [r]) w) as [[out|e] w'].
        -- destruct IH as (kept & entries & -> & -> & Hw & Hlen & Hsub & Hbox).
           exists (r :: kept), entries. rewrite <- app_assoc.
           split; [reflexivity|]. split; [reflexivity|]. split; [exact Hw|].
           split; [cbn [length]; lia|].
           destruct (scale_one_stores obj r Hone) as (a & b & c & d & ->).
           split.
           ++ cbn [map]. rewrite delete_insert_eq. apply sublist_skip. exact Hsub.
           ++ constructor; [|exact Hbox]. unfold field_is. rewrite lookup_insert_eq.
              reflexivity.
        -- destruct IH as [-> Hwhy]. split; [reflexivity|].
           destruct Hwhy as [-> | Hwhy]; [left; apply orb_true_r | right; exact Hwhy].
      * destruct (scale_one_raises obj e Hk Hone) as [Hc | [-> Hwhy]].
        -- rewrite (scale_step_dropped _ _ _ _ i obj e acc w Hk Hone Hc).
           specialize (IH (S i) acc (log_also w [(WARNING, ErrorScalingObject i e)])).
           destruct (for_enumerate _ (S i) rest acc _) as [[out|e'] w'].
           ++ destruct IH as (kept & entries & -> & -> & Hw & Hlen & Hsub & Hbox).
              exists kept, ((WARNING, ErrorScalingObject i e) :: entries).
              rewrite log_also_app.
              split; [reflexivity|]. split; [reflexivity|].
              split; [constructor; [reflexivity | exact Hw]|].
              split; [cbn [length]; lia|].
              split; [cbn [map]; apply sublist_cons; exact Hsub | exact Hbox].
           ++ destruct IH as [-> Hwhy]. split; [reflexivity|].
              destruct Hwhy as [-> | Hwhy]; [left; apply orb_true_r | right; exact Hwhy].
        -- unfold scale_step. rewrite Hk. cbn [negb]. run. rewrite Hone.
           split; [reflexivity|].
           destruct Hwhy as [-> | Hwhy]; [left; reflexivity | right; exact Hwhy].
    + rewrite (scale_step_missing _ _ _ _ i obj acc w Hk).
      specialize (IH (S i) acc (log_also w [(WARNING, ObjectMissingBoundingBox i)])).
      destruct (for_enumerate _ (S i) rest acc _) as [[out|e'] w'].
      * destruct IH as (kept & entries & -> & -> & Hw & Hlen & Hsub & Hbox).
        exists kept, ((WARNING, ObjectMissingBoundingBox i) :: entries).
        rewrite log_also_app.
        split; [reflexivity|]. split; [reflexivity|].
        split; [constructor; [reflexivity | exact Hw]|].
        split; [cbn [length]; lia|].
        split; [cbn [map]; apply sublist_cons; exact Hsub | exact Hbox].
      * destruct IH as [-> Hwhy]. split; [reflexivity|].
        destruct Hwhy as [-> | Hwhy]; [left; apply orb_true_r | right; exact Hwhy].
Qed.

End ScaleAny.

Lemma scale_objects_loop (objects : list record) (scale_x scale_y : float)
    (offset_x offset_y : number) :
  (scale_x <=? 0)%float = false -> (scale_y <=? 0)%float = false ->
  scale_objects objects scale_x scale_y offset_x offset_y
  = for_enumerate (scale_step scale_x scale_y offset_x offset_y) 0 objects [].
Proof. intros Hx Hy. unfold scale_objects. rewrite Hx, Hy. reflexivity. Qed.

Lemma scale_objects_keeps_fields_aux (objects out : list record) (scale_x scale_y : float)
    (offset_x offset_y : number) (w w' : world) :
  (scale_x <=? 0)%float = false -> (scale_y <=? 0)%float = false ->
  scale_objects objects scale_x scale_y offset_x offset_y w = (Ok out, w') ->
  Forall (fun r => field_is (float_list 4) r bounding_box = true) out.
Proof.
  intros Hx Hy Hrun. rewrite (scale_objects_loop _ _ _ _ _ Hx Hy) in Hrun.
  pose proof (scale_loop_cases scale_x scale_y offset_x offset_y objects 0 [] w) as Hc.
  rewrite Hrun in Hc. destruct Hc as (kept & entries & -> & -> & _ & _ & _ & Hbox).
  exact Hbox.
Qed.

(** X2: with both scales above zero (or NaN), [scale_objects] accounts
    for every record: each input record is either returned or has one
    warning logged for it; nothing else is logged and the disk is left
    alone. *)
Theorem scale_objects_accounts (objects out : list record) (scale_x scale_y : float)
    (offset_x offset_y : number) (w w' : world) :
  (scale_x <=? 0)%float = false -> (scale_y <=? 0)%float = false ->
  scale_objects objects scale_x scale_y offset_x offset_y w = (Ok out, w') ->
  exists entries,
    w' = log_also w entries
    /\ Forall (fun entry => is_warning entry = true) entries
    /\ (length out + length entries = length objects)%nat.
Proof.
  intros Hx Hy Hrun. rewrite (scale_objects_loop _ _ _ _ _ Hx Hy) in Hrun.
  pose proof (scale_loop_cases scale_x scale_y offset_x offset_y objects 0 [] w) as Hc.
  rewrite Hrun in Hc. destruct Hc as (kept & entries & -> & -> & Hw & Hlen & _).
  exists entries. auto.
Qed.

Lemma scale_objects_accounts_witness :
  exists entries,
    log_also empty_world
      [(WARNING, ObjectMissingBoundingBox 1); (WARNING, ErrorScalingObject 2 ValueError)]
    = log_also empty_world entries
    /\ Forall (fun entry => is_warning entry = true) entries
    /\ (length [<[bounding_box := VList [VFloat 20; VFloat 20; VFloat 40; VFloat 40]]> sample_box]
        + length entries
        = length [sample_box; sample_no_box; sample_short_box])%nat.
Proof.
  apply (scale_objects_accounts [sample_box; sample_no_box; sample_short_box] _ 2 2
           (NFloat 0) (NFloat 0) empty_world); vm_compute; reflexivity.
Defined.

(** X3: the one exception [scale_objects] lets out is [OverflowError],
    and only when an [int] of a box or an [int] offset is too large for a
    [float]; every other failure of a record is caught and the record
    dropped. *)
Theorem scale_objects_raises_overflow_only (objects : list record) (scale_x scale_y : float)
    (offset_x offset_y : number) (w w' : world) (e : exn) :
  scale_objects objects scale_x scale_y offset_x offset_y w = (Raise e, w') ->
  e = OverflowError
  /\ (existsb box_has_huge objects = true
      \/ number_ok offset_x = false \/ number_ok offset_y = false).
Proof.
  unfold scale_objects.
  destruct ((scale_x <=? 0)%float || (scale_y <=? 0)%float); [discriminate|].
  intros Hrun.
  pose proof (scale_loop_cases scale_x scale_y offset_x offset_y objects 0 [] w) as Hc.
  rewrite Hrun in Hc. exact Hc.
Qed.

Lemma scale_objects_raises_overflow_only_witness :
  OverflowError = OverflowError
  /\ (existsb box_has_huge [sample_box; sample_huge_box] = true
      \/ number_ok (NFloat 0) = false \/ number_ok (NFloat 0) = false).
Proof.
  apply (scale_objects_raises_overflow_only [sample_box; sample_huge_box] 2 2
           (NFloat 0) (NFloat 0) empty_world empty_world).
  vm_compute. reflexivity.
Defined.

(** X4: with both scales above zero (or NaN), the records that
    [scale_objects] returns are input records in their input order, none
    twice, each with nothing but its ['bounding_box'] replaced, and the new
    box is always a list of four floats. *)
Theorem scale_objects_keeps_fields (objects out : list record) (scale_x scale_y : float)
    (offset_x offset_y : number) (w w' : world) :
  (scale_x <=? 0)%float = false -> (scale_y <=? 0)%float = false ->
  scale_objects objects scale_x scale_y offset_x offset_y w = (Ok out, w') ->
  map (delete bounding_box) out `sublist_of` map (delete bounding_box) objects
  /\ Forall (fun r => field_is (float_list 4) r bounding_box = true) out.
Proof.
  intros Hx Hy Hrun. rewrite (scale_objects_loop _ _ _ _ _ Hx Hy) in Hrun.
  pose proof (scale_loop_cases scale_x scale_y offset_x offset_y objects 0 [] w) as Hc.
  rewrite Hrun in Hc. destruct Hc as (kept & entries & -> & -> & _ & _ & Hsub & Hbox).
  split; assumption.
Qed.

Lemma scale_objects_keeps_fields_witness :
  map (delete bounding_box)
    [<[bounding_box := VList [VFloat 20; VFloat 20; VFloat 40; VFloat 40]]> sample_box]
    `sublist_of` map (delete bounding_box) [sample_box; sample_no_box; sample_short_box]
  /\ Forall (fun r => field_is (float_list 4) r bounding_box = true)
       [<[bounding_box := VList [VFloat 20; VFloat 20; VFloat 40; VFloat 40]]> sample_box].
Proof.
  apply (scale_objects_keeps_fields [sample_box; sample_no_box; sample_short_box] _ 2 2
           (NFloat 0) (NFloat 0) empty_world
           (log_also empty_world
              [(WARNING, ObjectMissingBoundingBox 1);
               (WARNING, ErrorScalingObject 2 ValueError)])); vm_compute; reflexivity.
Defined.

Lemma float_box_well_formed (r : record) :
  field_is (float_list 4) r bounding_box = true ->
  has_key r bounding_box = true /\ well_formed r = true.
Proof.
  unfold field_is, has_key, well_formed.
  destruct (r !! bounding_box) as [bb|]; [|discriminate]. intros Hbb.
  destruct (float_list_4 bb Hbb) as (a & b & c & d & ->). split; reflexivity.
Qed.

Lemma float_boxes_no_warnings (out : list record) :
  Forall (fun r => field_is (float_list 4) r bounding_box = true) out ->
  forall i, missing_box_warnings i out = [].
Proof.
  induction 1 as [|r rest Hr Hrest IH]; intros i; [reflexivity|].
  cbn [missing_box_warnings]. destruct (float_box_well_formed r Hr) as [-> _].
  apply IH.
Qed.

Lemma float_boxes_transform_length (scale_x scale_y : float) (offset_x offset_y : number)
    (out : list record) :
  number_ok offset_x = true -> number_ok offset_y = true ->
  Forall (fun r => field_is (float_list 4) r bounding_box = true) out ->
  length (transform_records scale_x scale_y offset_x offset_y out) = length out.
Proof.
  intros Hox Hoy. unfold transform_records.
  induction 1 as [|r rest Hr Hrest IH]; [reflexivity|].
  cbn [omap list_omap]. unfold transform_record at 1.
  unfold field_is in Hr. destruct (r !! bounding_box) as [bb|]; [|discriminate].
  destruct (float_list_4 bb Hr) as (a & b & c & d & ->).
  destruct (numeric_box_transform scale_x scale_y offset_x offset_y
              (VList [VFloat a; VFloat b; VFloat c; VFloat d]) eq_refl Hox Hoy)
    as (? & ? & ? & ? & ? & ? & ? & ? & _ & _ & _ & _ & _ & ->).
  cbn [length]. rewrite IH. reflexivity.
Qed.

(** X5: scaling composes. What [scale_objects] returns can be scaled
    again: with scales above zero (or NaN) and offsets that are floats or
    convertible ints, the second call returns as many records as it is
    given and logs nothing. *)
Theorem scale_objects_rescale (objects out : list record) (scale_x scale_y : float)
    (offset_x offset_y : number) (w w' : world)
    (scale_x' scale_y' : float) (offset_x' offset_y' : number) :
  (scale_x <=? 0)%float = false -> (scale_y <=? 0)%float = false ->
  (scale_x' <=? 0)%float = false -> (scale_y' <=? 0)%float = false ->
  number_ok offset_x' = true -> number_ok offset_y' = true ->
  scale_objects objects scale_x scale_y offset_x offset_y w = (Ok out, w') ->
  exists out',
    scale_objects out scale_x' scale_y' offset_x' offset_y' w' = (Ok out', w')
    /\ length out' = length out.
Proof.
  intros Hx Hy Hx' Hy' Hox Hoy Hrun.
  pose proof (scale_objects_keeps_fields_aux objects out scale_x scale_y offset_x offset_y
                w w' Hx Hy Hrun) as Hbox.
  assert (Hwf : Forall (fun obj => well_formed obj = true) out).
  { eapply Forall_impl; [exact Hbox|]. intros r Hr. apply (float_box_well_formed r Hr). }
  rewrite (scale_objects_loop _ _ _ _ _ Hx' Hy').
  rewrite (scale_loop_well_formed scale_x' scale_y' offset_x' offset_y' out Hox Hoy Hwf).
  rewrite (float_boxes_no_warnings out Hbox), log_also_nil.
  eexists. split; [reflexivity|].
  apply float_boxes_transform_length; assumption.
Qed.

Lemma scale_objects_rescale_witness :
  exists out',
    scale_objects
      [<[bounding_box := VList [VFloat 20; VFloat 20; VFloat 40; VFloat 40]]> sample_box]
      0.5 0.5 (NInt 0) (NInt 50)
      (log_also empty_world
         [(WARNING, ObjectMissingBoundingBox 1); (WARNING, ErrorScalingObject 2 ValueError)])
    = (Ok out',
       log_also empty_world
         [(WARNING, ObjectMissingBoundingBox 1); (WARNING, ErrorScalingObject 2 ValueError)])
    /\ length out'
       = length [<[bounding_box := VList [VFloat 20; VFloat 20; VFloat 40; VFloat 40]]>
                   sample_box].
Proof.
  apply (scale_objects_rescale [sample_box; sample_no_box; sample_short_box] _ 2 2
           (NFloat 0) (NFloat 0) empty_world _ 0.5 0.5 (NInt 0) (NInt 50));
    vm_compute; reflexivity.
Defined.

(** ** [apply_stretch] and [apply_letterbox] on any input *)

Lemma overflow_bound_arith (n d A T U B C : Z) :
  0 < A -> 0 < T -> 1 <= d -> n < U -> B <= C - 1 -> 0 <= B ->
  2 * (U * T) = B * A ->
  (C - 1) * (d * A) <= 2 * (n * T) ->
  False.
Proof.
  intros HA HT Hd Hn HBC HB Hsplit Hov.
  assert (H1 : 2 * (n * T) < B * A) by nia.
  assert (H2 : B * A <= (C - 1) * A) by nia.
  assert (H3 : (C - 1) * A <= (C - 1) * (d * A)) by nia.
  lia.
Qed.

(** A quotient of an [int] below [2^1023] by a non-zero [int] is a
    [float]. *)
Lemma nearest_double_finite (n : Z) (d : positive) :
  Z.abs n < 2 ^ 1023 -> sf_is_infinity (nearest_double n d) = false.
Proof.
  intros Hn.
  assert (Hsf : forall s p, Zpos p < 2 ^ 1023 -> sf_is_infinity (nearest_sf s p d) = false).
  { intros s p Hp. destruct (sf_is_infinity (nearest_sf s p d)) eqn:Hinf; [|reflexivity].
    pose proof (nearest_sf_overflows p d s Hinf) as Hov. exfalso.
    assert (H2045 : 0 < 2 ^ 2045) by (apply Z.pow_pos_nonneg; lia).
    assert (H1074 : 0 < 2 ^ 1074) by (apply Z.pow_pos_nonneg; lia).
    assert (Hsplit : 2 * (2 ^ 1023 * 2 ^ 1074) = 2 ^ 53 * 2 ^ 2045).
    { rewrite <- !Z.pow_add_r by lia. change 2 with (2 ^ 1) at 1.
      rewrite <- Z.pow_add_r by lia. reflexivity. }
    assert (H54 : 2 ^ 53 <= 2 ^ 54 - 1) by (vm_compute; discriminate).
    assert (H53 : 0 <= 2 ^ 53) by (vm_compute; discriminate).
    exact (overflow_bound_arith (Zpos p) (Zpos d) (2 ^ 2045) (2 ^ 1074) (2 ^ 1023)
             (2 ^ 53) (2 ^ 54) H2045 H1074 (Pos2Z.pos_le_pos 1 d (Pos.le_1_l d)) Hp H54 H53
             Hsplit Hov). }
  destruct n as [| p | p]; [reflexivity | |]; cbn [nearest_double]; apply Hsf.
  - exact Hn.
  - exact Hn.
Qed.

Lemma int_truediv_total (a b : Z) :
  b <> 0 -> Z.abs a < 2 ^ 1023 -> exists f, int_truediv a b = Ok f.
Proof.
  intros Hb Ha. unfold int_truediv. destruct b as [| d | d]; [contradiction | |].
  - rewrite nearest_double_finite by exact Ha. eauto.
  - rewrite nearest_double_finite by (rewrite Z.abs_opp; exact Ha). eauto.
Qed.

(** Whatever [scale_objects] does, it only adds to the log. *)
Lemma scale_objects_log (objects : list record) (scale_x scale_y : float)
    (offset_x offset_y : number) (w : world) :
  exists entries,
    (scale_objects objects scale_x scale_y offset_x offset_y w).2 = log_also w entries.
Proof.
  unfold scale_objects.
  destruct ((scale_x <=? 0)%float || (scale_y <=? 0)%float).
  - eexists. reflexivity.
  - apply scale_loop_log.
Qed.

Lemma shape_two_dims `{Imaging} (a : ndarray) :
  (2 <= length (shape a))%nat -> exists h w rest, shape a = h :: w :: rest.
Proof. destruct (shape a) as [|h [|w rest]]; cbn [length]; try lia. eauto. Qed.

(** X6: [apply_stretch] is all or nothing. For an image that is [None],
    empty, or has at least two dimensions, and targets below [2^1023], it
    raises nothing and only adds to the log; it returns either the image
    resized to the target together with what [scale_objects] returns for
    the scales [new_w / w] and [new_h / h], or, when the resize or the
    scaling fails, the image and the records it was given, unchanged. *)
Theorem apply_stretch_all_or_nothing `{Imaging} (img : option ndarray)
    (objects : list record) (new_w new_h interpolation : Z) (w0 : world) :
  (forall a, img = Some a -> (2 <= length (shape a))%nat) ->
  Z.abs new_w < 2 ^ 1023 -> Z.abs new_h < 2 ^ 1023 ->
  exists out entries,
    apply_stretch img objects new_w new_h interpolation w0 = (Ok out, log_also w0 entries)
    /\ (out = (img, objects)
        \/ exists a h w rest scale_x scale_y resized scaled,
             img = Some a /\ shape a = h :: w :: rest
             /\ int_truediv new_w w = Ok scale_x /\ int_truediv new_h h = Ok scale_y
             /\ cv2_resize a new_w new_h interpolation = Ok resized
             /\ (scale_objects objects scale_x scale_y (NFloat 0) (NFloat 0) w0).1 = Ok scaled
             /\ out = (Some resized, scaled)).
Proof.
  intros Hdims Hw Hh. unfold apply_stretch.
  destruct img as [a|]; [|eexists _, _; split; [reflexivity | left; reflexivity]].
  destruct (size a =? 0) eqn:Hsize; [eexists _, _; split; [reflexivity | left; reflexivity]|].
  destruct (shape_two_dims a (Hdims a eq_refl)) as (h & w & rest & Hshape).
  destruct (size_dims a h w rest Hsize Hshape) as [Hh0 Hw0].
  destruct (int_truediv_total new_w w Hw0 Hw) as [scale_x Hsx].
  destruct (int_truediv_total new_h h Hh0 Hh) as [scale_y Hsy].
  unfold height_width. rewrite Hshape. run. rewrite Hsx, Hsy.
  destruct (cv2_resize a new_w new_h interpolation) as [resized|e] eqn:Hresize.
  - destruct (scale_objects_log objects scale_x scale_y (NFloat 0) (NFloat 0) w0)
      as [entries Hlog].
    destruct (scale_objects objects scale_x scale_y (NFloat 0) (NFloat 0) w0)
      as [[scaled|e] w1] eqn:Hscale; cbn [snd] in Hlog; subst w1.
    + exists (Some resized, scaled), entries. split; [reflexivity|]. right.
      exists a, h, w, rest, scale_x, scale_y, resized, scaled.
      rewrite Hscale. auto 10.
    + exists (Some a, objects), (entries ++ [(ERROR, ErrorDuringStretching e)]).
      split; [rewrite <- log_also_app; reflexivity | left; reflexivity].
  - exists (Some a, objects), [(ERROR, ErrorDuringStretching e)].
    split; [reflexivity | left; reflexivity].
Qed.

Lemma apply_stretch_all_or_nothing_witness :
  exists out entries,
    apply_stretch (H := shape_only) (Some [50; 100; 3]) [sample_box; sample_huge_box] 50 100
      INTER_LINEAR empty_world
    = (Ok out, log_also empty_world entries)
    /\ (out = (Some [50; 100; 3], [sample_box; sample_huge_box])
        \/ exists a h w rest scale_x scale_y resized scaled,
             Some [50; 100; 3] = Some a /\ shape a = h :: w :: rest
             /\ int_truediv 50 w = Ok scale_x /\ int_truediv 100 h = Ok scale_y
             /\ cv2_resize a 50 100 INTER_LINEAR = Ok resized
             /\ (scale_objects [sample_box; sample_huge_box] scale_x scale_y
                   (NFloat 0) (NFloat 0) empty_world).1 = Ok scaled
             /\ out = (Some resized, scaled)).
Proof.
  apply (apply_stretch_all_or_nothing (H := shape_only) (Some [50; 100; 3])
           [sample_box; sample_huge_box] 50 100 INTER_LINEAR empty_world).
  - intros a [= <-]. cbn. lia.
  - vm_compute. reflexivity.
  - vm_compute. reflexivity.
Defined.

(** [apply_letterbox] once its plan is computed: the canvas and the
    scaled records, or the image and the records it was given. *)
Lemma apply_letterbox_planned `{Imaging} (a : ndarray) (h w : Z) (rest : list Z)
    (objects : list record) (new_w new_h : Z) (color : Z * Z * Z) (interpolation : Z)
    (rx ry : float) (scaled_w scaled_h : Z) (w0 : world) :
  invalid_image (Some a) = false ->
  shape a = h :: w :: rest ->
  int_truediv new_w w = Ok rx -> int_truediv new_h h = Ok ry ->
  scaled_size w (float_min rx ry) = Ok scaled_w ->
  scaled_size h (float_min rx ry) = Ok scaled_h ->
  exists out entries,
    apply_letterbox (Some a) objects new_w new_h color interpolation w0
    = (Ok out, log_also w0 entries)
    /\ (out = (Some a, objects)
        \/ exists resized canvas pasted scaled,
             cv2_resize a scaled_w scaled_h interpolation = Ok resized
             /\ letterbox_canvas a new_w new_h color = Ok canvas
             /\ set_region canvas ((new_h - scaled_h) / 2) ((new_h - scaled_h) / 2 + scaled_h)
                  ((new_w - scaled_w) / 2) ((new_w - scaled_w) / 2 + scaled_w) resized
                = Ok pasted
             /\ (scale_objects objects (float_min rx ry) (float_min rx ry)
                   (NInt ((new_w - scaled_w) / 2)) (NInt ((new_h - scaled_h) / 2)) w0).1
                = Ok scaled
             /\ out = (Some pasted, scaled)).
Proof.
  intros Hvalid Hshape Hrx Hry Hsw Hsh. unfold apply_letterbox.
  fold (letterbox_canvas a new_w new_h color).
  rewrite (size_nonzero a Hvalid). unfold height_width. rewrite Hshape. run.
  rewrite Hrx, Hry, Hsw, Hsh.
  destruct (cv2_resize a scaled_w scaled_h interpolation) as [resized|e] eqn:Hresize.
  2:{ exists (Some a, objects), [(ERROR, ErrorDuringLetterboxing e)].
      split; [reflexivity | left; reflexivity]. }
  destruct (letterbox_canvas a new_w new_h color) as [canvas|e] eqn:Hcanvas.
  2:{ exists (Some a, objects), [(ERROR, ErrorDuringLetterboxing e)].
      split; [reflexivity | left; reflexivity]. }
  destruct (set_region canvas _ _ _ _ resized) as [pasted|e] eqn:Hpaste.
  2:{ exists (Some a, objects), [(ERROR, ErrorDuringLetterboxing e)].
      split; [reflexivity | left; reflexivity]. }
  destruct (scale_objects_log objects (float_min rx ry) (float_min rx ry)
              (NInt ((new_w - scaled_w) / 2)) (NInt ((new_h - scaled_h) / 2)) w0)
    as [entries Hlog].
  destruct (scale_objects objects (float_min rx ry) (float_min rx ry)
              (NInt ((new_w - scaled_w) / 2)) (NInt ((new_h - scaled_h) / 2)) w0)
    as [[scaled|e] w1] eqn:Hscale; cbn [snd] in Hlog; subst w1.
  - exists (Some pasted, scaled), entries. split; [reflexivity|]. right.
    exists resized, canvas, pasted, scaled. auto 10.
  - exists (Some a, objects), (entries ++ [(ERROR, ErrorDuringLetterboxing e)]).
    split; [rewrite <- log_also_app; reflexivity | left; reflexivity].
Qed.

(** X8: an image that is not empty but has fewer than two dimensions is
    not caught by the guard: [h, w = img.shape[:2]] sits before the [try],
    so both transforms raise [ValueError] and log nothing. *)
Theorem transforms_need_two_dimensions `{Imaging} (a : ndarray) (objects : list record)
    (new_w new_h : Z) (color : Z * Z * Z) (interpolation : Z) (w0 : world) :
  invalid_image (Some a) = false ->
  (length (shape a) < 2)%nat ->
  apply_stretch (Some a) objects new_w new_h interpolation w0 = (Raise ValueError, w0)
  /\ apply_letterbox (Some a) objects new_w new_h color interpolation w0
     = (Raise ValueError, w0).
Proof.
  intros Hvalid Hdims. unfold apply_stretch, apply_letterbox.
  rewrite (size_nonzero a Hvalid). unfold height_width.
  destruct (shape a) as [|h [|w rest]]; cbn [length] in Hdims; try lia; split; reflexivity.
Qed.

Lemma transforms_need_two_dimensions_witness :
  apply_stretch (H := shape_only) (Some [7]) [sample_box] 50 100 INTER_LINEAR empty_world
  = (Raise ValueError, empty_world)
  /\ apply_letterbox (H := shape_only) (Some [7]) [sample_box] 50 100 default_color
       INTER_LINEAR empty_world
     = (Raise ValueError, empty_world).
Proof.
  apply (transforms_need_two_dimensions (H := shape_only) [7] [sample_box] 50 100
           default_color INTER_LINEAR empty_world).
  - vm_compute. reflexivity.
  - cbn. lia.
Defined.

(** ** What [load_kitti_labels] returns *)














(** One turn of the loop of [load_kitti_labels]: a blank line passes in
    silence, a line that reads gives its record, any other line gives one
    warning. *)
Lemma load_step_accounts (i : nat) (line : string) (acc : list record) (w : world) :
  exists entries,
    load_step i line acc w
    = (Ok (acc ++ match line_record line with Some obj => [obj] | None => [] end),
       log_also w entries)
    /\ Forall (fun entry => is_warning entry = true) entries
    /\ (length (match line_record line with Some obj => [obj] | None => [] end)
        + length entries
        = if nonblank line then 1 else 0)%nat.
Proof.
  unfold load_step, line_record, nonblank. cbv zeta.
  destruct (is_empty (strip line)) eqn:Hempty; cbn [negb].
  - rewrite (strip_empty_split _ Hempty). cbn [length Nat.ltb Nat.leb].
    exists []. unfold ret. rewrite app_nil_r, log_also_nil.
    split; [reflexivity|]. split; [constructor | reflexivity].
  - destruct (length (split (strip line)) <? 15)%nat.
    + eexists [_]. run. rewrite app_nil_r.
      split; [reflexivity|]. split; [repeat constructor | reflexivity].
    + run. destruct (parse_parts (split (strip line))) as [obj|e] eqn:Hp.
      * exists []. rewrite log_also_nil.
        split; [reflexivity|]. split; [constructor | reflexivity].
      * pose proof (parse_parts_raises _ _ Hp) as Hc.
        destruct e; try discriminate; eexists [_]; rewrite app_nil_r;
          (split; [reflexivity|]; split; [repeat constructor | reflexivity]).
Qed.

Lemma load_loop_accounts (lines : list string) :
  forall (i : nat) (acc : list record) (w : world),
  exists entries,
    for_enumerate load_step i lines acc w
    = (Ok (acc ++ omap line_record lines), log_also w entries)
    /\ Forall (fun entry => is_warning entry = true) entries
    /\ (length (omap line_record lines) + length entries
        = length (List.filter nonblank lines))%nat.
Proof.
  induction lines as [|line rest IH]; intros i acc w.
  - exists []. rewrite for_enumerate_nil, app_nil_r, log_also_nil.
    split; [reflexivity|]. split; [constructor | reflexivity].
  - rewrite for_enumerate_cons.
    destruct (load_step_accounts i line acc w) as (e1 & -> & Hw1 & Hn1).
    destruct (IH (S i) (acc ++ match line_record line with Some obj => [obj] | None => [] end)
                (log_also w e1)) as (e2 & -> & Hw2 & Hn2).
    exists (e1 ++ e2). rewrite log_also_app. cbn [omap list_omap List.filter].
    split; [destruct (line_record line); rewrite <- app_assoc; reflexivity|].
    split; [apply Forall_app; split; assumption|].
    rewrite length_app.
    destruct (line_record line); destruct (nonblank line); cbn [length] in *; lia.
Qed.

(** X10: [load_kitti_labels] accounts for every line of a file it can
    read: each line that is not blank gives either one record or one
    warning, a blank line gives neither; so the records returned and the
    warnings logged add up to the number of non-blank lines. *)
Theorem load_kitti_labels_accounts (label_path : path) (w : world) (text : string) :
  read_text (disk w) label_path = Ok text ->
  exists objects entries,
    load_kitti_labels label_path w = (Ok objects, log_also w entries)
    /\ (length objects + length (List.filter is_warning entries)
        = length (List.filter nonblank (splitlines text)))%nat.
Proof.
  intros Hread. unfold load_kitti_labels, path_exists. run. cbn [disk logs].
  unfold read_text in Hread.
  destruct (disk w !! label_path) as [[wr | rd wr t]|] eqn:Hnode; try discriminate.
  destruct rd; [|discriminate]. injection Hread as ->. cbn [negb].
  unfold load_lines, read_text. run. cbn [disk logs]. rewrite Hnode.
  destruct (load_loop_accounts (splitlines text) 1 []
              (World ((logs w ++ [(DEBUG, LoadingLabels label_path)])
                      ++ [(DEBUG, FoundLines (length (splitlines text)))]) (disk w)))
    as (es & Hes & Hw & Hn).
  rewrite Hes. cbn [app logs disk log_also].
  exists (omap line_record (splitlines text)),
         ([(DEBUG, LoadingLabels label_path);
           (DEBUG, FoundLines (length (splitlines text)))]
          ++ es ++ [(DEBUG, LoadedObjects (length (omap line_record (splitlines text))))]).
  split; [unfold log_also; rewrite <- !app_assoc; reflexivity|].
  rewrite !List.filter_app, !length_app. cbn [List.filter is_warning fst length].
  assert (Hall : List.filter is_warning es = es).
  { clear -Hw. induction Hw as [|x l Hx Hl IH]; [reflexivity|].
    cbn [List.filter]. rewrite Hx, IH. reflexivity. }
  rewrite Hall. lia.
Qed.

Lemma load_kitti_labels_accounts_witness :
  exists objects entries,
    load_kitti_labels four_file four_world = (Ok objects, log_also four_world entries)
    /\ (length objects + length (List.filter is_warning entries)
        = length (List.filter nonblank (splitlines four_text)))%nat.
Proof.
  apply (load_kitti_labels_accounts four_file four_world four_text).
  vm_compute. reflexivity.
Defined.

(** X11: a path that exists but cannot be read as a file (a directory,
    or a file without read permission) makes [load_kitti_labels] return the
    empty list and log one error; it raises nothing and leaves the disk as
    it is. *)
Theorem load_kitti_labels_unreadable (label_path : path) (w : world) (e : exn) :
  path_exists (disk w) label_path = true ->
  read_text (disk w) label_path = Raise e ->
  load_kitti_labels label_path w
  = (Ok [], log_also w [(DEBUG, LoadingLabels label_path); (ERROR, ErrorReadingFile e)]).
Proof.
  intros Hex Hread. unfold load_kitti_labels. run. cbn [disk logs]. rewrite Hex. cbn [negb].
  unfold load_lines. run. cbn [disk logs]. rewrite Hread.
  cbn [logs disk]. unfold log_also. rewrite <- app_assoc. reflexivity.
Qed.

Lemma load_kitti_labels_unreadable_witness :
  load_kitti_labels [] root_world
  = (Ok [], log_also root_world
              [(DEBUG, LoadingLabels []); (ERROR, ErrorReadingFile IsADirectoryError)]).
Proof.
  apply (load_kitti_labels_unreadable [] root_world IsADirectoryError);
    vm_compute; reflexivity.
Defined.

(** X12: a line is read by its first sixteen tokens alone: the white
    space around and between the tokens, and every token after the
    sixteenth, make no difference to the record, or to whether there is
    one. *)
Theorem line_record_first_sixteen (line1 line2 : string) :
  take 16 (split line1) = take 16 (split line2) ->
  line_record line1 = line_record line2.
Proof.
  intros Htake. unfold line_record. cbv zeta. rewrite !split_strip.
  set (p1 := split line1) in *. set (p2 := split line2) in *.
  assert (Hlook : forall i, (i < 16)%nat -> p1 !! i = p2 !! i).
  { intros i Hi. rewrite <- (lookup_take_lt p1 16 i Hi), <- (lookup_take_lt p2 16 i Hi), Htake.
    reflexivity. }
  assert (Hlen : Nat.min 16 (length p1) = Nat.min 16 (length p2)).
  { rewrite <- !length_take. rewrite Htake. reflexivity. }
  assert (H15 : (length p1 <? 15)%nat = (length p2 <? 15)%nat).
  { destruct (Nat.ltb_spec (length p1) 15), (Nat.ltb_spec (length p2) 15); lia || reflexivity. }
  assert (H16 : (15 <? length p1)%nat = (15 <? length p2)%nat).
  { destruct (Nat.ltb_spec 15 (length p1)), (Nat.ltb_spec 15 (length p2)); lia || reflexivity. }
  rewrite H15. destruct (length p2 <? 15)%nat; [reflexivity|].
  assert (Hparse : parse_parts p1 = parse_parts p2).
  { unfold parse_parts, score_part, float_part, int_part, part.
    rewrite H16, !Hlook by lia. reflexivity. }
  rewrite Hparse. reflexivity.
Qed.

Lemma line_record_first_sixteen_witness :
  line_record (good_line +:+ " 0.875 extra") = line_record ("  " +:+ good_line +:+ "   0.875").
Proof.
  apply (line_record_first_sixteen (good_line +:+ " 0.875 extra")
           ("  " +:+ good_line +:+ "   0.875")).
  vm_compute. reflexivity.
Defined.

(** ** Reading, writing, and reading again *)

Lemma load_kitti_labels_disk (label_path : path) (w w' : world) (objects : list record) :
  load_kitti_labels label_path w = (Ok objects, w') -> disk w' = disk w.
Proof.
  destruct (load_kitti_labels_run label_path w) as [entries Hrun]. rewrite Hrun.
  intros [= _ <-]. reflexivity.
Qed.



(** ** The disk under [write_kitti_labels] *)

Lemma grown_refl (d : path) (fs : filesystem) : grown d fs fs.
Proof. intros q. destruct (fs !! q); auto. Qed.

Lemma grown_insert (d : path) (fs : filesystem) :
  fs !! d = None -> grown d fs (<[d := Dir true]> fs).
Proof.
  intros Hd q. destruct (decide (q = d)) as [-> | Hne].
  - rewrite Hd, lookup_insert_eq. right. split; reflexivity.
  - rewrite lookup_insert_ne by congruence. destruct (fs !! q); auto.
Qed.

Lemma prefix_parent (q d : path) : q `prefix_of` parent d -> q `prefix_of` d.
Proof.
  intros Hq. etrans; [exact Hq|]. unfold parent.
  destruct d as [|x d] using rev_ind; [reflexivity|].
  rewrite removelast_last. apply prefix_app_r. reflexivity.
Qed.

Lemma grown_trans (d : path) (fs1 fs2 fs3 : filesystem) :
  grown (parent d) fs1 fs2 -> grown d fs2 fs3 -> grown d fs1 fs3.
Proof.
  intros H12 H23 q. specialize (H12 q). specialize (H23 q).
  destruct (fs1 !! q) as [n|].
  - rewrite H12 in H23. exact H23.
  - destruct H12 as [H12 | [H12 Hpre]].
    + rewrite H12 in H23. exact H23.
    + rewrite H12 in H23. right. split; [exact H23 | apply prefix_parent; exact Hpre].
Qed.

Lemma os_mkdir_grown (fs fs' : filesystem) (d : path) :
  os_mkdir fs d = Ok fs' -> grown d fs fs'.
Proof.
  unfold os_mkdir. destruct (fs !! d) eqn:Hd; [discriminate|].
  destruct (fs !! parent d) as [[[|] | r wr t]|]; try discriminate.
  intros [= <-]. apply grown_insert. exact Hd.
Qed.

Lemma mkdir_exist_ok_grown (fs fs' : filesystem) (d : path) :
  mkdir_exist_ok fs d = Ok fs' -> grown d fs fs'.
Proof.
  unfold mkdir_exist_ok. destruct (os_mkdir fs d) as [fs1|e] eqn:Hmk.
  - intros [= <-]. apply os_mkdir_grown. exact Hmk.
  - destruct (is_dir fs d); [|discriminate]. intros [= <-]. apply grown_refl.
Qed.

(** [mkdir(parents=True, exist_ok=True)] keeps every entry and only adds
    directories on the way to the one asked for. *)
Lemma mkdir_parents_grown (fuel : nat) :
  forall (fs fs' : filesystem) (d : path),
  mkdir_parents fuel fs d = Ok fs' -> grown d fs fs'.
Proof.
  induction fuel as [|n IH]; intros fs fs' d; cbn [mkdir_parents].
  - destruct (os_mkdir fs d) as [fs1|e] eqn:Hmk.
    + intros [= <-]. apply os_mkdir_grown. exact Hmk.
    + destruct e; try discriminate;
        (destruct (is_dir fs d); [|discriminate]; intros [= <-]; apply grown_refl).
  - destruct (os_mkdir fs d) as [fs1|e] eqn:Hmk.
    + intros [= <-]. apply os_mkdir_grown. exact Hmk.
    + destruct e;
        try (destruct (is_dir fs d); [|discriminate]; intros [= <-]; apply grown_refl).
      destruct (mkdir_parents n fs (parent d)) as [fs2|e2] eqn:Hrec; [|discriminate].
      intros Hlast. eapply grown_trans; [apply IH; exact Hrec|].
      apply mkdir_exist_ok_grown. exact Hlast.
Qed.

(** What a call of [write_kitti_labels] does, case by case. *)
Lemma write_kitti_labels_cases `{Repr} (label_path : path) (objects : list record)
    (w : world) :
  match mkdir_parents (length (parent label_path)) (disk w) (parent label_path) with
  | Raise e =>
      write_kitti_labels label_path objects w
      = (Raise e, log_also w [(DEBUG, WritingObjects (length objects) label_path)])
  | Ok fs1 =>
      match open_w fs1 label_path with
      | Raise e =>
          write_kitti_labels label_path objects w
          = (Ok false,
             World (logs w ++ [(DEBUG, WritingObjects (length objects) label_path);
                               (ERROR, ErrorWritingFile e)]) fs1)
      | Ok fs2 =>
          exists entries r,
            write_kitti_labels label_path objects w
            = (Ok true,
               World (logs w ++ entries)
                 (<[label_path := File r true (concat_lines (omap record_line objects))]> fs1))
      end
  end.
Proof.
  destruct (mkdir_parents (length (parent label_path)) (disk w) (parent label_path))
    as [fs1|e] eqn:Hmk.
  - destruct (open_w fs1 label_path) as [fs2|e] eqn:Hopen.
    + destruct (write_kitti_labels_opened label_path objects w fs1 fs2 Hmk Hopen)
        as (entries & r & _ & Hwrite & _). eauto.
    + unfold write_kitti_labels. run. cbn [logs disk]. rewrite Hmk. cbn [logs disk].
      rewrite Hopen. cbn [logs disk]. rewrite <- app_assoc. reflexivity.
  - unfold write_kitti_labels. run. cbn [logs disk]. rewrite Hmk. reflexivity.
Qed.


(** X15: [write_kitti_labels] touches nothing but its destination and
    the directories on the way to it: whatever it returns or raises, every
    entry of the disk other than the destination is kept as it was, and an
    entry that is new is a directory above the destination. *)
Theorem write_kitti_labels_frame `{Repr} (label_path : path) (objects : list record)
    (w : world) (q : path) :
  q <> label_path ->
  match disk w !! q with
  | Some n => disk (write_kitti_labels label_path objects w).2 !! q = Some n
  | None =>
      disk (write_kitti_labels label_path objects w).2 !! q = None
      \/ (disk (write_kitti_labels label_path objects w).2 !! q = Some (Dir true)
          /\ q `prefix_of` label_path)
  end.
Proof.
  intros Hq. pose proof (write_kitti_labels_cases label_path objects w) as Hc.
  destruct (mkdir_parents (length (parent label_path)) (disk w) (parent label_path))
    as [fs1|e] eqn:Hmk.
  - pose proof (mkdir_parents_grown _ _ _ _ Hmk q) as Hg.
    assert (Hdisk : disk (write_kitti_labels label_path objects w).2 !! q = fs1 !! q).
    { destruct (open_w fs1 label_path) as [fs2|e].
      - destruct Hc as (entries & r & ->). cbn [snd disk].
        rewrite lookup_insert_ne by congruence. reflexivity.
      - rewrite Hc. reflexivity. }
    rewrite Hdisk. destruct (disk w !! q); [exact Hg|].
    destruct Hg as [Hg | [Hg Hpre]]; [left; exact Hg|].
    right. split; [exact Hg | apply prefix_parent; exact Hpre].
  - rewrite Hc. cbn [snd log_also disk]. destruct (disk w !! q); auto.
Qed.

Lemma write_kitti_labels_frame_witness :
  match disk four_world !! four_file with
  | Some n => disk (write_kitti_labels out_path [sample_record] four_world).2 !! four_file
              = Some n
  | None =>
      disk (write_kitti_labels out_path [sample_record] four_world).2 !! four_file = None
      \/ (disk (write_kitti_labels out_path [sample_record] four_world).2 !! four_file
          = Some (Dir true)
          /\ four_file `prefix_of` out_path)
  end.
Proof.
  apply (write_kitti_labels_frame out_path [sample_record] four_world four_file).
  discriminate.
Defined.

(** ** [main] *)

Section MainProperties.
Context `{Platform} `{Repr}.

Ltac crun := unfold ctry, cbind, cret, clift, say, library, get_files, set_files.

(** One turn of the loop of [main]: whatever happens to the image, the
    turn ends, one of the two counters goes up by one, and the journal only
    grows. *)
Lemma process_counts (args : namespace) (out_imgs out_lbls img_path : path)
    (counts : nat * nat) (s : session) :
  exists counts' s' entries,
    process args out_imgs out_lbls img_path counts s = (Ok counts', s')
    /\ (counts'.1 + counts'.2 = S (counts.1 + counts.2))%nat
    /\ journal s' = journal s ++ entries.
Proof.
  unfold process. destruct counts as [processed errors].
  destruct (args_size args) as [new_w new_h]. crun. cbn [files journal fst snd].
  repeat match goal with
         | |- context [match ?x with _ => _ end] =>
             lazymatch x with
             | context [match _ with _ => _ end] => fail
             | _ => destruct x eqn:?
             end; cbn [files journal fst snd negb]
         end;
    eexists _, _, _; (split; [reflexivity|]);
    (split; [cbn [fst snd]; lia|]); cbn [journal]; rewrite <- ?app_assoc; reflexivity.
Qed.

Lemma for_each_counts (args : namespace) (out_imgs out_lbls : path) (images : list path) :
  forall (counts : nat * nat) (s : session),
  exists counts' s' entries,
    for_each (process args out_imgs out_lbls) images counts s = (Ok counts', s')
    /\ (counts'.1 + counts'.2 = counts.1 + counts.2 + length images)%nat
    /\ journal s' = journal s ++ entries.
Proof.
  induction images as [|img rest IH]; intros counts s.
  - exists counts, s, []. cbn [for_each length]. unfold cret.
    split; [reflexivity|]. split; [lia | rewrite app_nil_r; reflexivity].
  - cbn [for_each length]. unfold cbind.
    destruct (process_counts args out_imgs out_lbls img counts s)
      as (c1 & s1 & e1 & -> & Hc1 & Hj1).
    destruct (IH c1 s1) as (c2 & s2 & e2 & -> & Hc2 & Hj2).
    exists c2, s2, (e1 ++ e2). split; [reflexivity|].
    split; [lia | rewrite Hj2, Hj1, app_assoc; reflexivity].
Qed.

Lemma outputs_ready_inv (fs : filesystem) (out_dir : path) :
  outputs_ready fs out_dir = true ->
  exists fs1 fs2,
    mkdir_parents (length (out_dir ++ ["images"])) fs (out_dir ++ ["images"]) = Ok fs1
    /\ mkdir_parents (length (out_dir ++ ["labels"])) fs1 (out_dir ++ ["labels"]) = Ok fs2.
Proof.
  unfold outputs_ready.
  destruct (mkdir_parents (length (out_dir ++ ["images"])) fs (out_dir ++ ["images"]))
    as [fs1|]; [|discriminate].
  destruct (mkdir_parents (length (out_dir ++ ["labels"])) fs1 (out_dir ++ ["labels"]))
    as [fs2|] eqn:H2; [|discriminate].
  intros _. exists fs1, fs2. auto.
Qed.

(** X16: once the inputs exist, some image is found and the output
    directories can be made, [main] raises nothing, whatever happens to the
    single images: every image is counted exactly once, as processed or as
    an error; the summary reports [processed] out of the number of images
    found; and the exit code is [0] when no image failed and [1]
    otherwise. *)
Theorem main_accounts (args : namespace) (s : session) (images : list path) :
  path_exists (files s) (in_img args) = true ->
  path_exists (files s) (in_lbl args) = true ->
  find_images args (files s) = Ok images ->
  images <> [] ->
  outputs_ready (files s) (out args) = true ->
  exists processed errors s',
    main args s = (Ok (if (0 <? errors)%nat then 1 else 0), s')
    /\ (processed + errors = length images)%nat
    /\ Script INFO (ProcessedImages processed (length images)) ∈ journal s'.
Proof.
  intros Himg Hlbl Hfind Hne Hready.
  destruct (outputs_ready_inv _ _ Hready) as (fs1 & fs2 & Hmk1 & Hmk2).
  unfold main. crun. cbn [files journal].
  rewrite Himg, Hlbl. cbn [negb]. rewrite Hfind.
  destruct images as [|img rest]; [contradiction|].
  cbn [length Nat.eqb]. cbn [files journal]. rewrite Hmk1, Hmk2. cbn [files journal].
  match goal with
  | |- context [for_each ?f ?l ?c ?s0] =>
      destruct (for_each_counts args (out args ++ ["images"]) (out args ++ ["labels"])
                  l c s0) as ([processed errors] & s1 & es & Hloop & Hcount & Hj)
  end.
  rewrite Hloop. cbn [fst snd] in Hcount.
  exists processed, errors.
  destruct (0 <? errors)%nat; eexists; (split; [reflexivity|]);
    (split; [cbn [length] in *; lia|]); cbn [journal];
    rewrite !elem_of_app, !elem_of_cons, !elem_of_nil; auto 10.
Qed.



Lemma path_compare_antisym (p : path) :
  forall q, path_compare p q = CompOpp (path_compare q p).
Proof.
  induction p as [|a p IH]; intros [|b q]; cbn [path_compare]; try reflexivity.
  rewrite (String.compare_antisym a b).
  destruct (String.compare b a); cbn [CompOpp]; [apply IH | reflexivity | reflexivity].
Qed.

#[local] Instance path_le_total : Total path_le.
Proof.
  intros p q. unfold path_le. rewrite (path_compare_antisym q p).
  destruct (path_compare p q); cbn [CompOpp]; [left | left | right]; discriminate.
Qed.

(** X19: the images [main] works on are the files matched by
    [*.<ext>] or by [*.<EXT>], each once, in the order of their paths: a
    file that both patterns match is not processed twice. *)
Theorem find_images_distinct (args : namespace) (fs : filesystem) (l1 l2 : list path) :
  glob fs (in_img args) ("*." +:+ img_ext args) = Ok l1 ->
  glob fs (in_img args) ("*." +:+ str_upper (img_ext args)) = Ok l2 ->
  exists images,
    find_images args fs = Ok images
    /\ NoDup images
    /\ (forall p, p ∈ images <-> p ∈ l1 \/ p ∈ l2)
    /\ Sorted path_le images.
Proof.
  intros Hg1 Hg2. unfold find_images. rewrite Hg1, Hg2. cbn [rbind].
  eexists. split; [reflexivity|]. unfold sorted_set. split; [|split].
  - rewrite merge_sort_Permutation. apply NoDup_remove_dups.
  - intros p. rewrite merge_sort_Permutation, elem_of_remove_dups, elem_of_app. reflexivity.
  - apply Sorted_merge_sort. apply _.
Qed.

End MainProperties.

Lemma main_accounts_witness :
  exists processed errors s',
    main photo_args photo_session = (Ok (if (0 <? errors)%nat then 1 else 0), s')
    /\ (processed + errors = length [["in"; "a.jpg"]; ["in"; "b.JPG"]])%nat
    /\ Script INFO (ProcessedImages processed (length [["in"; "a.jpg"]; ["in"; "b.JPG"]]))
       ∈ journal s'.
Proof.
  apply (main_accounts photo_args photo_session [["in"; "a.jpg"]; ["in"; "b.JPG"]]).
  - vm_compute. reflexivity.
  - vm_compute. reflexivity.
  - vm_compute. reflexivity.
  - discriminate.
  - vm_compute. reflexivity.
Defined.



Lemma find_images_distinct_witness :
  exists images,
    find_images (Namespace ["in"] ["lbl"] ["out"] (8, 8) stretch "JPG") photo_disk = Ok images
    /\ NoDup images
    /\ (forall p, p ∈ images <-> p ∈ [["in"; "b.JPG"]] \/ p ∈ [["in"; "b.JPG"]])
    /\ Sorted path_le images.
Proof.
  apply (find_images_distinct (Namespace ["in"] ["lbl"] ["out"] (8, 8) stretch "JPG")
           photo_disk); vm_compute; reflexivity.
Defined.

(** What a run looks like: of two images the first is processed and the
    second, which does not decode, is counted as an error; the exit code
    is [1]. *)
Example main_two_images :
  (main photo_args photo_session).1 = Ok 1
  /\ List.filter (fun e => match e with Script _ _ => true | Library _ _ => false end)
       (journal (main photo_args photo_session).2)
     = [Script INFO StartingProcess; Script INFO (UsingMode letterbox 8 8);
        Script INFO (FoundImages 2); Script INFO (CreatedOutputDirectories ["out"]);
        Script DEBUG (LoadedObjectsFrom 1 "a.txt");
        Script DEBUG (SuccessfullyProcessed "a.jpg");
        Script WARNING (CouldNotLoadImage "b.JPG");
        Script INFO ProcessingCompleted; Script INFO (ProcessedImages 1 2);
        Script WARNING (EncounteredErrors 1)].
Proof. by_computation. Qed.

(** [p.stem] on some names, as [pathlib] gives it. *)
Example stem_examples :
  map stem ["a.jpg"; "a.tar.gz"; ".bashrc"; "file."; "..jpg"; "a"; "a.b."; ".a.b"]
  = ["a"; "a.tar"; ".bashrc"; "file."; "."; "a"; "a.b."; ".a"].
Proof. vm_compute. reflexivity. Qed.

(** [sorted(set(...))] on some paths: duplicates go, capitals come first. *)
Example sorted_set_example :
  sorted_set [["in"; "b.JPG"]; ["in"; "a.jpg"]; ["in"; "B.jpg"]; ["in"; "a.jpg"]; ["in"; "a"];
              ["in"; "a"; "b"]; ["in"; "a.b"]]
  = [["in"; "B.jpg"]; ["in"; "a"]; ["in"; "a"; "b"]; ["in"; "a.b"]; ["in"; "a.jpg"];
     ["in"; "b.JPG"]].
Proof. vm_compute. reflexivity. Qed.

(** ** Products that stay finite *)

Lemma shr_1_m (mrs : shr_record) :
  0 <= shr_m mrs -> shr_m (shr_1 mrs) = shr_m mrs / 2.
Proof.
  destruct mrs as [m r s]. cbn [shr_m shr_1].
  destruct m as [| [p | p |] |]; cbn [shr_m]; intros Hm; try lia.
  - reflexivity.
  - apply (Z.div_unique _ _ _ 1); lia.
  - apply (Z.div_unique _ _ _ 0); lia.
  - reflexivity.
Qed.

Lemma iter_shr_m (p : positive) :
  forall mrs : shr_record,
  0 <= shr_m mrs ->
  shr_m (SpecFloat.iter_pos shr_1 p mrs) = shr_m mrs / 2 ^ Zpos p.
Proof.
  induction p as [p IH | p IH |]; intros mrs Hm; cbn [SpecFloat.iter_pos].
  - assert (H1 : 0 <= shr_m (shr_1 mrs)) by (rewrite shr_1_m by exact Hm; apply Z.div_pos; lia).
    assert (Hp : 0 < 2 ^ Zpos p) by (apply Z.pow_pos_nonneg; lia).
    assert (H2 : 0 <= shr_m (SpecFloat.iter_pos shr_1 p (shr_1 mrs)))
      by (rewrite IH by exact H1; apply Z.div_pos; lia).
    rewrite (IH _ H2), (IH _ H1), (shr_1_m _ Hm).
    rewrite !Z.div_div by lia. f_equal.
    replace (Zpos p~1) with (1 + (Zpos p + Zpos p)) by lia.
    rewrite !Z.pow_add_r by lia. change (2 ^ 1) with 2. ring.
  - assert (Hp : 0 < 2 ^ Zpos p) by (apply Z.pow_pos_nonneg; lia).
    assert (H2 : 0 <= shr_m (SpecFloat.iter_pos shr_1 p mrs))
      by (rewrite IH by exact Hm; apply Z.div_pos; lia).
    rewrite (IH _ H2), (IH _ Hm).
    rewrite !Z.div_div by lia. f_equal.
    replace (Zpos p~0) with (Zpos p + Zpos p) by lia.
    rewrite Z.pow_add_r by lia. reflexivity.
  - rewrite shr_1_m by exact Hm. reflexivity.
Qed.

(** A right shift to the exponent the format asks for: the exponent
    reached and the mantissa left. *)
Lemma shr_fexp_facts (m e : Z) (l : location) :
  0 <= m ->
  let '(mrs, e') := shr_fexp prec emax m e l in
  e' = Z.max e (fexp prec emax (Zdigits2 m + e))
  /\ shr_m mrs = m / 2 ^ (e' - e).
Proof.
  intros Hm. unfold shr_fexp, shr.
  assert (Hrec : shr_m (shr_record_of_loc m l) = m) by (destruct l as [|[]]; reflexivity).
  destruct (fexp prec emax (Zdigits2 m + e) - e) as [| n | n] eqn:Hn.
  - split; [lia|]. replace (e - e) with 0 by lia. rewrite Z.div_1_r. exact Hrec.
  - split; [lia|]. rewrite iter_shr_m by (rewrite Hrec; exact Hm).
    rewrite Hrec. f_equal. f_equal. lia.
  - split; [lia|]. replace (e - e) with 0 by lia. rewrite Z.div_1_r. exact Hrec.
Qed.

Lemma round_nearest_even_bounds (m : Z) (l : location) :
  0 <= m -> m <= round_nearest_even m l <= m + 1.
Proof.
  intros Hm. unfold round_nearest_even. destruct l as [|[]]; try lia.
  destruct (IntDef.Z.even m); lia.
Qed.

Lemma Zdigits2_le (m d : Z) : 0 <= m -> 0 <= d -> m < 2 ^ d -> Zdigits2 m <= d.
Proof.
  intros Hm Hd Hlt. destruct m as [| p | p]; [exact Hd | | lia].
  cbn [Zdigits2]. rewrite digits2_log2.
  assert (Z.log2 (Zpos p) < d) by (apply Z.log2_lt_pow2; lia). lia.
Qed.

Lemma Zdigits2_pow (p : positive) : Zpos p < 2 ^ Zpos (digits2_pos p).
Proof.
  rewrite digits2_log2. destruct (Z.log2_spec (Zpos p) ltac:(lia)) as [_ Hup].
  replace (Z.log2 (Zpos p) + 1) with (Z.succ (Z.log2 (Zpos p))) by lia. exact Hup.
Qed.

(** The rounding of [m * 2^e]: when the value is below [2^1023] and
    [e] is at most 971, the result is a zero or a finite number. *)
Lemma binary_round_aux_finite (s : bool) (m : positive) (e : Z) :
  e <= 971 -> Zpos (digits2_pos m) + e <= 1023 ->
  match binary_round_aux prec emax s (Zpos m) e loc_Exact with
  | S754_zero _ | S754_finite _ _ _ => True
  | _ => False
  end.
Proof.
  intros He Hk. unfold binary_round_aux.
  pose proof (shr_fexp_facts (Zpos m) e loc_Exact ltac:(lia)) as H1.
  destruct (shr_fexp prec emax (Zpos m) e loc_Exact) as [mrs' e'].
  destruct H1 as [He' Hm'].
  cbn [Zdigits2] in He'. unfold fexp, SpecFloat.emin, prec, emax in He'.
  set (d := Zpos (digits2_pos m)) in *.
  assert (Hd : 1 <= d) by (unfold d; lia).
  assert (Hn : 0 <= e' - e) by lia.
  assert (Hpow : 0 < 2 ^ (e' - e)) by (apply Z.pow_pos_nonneg; lia).
  assert (Hm0 : 0 <= shr_m mrs') by (rewrite Hm'; apply Z.div_pos; lia).
  pose proof (round_nearest_even_bounds (shr_m mrs') (loc_of_shr_record mrs') Hm0) as Hr.
  set (m1 := round_nearest_even (shr_m mrs') (loc_of_shr_record mrs')) in *.
  pose proof (shr_fexp_facts m1 e' loc_Exact ltac:(lia)) as H2.
  destruct (shr_fexp prec emax m1 e' loc_Exact) as [mrs'' e''].
  destruct H2 as [He'' Hm''].
  unfold fexp, SpecFloat.emin, prec, emax in He''.
  assert (Hm2 : 0 <= shr_m mrs'').
  { rewrite Hm''. apply Z.div_pos; [lia | apply Z.pow_pos_nonneg; lia]. }
  (* the digits of the rounded mantissa *)
  assert (Hdig : Zdigits2 m1 + e' <= 1024).
  { destruct (Z_le_gt_dec (e' - e) d) as [Hle | Hgt].
    - assert (Hq : shr_m mrs' < 2 ^ (d - (e' - e))).
      { rewrite Hm'. apply Z.div_lt_upper_bound; [exact Hpow|].
        rewrite <- Z.pow_add_r by lia. replace (e' - e + (d - (e' - e))) with d by lia.
        apply Zdigits2_pow. }
      assert (Hm1 : m1 < 2 ^ (d - (e' - e) + 1)).
      { rewrite Z.pow_add_r by lia. change (2 ^ 1) with 2.
        assert (0 < 2 ^ (d - (e' - e))) by (apply Z.pow_pos_nonneg; lia). lia. }
      pose proof (Zdigits2_le m1 (d - (e' - e) + 1) ltac:(lia) ltac:(lia) Hm1). lia.
    - assert (Hq : shr_m mrs' = 0).
      { rewrite Hm'. apply Z.div_small. split; [lia|].
        apply Z.lt_le_trans with (2 ^ d); [apply Zdigits2_pow|].
        apply Z.pow_le_mono_r; lia. }
      assert (Hm1 : m1 < 2 ^ 1) by (change (2 ^ 1) with 2; lia).
      pose proof (Zdigits2_le m1 1 ltac:(lia) ltac:(lia) Hm1). lia. }
  destruct (shr_m mrs'') as [| m2 | m2]; [exact I | | lia].
  unfold emax, prec. destruct (Z.leb_spec e'' (1024 - 53)); [exact I | lia].
Qed.

Lemma digits2_mul (a b : positive) :
  Zpos (digits2_pos (a * b)) <= Zpos (digits2_pos a) + Zpos (digits2_pos b).
Proof.
  pose proof (Zdigits2_pow a) as Ha. pose proof (Zdigits2_pow b) as Hb.
  assert (Hab : Zpos (a * b) < 2 ^ (Zpos (digits2_pos a) + Zpos (digits2_pos b))).
  { rewrite Z.pow_add_r by lia. rewrite Pos2Z.inj_mul.
    apply Z.mul_lt_mono_nonneg; [apply Pos2Z.is_nonneg | exact Ha | apply Pos2Z.is_nonneg | exact Hb]. }
  exact (Zdigits2_le (Zpos (a * b)) (Zpos (digits2_pos a) + Zpos (digits2_pos b))
           (Pos2Z.is_nonneg _) ltac:(lia) Hab).
Qed.

(** The product of two finite doubles whose magnitudes add up to at
    most 1023 is finite. *)
Lemma SFmul_finite (x y : spec_float) :
  valid_binary x = true -> valid_binary y = true ->
  sf_finite x = true -> sf_finite y = true ->
  magnitude x + magnitude y <= 1023 ->
  sf_finite (SFmul prec emax x y) = true.
Proof.
  intros Hvx Hvy Hfx Hfy Hmag.
  destruct x as [sx | sx | | sx mx ex]; try discriminate;
    destruct y as [sy | sy | | sy my ey]; try discriminate; try reflexivity.
  cbn [SFmul magnitude valid_binary] in *.
  destruct (bounded_inv mx ex Hvx) as [Hcx Hex].
  destruct (bounded_inv my ey Hvy) as [Hcy Hey].
  unfold fexp, SpecFloat.emin, prec, emax in Hcx, Hcy.
  pose proof (digits2_mul mx my) as Hd.
  pose proof (binary_round_aux_finite (xorb sx sy) (mx * my) (ex + ey)) as Hfin.
  destruct (binary_round_aux prec emax (xorb sx sy) (Zpos (mx * my)) (ex + ey) loc_Exact);
    try reflexivity; exfalso; apply Hfin; lia.
Qed.

Lemma magnitude_le (x : spec_float) (u K : Z) :
  valid_binary x = true -> sf_units x = Some u ->
  Z.abs u < 2 ^ (K + 1074) -> -1074 <= K ->
  magnitude x <= K.
Proof.
  intros Hv Hu Hlt HK. destruct x as [s | s | | s m e]; try discriminate.
  - exact HK.
  - cbn [sf_units] in Hu. injection Hu as <-. cbn [magnitude valid_binary] in *.
    destruct (bounded_range m e Hv) as [[He _] _].
    assert (Habs : Z.abs (cond_Zopp s (Zpos m * 2 ^ (e + 1074))) = Zpos m * 2 ^ (e + 1074)).
    { assert (0 < Zpos m * 2 ^ (e + 1074))
        by (apply Z.mul_pos_pos; [apply Pos2Z.is_pos | apply Z.pow_pos_nonneg; lia]).
      destruct s; cbn [cond_Zopp]; [rewrite Z.abs_opp|]; apply Z.abs_eq; lia. }
    rewrite Habs in Hlt.
    assert (Hpos : 0 < Zpos m * 2 ^ (e + 1074))
      by (apply Z.mul_pos_pos; [apply Pos2Z.is_pos | apply Z.pow_pos_nonneg; lia]).
    apply Z.log2_lt_pow2 in Hlt; [|exact Hpos].
    rewrite Z.log2_mul_pow2 in Hlt by lia.
    rewrite digits2_log2. lia.
Qed.

Lemma quotient_bound_arith (q d P a : Z) :
  0 <= q -> 1 <= d -> 0 < P -> 1 <= a ->
  Z.abs (q * (d * P) - a) <= Z.abs (1 * 1 * d - a) ->
  q * P <= 2 * a.
Proof.
  intros Hq Hd HP Ha Hn.
  assert (HqP : 0 <= q * P) by nia.
  destruct (Z_le_gt_dec d a) as [Hle | Hgt].
  - assert (q * (d * P) <= 2 * a - d) by lia. nia.
  - assert (q * (d * P) <= d) by lia. nia.
Qed.

Lemma one_bounded : bounded prec emax 1 (-1074) = true.
Proof. reflexivity. Qed.

(** A rounded quotient is at most twice the quotient. *)
Lemma nearest_sf_magnitude (s : bool) (n d : positive) (K : Z) :
  Zpos n < 2 ^ K -> 0 <= K ->
  sf_is_infinity (nearest_sf s n d) = false ->
  magnitude (nearest_sf s n d) <= K + 1 /\ sf_finite (nearest_sf s n d) = true.
Proof.
  intros Hn HK Hinf. split.
  - apply (magnitude_le _ _ (K + 1) (nearest_sf_valid s n d) (nearest_sf_units n d s Hinf));
      [|lia].
    destruct (nearest_quotient_facts n d) as (HE & Hb & [Hq0 _] & _).
    pose proof (nearest_quotient_nearest n d 1 (-1074) one_bounded) as Hnear.
    change (2 ^ (-1074 + 1074)) with 1 in Hnear.
    set (q := div_half_even (Zpos n * 2 ^ 1074) (Zpos d * 2 ^ ratio_exponent n d)) in *.
    assert (HP : 0 < 2 ^ ratio_exponent n d) by (apply Z.pow_pos_nonneg; lia).
    assert (HT : 0 < 2 ^ 1074) by (apply Z.pow_pos_nonneg; lia).
    assert (Ha : 1 <= Zpos n * 2 ^ 1074).
    { apply (Z.le_trans _ (1 * 1)); [reflexivity|].
      apply Z.mul_le_mono_nonneg; [lia | apply (Pos2Z.pos_le_pos 1), Pos.le_1_l | lia |].
      apply Z.lt_pred_le. exact HT. }
    pose proof (quotient_bound_arith q (Zpos d) (2 ^ ratio_exponent n d) (Zpos n * 2 ^ 1074)
                  Hq0 (Pos2Z.pos_le_pos 1 d (Pos.le_1_l d)) HP Ha Hnear) as Hq.
    assert (Hy : 0 <= q * 2 ^ ratio_exponent n d)
      by (apply Z.mul_nonneg_nonneg; [exact Hq0 | apply Z.lt_le_incl; exact HP]).
    assert (Habs : Z.abs (cond_Zopp s (q * 2 ^ ratio_exponent n d))
                   = q * 2 ^ ratio_exponent n d).
    { destruct s; cbn [cond_Zopp]; [rewrite Z.abs_opp|]; apply Z.abs_eq; exact Hy. }
    rewrite Habs.
    apply Z.le_lt_trans with (2 * (Zpos n * 2 ^ 1074)); [exact Hq|].
    replace (K + 1 + 1074) with (1 + (K + 1074)) by ring.
    rewrite (Z.pow_add_r 2 1 (K + 1074)), (Z.pow_add_r 2 K 1074) by lia.
    change (2 ^ 1) with 2. apply Z.mul_lt_mono_pos_l; [reflexivity|].
    apply Z.mul_lt_mono_pos_r; [exact HT | exact Hn].
  - unfold nearest_sf in *. destruct (round_ratio n d) as [[| m | m] e]; try reflexivity.
    destruct (e <=? 971); [reflexivity | discriminate].
Qed.

Lemma nearest_double_magnitude (z : Z) (d : positive) (K : Z) :
  Z.abs z < 2 ^ K -> 0 <= K ->
  sf_is_infinity (nearest_double z d) = false ->
  magnitude (nearest_double z d) <= K + 1 /\ sf_finite (nearest_double z d) = true.
Proof.
  intros Hz HK. destruct z as [| p | p]; cbn [nearest_double].
  - intros _. split; [cbn [magnitude]; lia | reflexivity].
  - apply nearest_sf_magnitude; assumption.
  - apply nearest_sf_magnitude; assumption.
Qed.

Lemma int_truediv_magnitude (a b : Z) (f : float) (K : Z) :
  int_truediv a b = Ok f -> Z.abs a < 2 ^ K -> 0 <= K ->
  magnitude (Prim2SF f) <= K + 1 /\ sf_finite (Prim2SF f) = true.
Proof.
  unfold int_truediv. intros Hdiv Ha HK. destruct b as [| d | d]; [discriminate | |].
  - destruct (sf_is_infinity (nearest_double a d)) eqn:Hinf; [discriminate|].
    injection Hdiv as <-. rewrite Prim2SF_nearest.
    apply nearest_double_magnitude; assumption.
  - destruct (sf_is_infinity (nearest_double (- a) d)) eqn:Hinf; [discriminate|].
    injection Hdiv as <-. rewrite Prim2SF_nearest.
    apply nearest_double_magnitude; [rewrite Z.abs_opp| |]; assumption.
Qed.

Lemma float_of_int_magnitude (z : Z) (f : float) (K : Z) :
  float_of_int z = Ok f -> Z.abs z < 2 ^ K -> 0 <= K ->
  magnitude (Prim2SF f) <= K + 1 /\ sf_finite (Prim2SF f) = true.
Proof.
  unfold float_of_int. intros Hf Hz HK.
  destruct (sf_is_infinity (nearest_double z 1)) eqn:Hinf; [discriminate|].
  injection Hf as <-. rewrite Prim2SF_nearest.
  apply nearest_double_magnitude; assumption.
Qed.

(** [int(w * scale)] is computed when [w] and the quotient that gave
    [scale] are of moderate size. *)
Lemma scaled_size_total (w : Z) (scale : float) :
  Z.abs w < 2 ^ 500 ->
  magnitude (Prim2SF scale) <= 501 -> sf_finite (Prim2SF scale) = true ->
  exists n, scaled_size w scale = Ok n.
Proof.
  intros Hw Hmag Hfin. unfold scaled_size.
  assert (Hw' : Z.abs w < 2 ^ 1023).
  { apply Z.lt_trans with (2 ^ 500); [exact Hw | apply Z.pow_lt_mono_r; lia]. }
  unfold float_of_int at 1. rewrite (nearest_double_finite w 1 Hw').
  assert (Hf : float_of_int w = Ok (SF2Prim (nearest_double w 1))).
  { unfold float_of_int. rewrite (nearest_double_finite w 1 Hw'). reflexivity. }
  destruct (float_of_int_magnitude w _ 500 Hf Hw ltac:(lia)) as [Hmw Hfw].
  unfold int_of_float. rewrite mul_spec. unfold SF64mul.
  pose proof (SFmul_finite (Prim2SF (SF2Prim (nearest_double w 1))) (Prim2SF scale)
                (Prim2SF_valid _) (Prim2SF_valid _) Hfw Hfin ltac:(lia)) as Hprod.
  destruct (SFmul prec emax (Prim2SF (SF2Prim (nearest_double w 1))) (Prim2SF scale));
    try discriminate; eauto.
Qed.

Lemma float_min_cases (a b : float) : float_min a b = a \/ float_min a b = b.
Proof. unfold float_min. destruct (b <? a)%float; auto. Qed.

(** X7: [apply_letterbox] is all or nothing. For a non-empty image with
    at least two dimensions, with sides and targets below [2^500] in
    absolute value, it raises nothing and only adds to the log; it returns
    either the canvas with the resized image pasted at the paddings,
    together with what [scale_objects] returns for the scale and the two
    paddings, or, when the resize, the canvas, the paste or the scaling
    fails, the image and the records it was given, unchanged. *)
Theorem apply_letterbox_all_or_nothing `{Imaging} (a : ndarray) (h w : Z) (rest : list Z)
    (objects : list record) (new_w new_h : Z) (color : Z * Z * Z) (interpolation : Z)
    (w0 : world) :
  invalid_image (Some a) = false ->
  shape a = h :: w :: rest ->
  Z.abs h < 2 ^ 500 -> Z.abs w < 2 ^ 500 ->
  Z.abs new_w < 2 ^ 500 -> Z.abs new_h < 2 ^ 500 ->
  exists out entries,
    apply_letterbox (Some a) objects new_w new_h color interpolation w0
    = (Ok out, log_also w0 entries)
    /\ (out = (Some a, objects)
        \/ exists rx ry scaled_w scaled_h resized canvas pasted scaled,
             int_truediv new_w w = Ok rx /\ int_truediv new_h h = Ok ry
             /\ scaled_size w (float_min rx ry) = Ok scaled_w
             /\ scaled_size h (float_min rx ry) = Ok scaled_h
             /\ cv2_resize a scaled_w scaled_h interpolation = Ok resized
             /\ letterbox_canvas a new_w new_h color = Ok canvas
             /\ set_region canvas ((new_h - scaled_h) / 2) ((new_h - scaled_h) / 2 + scaled_h)
                  ((new_w - scaled_w) / 2) ((new_w - scaled_w) / 2 + scaled_w) resized
                = Ok pasted
             /\ (scale_objects objects (float_min rx ry) (float_min rx ry)
                   (NInt ((new_w - scaled_w) / 2)) (NInt ((new_h - scaled_h) / 2)) w0).1
                = Ok scaled
             /\ out = (Some pasted, scaled)).
Proof.
  intros Hvalid Hshape Hh Hw Hnw Hnh.
  destruct (size_dims a h w rest Hvalid Hshape) as [Hh0 Hw0].
  assert (Hbig : forall z, Z.abs z < 2 ^ 500 -> Z.abs z < 2 ^ 1023).
  { intros z Hz. apply Z.lt_trans with (2 ^ 500); [exact Hz | apply Z.pow_lt_mono_r; lia]. }
  destruct (int_truediv_total new_w w Hw0 (Hbig _ Hnw)) as [rx Hrx].
  destruct (int_truediv_total new_h h Hh0 (Hbig _ Hnh)) as [ry Hry].
  destruct (int_truediv_magnitude new_w w rx 500 Hrx Hnw ltac:(lia)) as [Hmx Hfx].
  destruct (int_truediv_magnitude new_h h ry 500 Hry Hnh ltac:(lia)) as [Hmy Hfy].
  assert (Hscale : magnitude (Prim2SF (float_min rx ry)) <= 501
                   /\ sf_finite (Prim2SF (float_min rx ry)) = true).
  { destruct (float_min_cases rx ry) as [-> | ->]; split; assumption. }
  destruct Hscale as [Hms Hfs].
  destruct (scaled_size_total w (float_min rx ry) Hw Hms Hfs) as [scaled_w Hsw].
  destruct (scaled_size_total h (float_min rx ry) Hh Hms Hfs) as [scaled_h Hsh].
  destruct (apply_letterbox_planned a h w rest objects new_w new_h color interpolation
              rx ry scaled_w scaled_h w0 Hvalid Hshape Hrx Hry Hsw Hsh)
    as (out & entries & Hrun & Hout).
  exists out, entries. split; [exact Hrun|].
  destruct Hout as [-> | (resized & canvas & pasted & scaled & H1 & H2 & H3 & H4 & ->)];
    [left; reflexivity|].
  right. exists rx, ry, scaled_w, scaled_h, resized, canvas, pasted, scaled. auto 12.
Qed.

Lemma apply_letterbox_all_or_nothing_witness :
  exists out entries,
    apply_letterbox (H := shape_only) (Some [50; 100; 3]) [sample_box] 200 200
      default_color INTER_LINEAR empty_world
    = (Ok out, log_also empty_world entries)
    /\ (out = (Some [50; 100; 3], [sample_box])
        \/ exists rx ry scaled_w scaled_h resized canvas pasted scaled,
             int_truediv 200 100 = Ok rx /\ int_truediv 200 50 = Ok ry
             /\ scaled_size 100 (float_min rx ry) = Ok scaled_w
             /\ scaled_size 50 (float_min rx ry) = Ok scaled_h
             /\ cv2_resize (Imaging := shape_only) [50; 100; 3] scaled_w scaled_h INTER_LINEAR
                = Ok resized
             /\ letterbox_canvas (H := shape_only) [50; 100; 3] 200 200 default_color
                = Ok canvas
             /\ set_region canvas ((200 - scaled_h) / 2) ((200 - scaled_h) / 2 + scaled_h)
                  ((200 - scaled_w) / 2) ((200 - scaled_w) / 2 + scaled_w) resized
                = Ok pasted
             /\ (scale_objects [sample_box] (float_min rx ry) (float_min rx ry)
                   (NInt ((200 - scaled_w) / 2)) (NInt ((200 - scaled_h) / 2)) empty_world).1
                = Ok scaled
             /\ out = (Some pasted, scaled)).
Proof.
  apply (apply_letterbox_all_or_nothing (H := shape_only) [50; 100; 3] 50 100 [3]
           [sample_box] 200 200 default_color INTER_LINEAR empty_world);
    vm_compute; reflexivity.
Defined.

(** ** What [main] leaves alone *)

Lemma keeps_disk_ret {A} (a : A) : keeps_disk (ret a).
Proof. intros w. reflexivity. Qed.

Lemma keeps_disk_lift {A} (r : result A) : keeps_disk (lift r).
Proof. intros w. reflexivity. Qed.

Lemma keeps_disk_logging (l : level) (m : message) : keeps_disk (logging l m).
Proof. intros w. reflexivity. Qed.

Lemma keeps_disk_bind {A B} (m : M A) (k : A -> M B) :
  keeps_disk m -> (forall a, keeps_disk (k a)) -> keeps_disk (bind m k).
Proof.
  intros Hm Hk w. unfold bind. specialize (Hm w).
  destruct (m w) as [[a|e] w1]; cbn [snd] in *; [|exact Hm].
  rewrite (Hk a w1). exact Hm.
Qed.

Lemma keeps_disk_try_except {A} (body : M A) (handles : exn -> bool) (handler : exn -> M A) :
  keeps_disk body -> (forall e, keeps_disk (handler e)) ->
  keeps_disk (try_except body handles handler).
Proof.
  intros Hb Hh w. unfold try_except. specialize (Hb w).
  destruct (body w) as [[a|e] w1]; cbn [snd] in *; [exact Hb|].
  destruct (handles e); [|exact Hb]. rewrite (Hh e w1). exact Hb.
Qed.

Lemma scale_objects_keeps_disk (objects : list record) (scale_x scale_y : float)
    (offset_x offset_y : number) :
  keeps_disk (scale_objects objects scale_x scale_y offset_x offset_y).
Proof.
  intros w. destruct (scale_objects_log objects scale_x scale_y offset_x offset_y w)
    as [entries ->]. reflexivity.
Qed.

Ltac keeps_disk_steps :=
  repeat first
    [ apply keeps_disk_ret | apply keeps_disk_lift | apply keeps_disk_logging
    | apply scale_objects_keeps_disk
    | apply keeps_disk_try_except; [|intros ?]
    | apply keeps_disk_bind; [|intros ?]
    | match goal with |- keeps_disk (let '(_, _) := ?x in _) => destruct x end ].

Lemma apply_stretch_keeps_disk `{Imaging} (img : option ndarray) (objects : list record)
    (new_w new_h interpolation : Z) :
  keeps_disk (apply_stretch img objects new_w new_h interpolation).
Proof.
  unfold apply_stretch. destruct img as [a|]; [destruct (size a =? 0)|]; keeps_disk_steps.
Qed.

Lemma apply_letterbox_keeps_disk `{Imaging} (img : option ndarray) (objects : list record)
    (new_w new_h : Z) (color : Z * Z * Z) (interpolation : Z) :
  keeps_disk (apply_letterbox img objects new_w new_h color interpolation).
Proof.
  unfold apply_letterbox. destruct img as [a|]; [destruct (size a =? 0)|]; keeps_disk_steps.
Qed.

Lemma load_kitti_labels_keeps_disk (label_path : path) :
  keeps_disk (load_kitti_labels label_path).
Proof.
  intros w. destruct (load_kitti_labels_run label_path w) as [entries ->]. reflexivity.
Qed.

Lemma keeps_disk_entry {A} (q : path) (n : node) (m : M A) :
  keeps_disk m -> keeps_entry q n m.
Proof. intros Hm w Hq. rewrite (Hm w). exact Hq. Qed.

Lemma grown_keeps (d q : path) (n : node) (fs fs' : filesystem) :
  grown d fs fs' -> fs !! q = Some n -> fs' !! q = Some n.
Proof. intros Hg Hq. specialize (Hg q). rewrite Hq in Hg. exact Hg. Qed.

(** [write_kitti_labels] keeps every entry but its destination. *)
Lemma write_kitti_labels_keeps `{Repr} (label_path : path) (objects : list record)
    (q : path) (n : node) :
  q <> label_path -> keeps_entry q n (write_kitti_labels label_path objects).
Proof.
  intros Hne w Hq. pose proof (write_kitti_labels_cases label_path objects w) as Hc.
  destruct (mkdir_parents (length (parent label_path)) (disk w) (parent label_path))
    as [fs1|e] eqn:Hmk.
  - pose proof (grown_keeps _ q n _ _ (mkdir_parents_grown _ _ _ _ Hmk) Hq) as Hg.
    destruct (open_w fs1 label_path) as [fs2|e].
    + destruct Hc as (entries & r & ->). cbn [snd disk].
      rewrite lookup_insert_ne by congruence. exact Hg.
    + rewrite Hc. exact Hg.
  - rewrite Hc. exact Hq.
Qed.

Section MainFrame.
Context `{Platform} `{Repr}.
Variables (q : path) (n : node).
Hypothesis imwrite_is_local : imwrite_local.

Lemma ckeeps_cret {A} (a : A) : ckeeps_entry q n (cret a).
Proof. intros s Hs. exact Hs. Qed.

Lemma ckeeps_clift {A} (r : result A) : ckeeps_entry q n (clift r).
Proof. intros s Hs. exact Hs. Qed.

Lemma ckeeps_say (l : level) (m : cli_message) : ckeeps_entry q n (say l m).
Proof. intros s Hs. exact Hs. Qed.

Lemma ckeeps_get_files : ckeeps_entry q n get_files.
Proof. intros s Hs. exact Hs. Qed.

Lemma ckeeps_library {A} (m : M A) : keeps_entry q n m -> ckeeps_entry q n (library m).
Proof.
  intros Hm s Hs. unfold library. specialize (Hm (World [] (files s)) Hs).
  destruct (m (World [] (files s))) as [r w]. exact Hm.
Qed.

Lemma ckeeps_cbind {A B} (m : C A) (k : A -> C B) :
  ckeeps_entry q n m -> (forall a, ckeeps_entry q n (k a)) -> ckeeps_entry q n (cbind m k).
Proof.
  intros Hm Hk s Hs. unfold cbind. specialize (Hm s Hs).
  destruct (m s) as [[a|e] s1]; cbn [snd] in *; [|exact Hm].
  exact (Hk a s1 Hm).
Qed.

Lemma ckeeps_ctry {A} (body : C A) (handles : exn -> bool) (handler : exn -> C A) :
  ckeeps_entry q n body -> (forall e, ckeeps_entry q n (handler e)) ->
  ckeeps_entry q n (ctry body handles handler).
Proof.
  intros Hb Hh s Hs. unfold ctry. specialize (Hb s Hs).
  destruct (body s) as [[a|e] s1]; cbn [snd] in *; [exact Hb|].
  destruct (handles e); [|exact Hb]. exact (Hh e s1 Hb).
Qed.

Lemma transform_fn_keeps (m : transform_mode) (img : option ndarray)
    (objects : list record) (new_w new_h : Z) :
  keeps_entry q n (transform_fn m img objects new_w new_h).
Proof.
  apply keeps_disk_entry. destruct m; cbn [transform_fn];
    [apply apply_stretch_keeps_disk | apply apply_letterbox_keeps_disk].
Qed.

Ltac ckeeps_steps :=
  repeat first
    [ apply ckeeps_cret | apply ckeeps_clift | apply ckeeps_say | apply ckeeps_get_files
    | apply ckeeps_ctry; [|intros ?]
    | apply ckeeps_cbind; [|intros ?] ].

(** The image is written where [main] says, and the rest of the turn
    follows on the disk [cv2.imwrite] leaves. *)
Lemma ckeeps_imwrite {A} (p : path) (img : option ndarray)
    (k : bool -> C A) :
  q <> p ->
  (forall success, ckeeps_entry q n (k success)) ->
  ckeeps_entry q n
    (cbind get_files (fun fs =>
       cbind (clift (match img with
                     | Some a => imwrite fs p a
                     | None => Raise CvError
                     end))
         (fun wr => let '(success, fs') := wr in cbind (set_files fs') (fun _ => k success)))).
Proof.
  intros Hne Hk s Hs. unfold cbind at 1 2, get_files, clift. cbn [fst snd].
  destruct img as [a|]; [|exact Hs].
  destruct (imwrite (files s) p a) as [[ok fs']|e] eqn:Hw; [|exact Hs].
  unfold cbind, set_files.
  apply (Hk ok (Session (journal s) fs')). cbn [files].
  rewrite (imwrite_is_local _ _ _ _ _ Hw q Hne). exact Hs.
Qed.

Lemma process_keeps (args : namespace) (out_imgs out_lbls img_path : path)
    (counts : nat * nat) :
  (forall x, q <> out_imgs ++ [x]) -> (forall x, q <> out_lbls ++ [x]) ->
  ckeeps_entry q n (process args out_imgs out_lbls img_path counts).
Proof.
  intros Himg Hlbl. unfold process. destruct counts as [processed errors].
  destruct (args_size args) as [new_w new_h].
  apply ckeeps_ctry; [|intros e; ckeeps_steps].
  apply ckeeps_cbind; [apply ckeeps_get_files|]. intros fs.
  apply ckeeps_cbind; [apply ckeeps_clift|]. intros [img|]; [|ckeeps_steps].
  apply ckeeps_cbind;
    [apply ckeeps_library, keeps_disk_entry, load_kitti_labels_keeps_disk|]. intros objects.
  apply ckeeps_cbind; [apply ckeeps_say|]. intros _.
  apply ckeeps_cbind; [apply ckeeps_library, transform_fn_keeps|].
  intros [img_resized objects_resized].
  apply ckeeps_imwrite; [apply Himg|].
  intros success. destruct success; cbn [negb]; [|ckeeps_steps].
  apply ckeeps_cbind; [apply ckeeps_library, write_kitti_labels_keeps, Hlbl|].
  intros ok. destruct ok; cbn [negb]; ckeeps_steps.
Qed.

Lemma for_each_keeps (args : namespace) (out_imgs out_lbls : path) (images : list path) :
  (forall x, q <> out_imgs ++ [x]) -> (forall x, q <> out_lbls ++ [x]) ->
  forall counts, ckeeps_entry q n (for_each (process args out_imgs out_lbls) images counts).
Proof.
  intros Himg Hlbl. induction images as [|img rest IH]; intros counts; cbn [for_each].
  - apply ckeeps_cret.
  - apply ckeeps_cbind; [apply process_keeps; assumption | exact IH].
Qed.

End MainFrame.

(** X20: [main] leaves its inputs alone. Provided [cv2.imwrite] writes
    nothing but its destination, every entry of the disk that is not a
    direct child of [<out>/images] or [<out>/labels] is after the run what
    it was before it, whatever [main] returns or raises. *)
Theorem main_keeps_inputs `{Platform} `{Repr} (args : namespace) (s : session)
    (q : path) (n : node) :
  imwrite_local ->
  files s !! q = Some n ->
  (forall x, q <> out args ++ ["images"; x]) ->
  (forall x, q <> out args ++ ["labels"; x]) ->
  files (main args s).2 !! q = Some n.
Proof.
  intros Hloc Hs Himg Hlbl.
  assert (Himg' : forall x, q <> (out args ++ ["images"]) ++ [x])
    by (intros x; rewrite <- app_assoc; apply Himg).
  assert (Hlbl' : forall x, q <> (out args ++ ["labels"]) ++ [x])
    by (intros x; rewrite <- app_assoc; apply Hlbl).
  unfold main. unfold cbind at 1 2, say at 1, get_files. cbn [fst snd files journal].
  destruct (path_exists (files s) (in_img args)); cbn [negb]; [|exact Hs].
  destruct (path_exists (files s) (in_lbl args)); cbn [negb]; [|exact Hs].
  unfold cbind at 1 2, say at 1, clift at 1. cbn [fst snd files journal].
  destruct (find_images args (files s)) as [images|e]; [|exact Hs].
  destruct (length images =? 0)%nat; [exact Hs|].
  unfold cbind at 1 2, say at 1, clift at 1. cbn [fst snd files journal].
  destruct (mkdir_parents (length (out args ++ ["images"])) (files s) (out args ++ ["images"]))
    as [fs1|e] eqn:Hmk1; [|exact Hs].
  pose proof (grown_keeps _ q n _ _ (mkdir_parents_grown _ _ _ _ Hmk1) Hs) as Hs1.
  unfold cbind at 1 2, set_files at 1, clift at 1. cbn [fst snd files journal].
  destruct (mkdir_parents (length (out args ++ ["labels"])) fs1 (out args ++ ["labels"]))
    as [fs2|e] eqn:Hmk2; [|exact Hs1].
  pose proof (grown_keeps _ q n _ _ (mkdir_parents_grown _ _ _ _ Hmk2) Hs1) as Hs2.
  unfold cbind at 1 2, set_files at 1, say at 1. cbn [fst snd files journal].
  match goal with
  | |- files (cbind ?m ?k ?s0).2 !! q = Some n =>
      apply (ckeeps_cbind q n m k); [apply (for_each_keeps q n Hloc); assumption | | exact Hs2]
  end.
  intros [processed errors].
  repeat first
    [ apply ckeeps_cret | apply ckeeps_say | apply ckeeps_cbind; [|intros ?]
    | match goal with |- ckeeps_entry _ _ (if ?b then _ else _) => destruct b end ].
Qed.

Lemma main_keeps_inputs_witness :
  files (main photo_args photo_session).2 !! ["in"; "a.jpg"] = Some (File true true "pixels").
Proof.
  apply (main_keeps_inputs photo_args photo_session ["in"; "a.jpg"] (File true true "pixels")).
  - intros fs p a ok fs' Hw q Hq. cbn [imwrite sample_platform] in Hw.
    destruct (is_dir fs (parent p)); injection Hw as <- <-;
      [rewrite lookup_insert_ne by congruence|]; reflexivity.
  - vm_compute. reflexivity.
  - intros x. vm_compute. discriminate.
  - intros x. vm_compute. discriminate.
Defined.
